(** * render-engine: a shallow embedding of the rendering core

    The development follows the TypeScript sources of the render engine,
    module by module, under the names by which the modules import each
    other:
    - [utils/color]          resolveColor, hexToRgba;
    - [utils/text]           wrapText, applyTextTransform;
    - [utils/image]          drawImageCover, drawImageContain;
    - [templates/registry]   the four stores, loadBuiltinTemplates,
                             syncFromAirtable, initRegistry, getTemplate,
                             saveTemplate, getRotationPool, selectFromPool,
                             autoSelectTemplate, hashBasedSelect;
    - [engine/asset-loader]  loadRemoteImage and its insertion-ordered cache,
                             isWebP, loadAllImages;
    - [engine/layout-engine] resolveVariables, buildColorVariables;
    - [engine/font-manager]  getFontString;
    - [engine/png-renderer]  renderPng, drawBackground, drawLayer and the
                             painters of the layer variants;
    - [engine/mp4-renderer]  renderMp4, buildMp4WithXfade.

    Modelling conventions.
    - A JavaScript string is a [string]; every [ascii] stands for one code
      unit (the Latin-1 range).
    - A JavaScript number that counts or indexes (array index, line count,
      image count) is a [nat]; a number that measures (pixels, seconds,
      weights, opacity) is a rational [Q].  The geometry of the painters
      is computed exactly; the seconds that [renderMp4] prints into the
      command of the encoder are rounded as IEEE doubles are
      ([Num.double]).
    - [Record<string,string>] is the [gmap string string] of its own
      properties; a read of such an object also looks into
      [Object.prototype] ([Js.read]).  A [Map] whose iteration order
      matters is an association list in insertion order.
    - Code that throws runs in a state-and-exception monad: the mutable
      object (canvas context, file system trace) survives the throw. *)

From Stdlib Require Import String Ascii List ZArith QArith Qround Lia Lqa Bool Arith.
From stdpp Require Import base option list strings gmap sorting pretty.

Import ListNotations.
Local Open Scope string_scope.
Local Open Scope list_scope.

(** ** JavaScript string primitives *)

Module Js.

(** Truthiness of a string: only the empty string is falsy. *)
Definition truthy (s : string) : bool :=
  match s with
  | EmptyString => false
  | String _ _ => true
  end.

(** [a || b] on strings. *)
Definition or_else (a b : string) : string :=
  if truthy a then a else b.

Definition startsWith (s p : string) : bool := String.prefix p s.

Definition endsWith (s p : string) : bool :=
  (String.length p <=? String.length s)%nat
  && String.eqb (substring (String.length s - String.length p) (String.length p) s) p.

(** [s.slice(a, -b)] for literal non-negative [a] and [b]. *)
Definition slice_neg (s : string) (a b : nat) : string :=
  substring a (String.length s - b - a) s.

(** [s.slice(a)]. *)
Definition slice_from (s : string) (a : nat) : string :=
  substring a (String.length s - a) s.

(** White space of [trim]/[trimEnd] within the Latin-1 range:
    TAB, LF, VT, FF, CR, SPACE and NBSP. *)
Definition isWhiteSpace (c : ascii) : bool :=
  let n := nat_of_ascii c in
  ((9 <=? n) && (n <=? 13) || (n =? 32) || (n =? 160))%nat.

Fixpoint trimStart (s : string) : string :=
  match s with
  | EmptyString => EmptyString
  | String c s' => if isWhiteSpace c then trimStart s' else s
  end.

Fixpoint trimEnd (s : string) : string :=
  match s with
  | EmptyString => EmptyString
  | String c s' =>
      match trimEnd s' with
      | EmptyString => if isWhiteSpace c then EmptyString else String c EmptyString
      | t => String c t
      end
  end.

Definition trim (s : string) : string := trimEnd (trimStart s).

(** [s.slice(0, -1)]: drop the last code unit. *)
Fixpoint dropLast (s : string) : string :=
  match s with
  | EmptyString => EmptyString
  | String c EmptyString => EmptyString
  | String c s' => String c (dropLast s')
  end.

(** [s.split(' ')]. *)
Fixpoint split_space (s : string) : list string :=
  match s with
  | EmptyString => [EmptyString]
  | String c s' =>
      if Ascii.eqb c " "%char then EmptyString :: split_space s'
      else match split_space s' with
           | [] => [String c EmptyString]
           | w :: ws => String c w :: ws
           end
  end.

(** [s.replace(c, '')] for a pattern [c] of one character: the first
    occurrence goes, later ones stay. *)
Fixpoint removeFirst (s : string) (c : ascii) : string :=
  match s with
  | EmptyString => EmptyString
  | String d s' => if Ascii.eqb d c then s' else String d (removeFirst s' c)
  end.

(** The value of a digit of radix 16. *)
Definition hexDigit (c : ascii) : option Z :=
  let n := nat_of_ascii c in
  if ((48 <=? n) && (n <=? 57))%nat then Some (Z.of_nat n - 48)%Z
  else if ((97 <=? n) && (n <=? 102))%nat then Some (Z.of_nat n - 87)%Z
  else if ((65 <=? n) && (n <=? 70))%nat then Some (Z.of_nat n - 55)%Z
  else None.

(** The digits [parseInt] reads: the longest prefix of digits of radix 16.
    [acc] is the value read so far, [None] as long as no digit was read. *)
Fixpoint hexPrefix (s : string) (acc : option Z) : option Z :=
  match s with
  | EmptyString => acc
  | String c s' =>
      match hexDigit c with
      | Some d => hexPrefix s' (Some (16 * default 0%Z acc + d)%Z)
      | None => acc
      end
  end.

(** [parseInt(s, 16)]: leading white space, a sign and a prefix [0x] are
    skipped, then digits are read as far as they go.  [None] is [NaN].
    The value is exact as long as it stays below [2^53]. *)
Definition parseInt16 (s : string) : option Z :=
  let s := trimStart s in
  let '(sign, s) :=
    match s with
    | String "-" s' => ((-1)%Z, s')
    | String "+" s' => (1%Z, s')
    | _ => (1%Z, s)
    end in
  let s :=
    match s with
    | String "0" (String "x" s') => s'
    | String "0" (String "X" s') => s'
    | _ => s
    end in
  option_map (Z.mul sign) (hexPrefix s None).

(** [str.charCodeAt(i)] for every [i], in order. *)
Definition charCodes (s : string) : list Z :=
  map (fun c => Z.of_nat (nat_of_ascii c)) (list_ascii_of_string s).

(** [ToInt32]: the integer modulo [2^32] that lies in [-2^31, 2^31). *)
Definition toInt32 (z : Z) : Z :=
  ((z + 2147483648) mod 4294967296 - 2147483648)%Z.

(** [a << b] *)
Definition shl (a b : Z) : Z := toInt32 (Z.shiftl (toInt32 a) (b mod 32)).

(** [a & b] *)
Definition band (a b : Z) : Z := toInt32 (Z.land (toInt32 a) (toInt32 b)).

(** What [object[key]] evaluates to on a plain object whose own properties
    are strings: a string, or the member of [Object.prototype] that the
    object inherits under that name (a function; the prototype itself
    for [__proto__]). *)
Inductive Value :=
| Str (s : string)
| Inherited (member : string).

(** [Object.getOwnPropertyNames(Object.prototype)] *)
Definition objectPrototype : list string :=
  [ "constructor"; "__defineGetter__"; "__defineSetter__"; "hasOwnProperty";
    "__lookupGetter__"; "__lookupSetter__"; "isPrototypeOf"; "propertyIsEnumerable";
    "toString"; "valueOf"; "__proto__"; "toLocaleString" ].

(** [object[key]] for the object whose own properties are [object]:
    an own property first, then the prototype; [None] is [undefined]. *)
Definition read (object : gmap string string) (key : string) : option Value :=
  match object !! key with
  | Some v => Some (Str v)
  | None => if bool_decide (key ∈ objectPrototype) then Some (Inherited key) else None
  end.

(** A function or an object is truthy. *)
Definition truthyValue (v : Value) : bool :=
  match v with
  | Str s => truthy s
  | Inherited _ => true
  end.

End Js.

(** ** JavaScript numbers as rationals *)

Module Num.

(** [a > b] *)
Definition gt (a b : Q) : bool := negb (Qle_bool a b).

(** [a <= b] *)
Definition le (a b : Q) : bool := Qle_bool a b.

(** Truthiness of a number: zero is falsy. *)
Definition truthy (a : Q) : bool := negb (Qeq_bool a 0).

(** [v || d] for an optional number: [undefined] and [0] give [d]. *)
Definition or_else (v : option Q) (d : Q) : Q :=
  match v with
  | Some a => if truthy a then a else d
  | None => d
  end.

(** [Math.round]: the nearest integer, halves rounded up. *)
Definition round (a : Q) : Z := Qfloor (a + (1 # 2)).

Definition of_nat (n : nat) : Q := inject_Z (Z.of_nat n).

(** [2^e] *)
Definition pow2 (e : Z) : Q :=
  if (0 <=? e)%Z then inject_Z (2 ^ e) else 1 # Z.to_pos (2 ^ (- e)).

(** The integer [k] with [2^k <= a < 2^(k+1)], for a positive [a]. *)
Definition ilog2 (a : Q) : Z :=
  let k := (Z.log2 (Qnum a) - Z.log2 (Zpos (Qden a)))%Z in
  if Qle_bool (pow2 k) a then k else (k - 1)%Z.

(** The nearest integer, a half going to the even neighbour. *)
Definition roundHalfEven (a : Q) : Z :=
  let f := Qfloor a in
  match Qcompare (a - inject_Z f) (1 # 2) with
  | Lt => f
  | Gt => (f + 1)%Z
  | Eq => if Z.even f then f else (f + 1)%Z
  end.

(** The IEEE 754 double nearest to [q], ties to even: a significand of
    53 bits, the exponent not below that of the subnormal numbers.  The
    overflow to [Infinity] beyond [2^1024] and the sign of zero are left
    out. *)
Definition double (q : Q) : Q :=
  if Qeq_bool q 0 then 0%Q
  else
    let a := if Qle_bool 0 q then q else (- q)%Q in
    let e := Z.max (ilog2 a - 52) (-1074) in
    let r := (inject_Z (roundHalfEven (a / pow2 e)) * pow2 e)%Q in
    Qred (if Qle_bool 0 q then r else (- r)%Q).

(** [a + b], [a - b] and [a / b] on doubles: the exact result, rounded;
    [b] is not zero in [a / b]. *)
Definition add (a b : Q) : Q := double (a + b).
Definition sub (a b : Q) : Q := double (a - b).
Definition div (a b : Q) : Q := double (a / b).

End Num.

(** ** types.ts *)

Inductive OutputFormat := png | mp4.

Inductive Fit := cover | contain | fill.

Inductive FontWeight := regular | medium | semibold | bold.

Inductive Align := alignLeft | alignCenter | alignRight.

Inductive VerticalAlign := alignTop | alignMiddle | alignBottom.

Inductive TextTransform := uppercase | lowercase | noTransform.

Inductive CtaVariant := square | landscape.

Inductive TransitionType := fade | slide_left | slide_right | zoom | crossfade.

Record Shadow := {
  blur : Q;
  offsetX : Q;
  offsetY : Q;
  shadow_color : string
}.

Record Stroke := {
  stroke_color : string;
  stroke_width : Q
}.

Record BaseLayer := {
  x : Q;
  y : Q;
  width : Q;
  height : Q;
  opacity : option Q;
  borderRadius : option Q;
  visible : option bool
}.

Record ImageLayer := {
  image_index : nat;
  image_fit : Fit;
  shadow : option Shadow
}.

Record TextLayer := {
  content : string;
  fontFamily : string;
  fontSize : Q;
  fontWeight : FontWeight;
  text_color : string;
  align : Align;
  verticalAlign : option VerticalAlign;
  maxLines : option nat;
  lineHeight : option Q;
  textTransform : option TextTransform;
  text_padding : option Q;
  letterSpacing : option Q
}.

Record RectLayer := {
  rect_fill : string;
  stroke : option Stroke
}.

Record LogoLayer := {
  logo_fit : Fit;
  logo_padding : option Q;
  logo_background : option string
}.

Record AccentBarLayer := {
  bar_color : string
}.

Record CtaImageLayer := {
  cta_variant : CtaVariant;
  cta_fit : Fit;
  cta_padding : option Q;
  cta_background : option string
}.

(** The [type] tag of a layer together with the fields of that variant. *)
Inductive LayerKind :=
| KImage (l : ImageLayer)
| KText (l : TextLayer)
| KRect (l : RectLayer)
| KLogo (l : LogoLayer)
| KAccentBar (l : AccentBarLayer)
| KCtaImage (l : CtaImageLayer).

Record LayerDefinition := {
  base : BaseLayer;
  kind : LayerKind
}.

Inductive BackgroundDef :=
| BgSolid (color : string)
| BgGradient (colors : list string) (angle : Q)
| BgImage (index : nat).

Record FrameDefinition := {
  durationMs : option Q;
  background : BackgroundDef;
  layers : list LayerDefinition
}.

Record Transition := {
  transition_type : TransitionType;
  transition_durationMs : Q
}.

Record TemplateDefinition := {
  id : string;
  name : string;
  outputFormat : OutputFormat;
  template_width : nat;
  template_height : nat;
  imageCount : nat;
  template_categoryKeys : list string;
  fps : option Q;
  frames : list FrameDefinition;
  transition : option Transition
}.

Record RenderVariables := {
  title : string;
  subtitle : string;
  body : string;
  phone : string;
  service_areas : string;
  primary_colour : string;
  secondary_colour : string;
  logo_url : string;
  user_images : list string;
  company_name : string;
  website : option string;
  square_cta_image_url : option string;
  landscape_cta_image_url : option string
}.

Record RotationCursor := {
  lastIndex : nat
}.

Record RotationState := {
  state_png : RotationCursor;
  state_mp4 : RotationCursor
}.

Record TemplateWithMeta := {
  template : TemplateDefinition;
  airtableRecordId : string;
  rotationWeight : Q;
  categoryKeys : list string
}.

Inductive PostType :=
| slideshow | gallery | one_two_image | before_after | text_only | user_reel.

(** A record of the Templates table as [fetchAllTemplates] maps it. *)
Record AirtableTemplateRecord := {
  rec_id : string;
  reference : string;
  template_active : bool;
  builtin_id : string;
  template_json : string;
  output_format : OutputFormat;
  image_count : nat;
  category_keys : list string;
  rotation_weight : Q
}.

(** A decoded image of node-canvas. *)
Record Image := {
  img_src : string;
  img_width : Q;
  img_height : Q
}.

(** ** utils/color.ts *)

Module Color.

(** [variables[key] || '#000000']: the read goes through the prototype
    of the object, so a key that is no own property may still find a
    member of [Object.prototype]. *)
Definition lookup_or_black (variables : gmap string string) (key : string) : Js.Value :=
  match Js.read variables key with
  | Some v => if Js.truthyValue v then v else Js.Str "#000000"
  | None => Js.Str "#000000"
  end.

(** The declared result is a string; what comes back for a key such as
    [constructor] is the inherited member. *)
Definition resolveColor (color : string) (variables : gmap string string) : Js.Value :=
  if Js.startsWith color "{{" && Js.endsWith color "}}" then
    let key := Js.trim (Js.slice_neg color 2 2) in
    lookup_or_black variables key
  else if Js.startsWith color "$" then
    let key := Js.slice_from color 1 in
    lookup_or_black variables key
  else Js.Str color.

(** [`${n}`] for a result of [parseInt]. *)
Definition showInt (n : option Z) : string :=
  match n with
  | Some z => pretty z
  | None => "NaN"
  end.

(** [alpha: number = 1]: an absent argument is [1]. *)
Definition hexToRgba (numberToString : Q -> string) (hex : string) (alpha : option Q)
  : string :=
  let alpha := default 1%Q alpha in
  let clean := Js.removeFirst hex "#" in
  let r := Js.parseInt16 (substring 0 2 clean) in
  let g := Js.parseInt16 (substring 2 2 clean) in
  let b := Js.parseInt16 (substring 4 2 clean) in
  "rgba(" +:+ showInt r +:+ ", " +:+ showInt g +:+ ", " +:+ showInt b +:+ ", "
    +:+ numberToString alpha +:+ ")".

End Color.

(** ** utils/text.ts *)

Module Text.

Record WrappedLine := {
  text : string;
  width : Q
}.

Definition ellipsis : string := "...".

Section WithContext.

(** [ctx.measureText(s).width] under the context's current font. *)
Variable measure : string -> Q.

Definition line_of (s : string) : WrappedLine :=
  {| text := s; width := measure s |}.

(** One iteration of [for (const word of words)]; the state is
    [(lines, currentLine)]. *)
Definition wrapStep (maxWidth : Q) (st : list WrappedLine * string) (word : string)
  : list WrappedLine * string :=
  let '(lines, currentLine) := st in
  let testLine :=
    if Js.truthy currentLine then currentLine +:+ " " +:+ word else word in
  if Num.gt (measure testLine) maxWidth && Js.truthy currentLine
  then (lines ++ [line_of currentLine], word)
  else (lines, testLine).

(** The lines before the [maxLines] cut. *)
Definition greedyLines (text : string) (maxWidth : Q) : list WrappedLine :=
  let '(lines, currentLine) :=
    fold_left (wrapStep maxWidth) (Js.split_space text) ([], EmptyString) in
  if Js.truthy currentLine then lines ++ [line_of currentLine] else lines.

(** The loop condition
    [ctx.measureText(text + '...').width > maxWidth && text.length > 0]. *)
Definition mustShrink (maxWidth : Q) (text : string) : bool :=
  Num.gt (measure (text +:+ ellipsis)) maxWidth && (0 <? String.length text)%nat.

(** The loop body [text = text.slice(0, -1).trimEnd()]. *)
Definition shrink (text : string) : string := Js.trimEnd (Js.dropLast text).

(** The [while] loop; every iteration shortens [text], so
    [String.length text] iterations are enough. *)
Fixpoint shrinkLoop (fuel : nat) (maxWidth : Q) (text : string) : string :=
  match fuel with
  | O => text
  | S fuel' =>
      if mustShrink maxWidth text
      then shrinkLoop fuel' maxWidth (shrink text)
      else text
  end.

Definition fitEllipsis (maxWidth : Q) (text : string) : string :=
  shrinkLoop (String.length text) maxWidth text.

Definition wrapText (text : string) (maxWidth : Q) (maxLines : option nat)
  : list WrappedLine :=
  let lines := greedyLines text maxWidth in
  match maxLines with
  | Some n =>
      if negb (n =? 0)%nat && (n <? length lines)%nat then
        let truncated := take n lines in
        match truncated !! (n - 1)%nat with
        | Some lastLine =>
            let text := fitEllipsis maxWidth (Text.text lastLine) in
            <[(n - 1)%nat := line_of (text +:+ ellipsis)]> truncated
        | None => truncated
        end
      else lines
  | None => lines
  end.

End WithContext.

Definition applyTextTransform (toUpperCase toLowerCase : string -> string)
    (text : string) (transform : option TextTransform) : string :=
  match transform with
  | Some uppercase => toUpperCase text
  | Some lowercase => toLowerCase text
  | _ => text
  end.

End Text.

(** ** Thrown values *)

Inductive Error :=
| JsError (msg : string)      (* [throw new Error(msg)] *)
| HostError (origin : string) (* an exception raised by a host binding *).

Inductive Outcome (A : Type) :=
| Ok (a : A)
| Throw (e : Error).

Arguments Ok {A} a.
Arguments Throw {A} e.

(** ** An insertion-ordered [Map<string, V>] *)

Module JsMap.

Section Ops.
Context {V : Type}.

Definition t := list (string * V).

Fixpoint get (m : list (string * V)) (k : string) : option V :=
  match m with
  | [] => None
  | (k', v) :: m' => if String.eqb k' k then Some v else get m' k
  end.

(** [m.set(k, v)]: an existing key keeps its position. *)
Fixpoint set (m : list (string * V)) (k : string) (v : V) : list (string * V) :=
  match m with
  | [] => [(k, v)]
  | (k', v') :: m' =>
      if String.eqb k' k then (k', v) :: m' else (k', v') :: set m' k v
  end.

Fixpoint delete (m : list (string * V)) (k : string) : list (string * V) :=
  match m with
  | [] => []
  | (k', v') :: m' =>
      if String.eqb k' k then m' else (k', v') :: delete m' k
  end.

Definition size (m : list (string * V)) : nat := length m.

(** [m.keys().next().value] *)
Definition firstKey (m : list (string * V)) : option string :=
  match m with
  | [] => None
  | (k, _) :: _ => Some k
  end.

Definition keys (m : list (string * V)) : list string := map fst m.

Definition values (m : list (string * V)) : list V := map snd m.

End Ops.

End JsMap.

(** ** templates/registry.ts *)

Module Registry.

Definition format_eqb (a b : OutputFormat) : bool :=
  match a, b with
  | png, png | mp4, mp4 => true
  | _, _ => false
  end.

(** [ks.includes(k)] *)
Definition includes (ks : list string) (k : string) : bool :=
  existsb (String.eqb k) ks.

(** [t.imageCount] and [meta.categoryKeys], named apart from the
    parameters of [getRotationPool]. *)
Definition requiredImages (t : TemplateDefinition) : nat := imageCount t.
Definition metaCategoryKeys (meta : TemplateWithMeta) : list string := categoryKeys meta.

(** The body of the candidate loop: [false] stands for [continue]. *)
Definition isCandidate (format : OutputFormat) (imageCount : nat)
    (categoryKeys : option (list string)) (meta : TemplateWithMeta) : bool :=
  let t := template meta in
  if negb (format_eqb (outputFormat t) format) then false
  else if (imageCount <? requiredImages t)%nat then false
  else if
    match categoryKeys with
    | Some ks =>
        (0 <? length ks)%nat
        && negb (existsb (fun k => includes ks k) (metaCategoryKeys meta))
    | None => false
    end
  then false
  else if Num.le (rotationWeight meta) 0 then false
  else true.

(** [Math.min(Math.max(1, Math.round(c.rotationWeight)), 10)] *)
Definition copies (c : TemplateWithMeta) : Z :=
  Z.min (Z.max 1 (Num.round (rotationWeight c))) 10.

(** The order induced by the comparator
    [(a, b) => a.airtableRecordId.localeCompare(b.airtableRecordId)];
    [localeCompare] answers negative, zero or positive. *)
Definition byRecordId (localeCompare : string -> string -> Z)
    (a b : TemplateWithMeta) : Prop :=
  (localeCompare (airtableRecordId a) (airtableRecordId b) <= 0)%Z.

#[global] Instance byRecordId_dec localeCompare a b :
  Decision (byRecordId localeCompare a b).
Proof. unfold byRecordId. apply _. Defined.

Definition getRotationPool (localeCompare : string -> string -> Z)
    (templatesByAirtableId : list (string * TemplateWithMeta))
    (format : OutputFormat) (imageCount : nat) (categoryKeys : option (list string))
  : list TemplateWithMeta :=
  let candidates :=
    filter (fun meta => isCandidate format imageCount categoryKeys meta = true)
           (JsMap.values templatesByAirtableId) in
  let candidates := merge_sort (byRecordId localeCompare) candidates in
  flat_map (fun c => replicate (Z.to_nat (copies c)) c) candidates.

(** [templatesByAirtableId.set(rec.id, meta)] of [syncFromAirtable];
    [meta.airtableRecordId] is [rec.id]. *)
Definition register (templatesByAirtableId : list (string * TemplateWithMeta))
    (meta : TemplateWithMeta) : list (string * TemplateWithMeta) :=
  JsMap.set templatesByAirtableId (airtableRecordId meta) meta.

(** The map after a sync that kept the records [metas], in order. *)
Definition synced (metas : list TemplateWithMeta) : list (string * TemplateWithMeta) :=
  fold_left register metas [].

Record Selection := {
  selected : option TemplateWithMeta;  (* [pool[nextIndex]] *)
  updatedState : RotationState
}.

Definition cursor (state : RotationState) (format : OutputFormat) : RotationCursor :=
  match format with
  | png => state_png state
  | mp4 => state_mp4 state
  end.

(** [{ ...state, [format]: { lastIndex: nextIndex } }] *)
Definition withCursor (state : RotationState) (format : OutputFormat) (c : RotationCursor)
  : RotationState :=
  match format with
  | png => {| state_png := c; state_mp4 := state_mp4 state |}
  | mp4 => {| state_png := state_png state; state_mp4 := c |}
  end.

Definition selectFromPool (pool : list TemplateWithMeta) (state : RotationState)
    (format : OutputFormat) : option Selection :=
  if (length pool =? 0)%nat then None
  else
    let formatState := cursor state format in
    let nextIndex := ((lastIndex formatState + 1) mod length pool)%nat in
    let updatedState := withCursor state format {| lastIndex := nextIndex |} in
    Some {| selected := pool !! nextIndex; updatedState := updatedState |}.

(** [n] successive selections, each fed the state returned by the one
    before; the indices selected, in order. *)
Fixpoint successiveIndices (n : nat) (pool : list TemplateWithMeta)
    (state : RotationState) (format : OutputFormat) : list nat :=
  match n with
  | O => []
  | S n' =>
      match selectFromPool pool state format with
      | None => []
      | Some r =>
          lastIndex (cursor (updatedState r) format)
            :: successiveIndices n' pool (updatedState r) format
      end
  end.

(** The in-memory stores of the module. *)
Record Stores := {
  builtinTemplates : list (string * TemplateDefinition);
  templatesByAirtableId : list (string * TemplateWithMeta);
  builtinIdToAirtableId : list (string * string);
  templatesByTemplateId : list (string * TemplateWithMeta);
  refreshTimer : bool    (* whether the periodic refresh is armed *)
}.

Definition noStores : Stores :=
  {| builtinTemplates := []; templatesByAirtableId := []; builtinIdToAirtableId := [];
     templatesByTemplateId := []; refreshTimer := false |}.

(** What the module reads from outside at one moment.  [readBuiltin file]
    is [JSON.parse(readFileSync(path.join(builtinDir, file)))], taken to
    be a template as the cast says; [parseTemplate json] is [JSON.parse]
    followed by [templateSchema.parse]; [None] is a thrown exception or a
    rejected promise.  [getCompanyRotationState] catches every failure
    itself and answers with a state. *)
Record Host := {
  readBuiltin : string -> option TemplateDefinition;
  fetchAllTemplates : option (list AirtableTemplateRecord);
  parseTemplate : string -> option TemplateDefinition;
  getCompanyRotationState : string -> RotationState
}.

Definition builtinFiles : list string :=
  [ "main-2-image.json"; "before-after.json"; "main-1-image.json";
    "slideshow-base.json"; "bold-diagonal.json"; "card-stack.json";
    "hero-banner.json"; "minimal-split.json"; "gradient-overlay.json" ].

(** The entry that [ensureBuiltinsFallback] and [saveTemplate] make for a
    template that has no record. *)
Definition unmanaged (template : TemplateDefinition) : TemplateWithMeta :=
  {| template := template; airtableRecordId := EmptyString; rotationWeight := 1;
     categoryKeys := template_categoryKeys template |}.

Definition ensureBuiltinsFallback (st : Stores) : Stores :=
  if (0 <? JsMap.size (templatesByTemplateId st))%nat then st
  else
    {| builtinTemplates := builtinTemplates st;
       templatesByAirtableId := templatesByAirtableId st;
       builtinIdToAirtableId := builtinIdToAirtableId st;
       templatesByTemplateId :=
         fold_left (fun m '(id, template) => JsMap.set m id (unmanaged template))
           (builtinTemplates st) (templatesByTemplateId st);
       refreshTimer := refreshTimer st |}.

Definition getTemplate (st : Stores) (id : string) : option TemplateDefinition :=
  match JsMap.get (templatesByTemplateId st) id with
  | Some meta => Some (template meta)
  | None => JsMap.get (builtinTemplates st) id
  end.

Definition getTemplateByAirtableId (st : Stores) (airtableRecordId : string)
  : option TemplateDefinition :=
  option_map template (JsMap.get (templatesByAirtableId st) airtableRecordId).

Definition saveTemplate (st : Stores) (template : TemplateDefinition) : Stores :=
  {| builtinTemplates := builtinTemplates st;
     templatesByAirtableId := templatesByAirtableId st;
     builtinIdToAirtableId := builtinIdToAirtableId st;
     templatesByTemplateId :=
       JsMap.set (templatesByTemplateId st) (id template) (unmanaged template);
     refreshTimer := refreshTimer st |}.

Definition listTemplates (st : Stores) : list TemplateDefinition :=
  map template (JsMap.values (templatesByTemplateId st)).

Definition listTemplatesWithMeta (st : Stores) : list TemplateWithMeta :=
  JsMap.values (templatesByAirtableId st).

(** [Math.max(0, w)] *)
Definition atLeastZero (w : Q) : Q := if Num.le w 0 then 0%Q else w.

Section WithHost.

Variable host : Host.

(** The loop of [loadBuiltinTemplates]; a file that cannot be read or
    parsed ends it with the exception. *)
Fixpoint loadFiles (files : list string) (builtins : list (string * TemplateDefinition))
  : list (string * TemplateDefinition) * Outcome unit :=
  match files with
  | [] => (builtins, Ok tt)
  | file :: rest =>
      match readBuiltin host file with
      | None => (builtins, Throw (HostError "fs"))
      | Some data => loadFiles rest (JsMap.set builtins (id data) data)
      end
  end.

Definition loadBuiltinTemplates (st : Stores) : Stores * Outcome unit :=
  let '(builtins, r) := loadFiles builtinFiles (builtinTemplates st) in
  ({| builtinTemplates := builtins;
      templatesByAirtableId := templatesByAirtableId st;
      builtinIdToAirtableId := builtinIdToAirtableId st;
      templatesByTemplateId := templatesByTemplateId st;
      refreshTimer := refreshTimer st |}, r).

(** The template a record stands for: the built-in one its [builtin_id]
    names, else its [template_json] if that parses; [inl] tells that the
    built-in was taken. *)
Definition usable (builtins : list (string * TemplateDefinition))
    (rec : AirtableTemplateRecord) : option (TemplateDefinition + TemplateDefinition) :=
  match
    (if Js.truthy (builtin_id rec) then JsMap.get builtins (builtin_id rec) else None)
  with
  | Some template => Some (inl template)
  | None =>
      if Js.truthy (template_json rec)
      then option_map inr (parseTemplate host (template_json rec))
      else None
  end.

(** One iteration of the loop over the records; the state is the stores
    and the counter [synced]. *)
Definition syncStep (acc : Stores * nat) (rec : AirtableTemplateRecord) : Stores * nat :=
  let '(st, synced) := acc in
  if negb (template_active rec) then acc
  else
    match usable (builtinTemplates st) rec with
    | None => acc
    | Some found =>
        let template := match found with inl t => t | inr t => t end in
        let meta :=
          {| template := template;
             airtableRecordId := rec_id rec;
             rotationWeight := atLeastZero (rotation_weight rec);
             categoryKeys := category_keys rec |} in
        ({| builtinTemplates := builtinTemplates st;
            templatesByAirtableId := JsMap.set (templatesByAirtableId st) (rec_id rec) meta;
            builtinIdToAirtableId :=
              match found with
              | inl _ => JsMap.set (builtinIdToAirtableId st) (builtin_id rec) (rec_id rec)
              | inr _ => builtinIdToAirtableId st
              end;
            templatesByTemplateId := JsMap.set (templatesByTemplateId st) (id template) meta;
            refreshTimer := refreshTimer st |},
         S synced)
    end.

(** The three maps are cleared only once the records have arrived. *)
Definition syncFromAirtable (st : Stores) : Stores * nat :=
  match fetchAllTemplates host with
  | None => (ensureBuiltinsFallback st, 0%nat)
  | Some records =>
      fold_left syncStep records
        ({| builtinTemplates := builtinTemplates st;
            templatesByAirtableId := [];
            builtinIdToAirtableId := [];
            templatesByTemplateId := [];
            refreshTimer := refreshTimer st |}, 0%nat)
  end.

Definition refreshRegistry (st : Stores) : Stores * nat := syncFromAirtable st.

Definition initRegistry (st : Stores) : Stores * Outcome unit :=
  match loadBuiltinTemplates st with
  | (st, Throw e) => (st, Throw e)
  | (st, Ok _) =>
      let st := fst (syncFromAirtable st) in
      let st :=
        if (JsMap.size (templatesByTemplateId st) =? 0)%nat
        then ensureBuiltinsFallback st else st in
      ({| builtinTemplates := builtinTemplates st;
          templatesByAirtableId := templatesByAirtableId st;
          builtinIdToAirtableId := builtinIdToAirtableId st;
          templatesByTemplateId := templatesByTemplateId st;
          refreshTimer := true |}, Ok tt)
  end.

End WithHost.

(** [hash = ((hash << 5) - hash) + char; hash = hash & hash] *)
Definition hashStep (hash char : Z) : Z :=
  let hash := (Js.shl hash 5 - hash + char)%Z in
  Js.band hash hash.

Definition simpleHash (str : string) : Z :=
  Z.abs (fold_left hashStep (Js.charCodes str) 0%Z).

(** [getTemplate(options[hash % options.length])] *)
Definition pick (st : Stores) (options : list string) (hash : Z) : option TemplateDefinition :=
  let index := Z.rem hash (Z.of_nat (length options)) in
  match (if (index <? 0)%Z then None else options !! Z.to_nat index) with
  | Some id => getTemplate st id
  | None => None
  end.

Definition hashBasedSelect (st : Stores) (imageCount : nat) (recordId : string)
  : option TemplateDefinition :=
  let hash := simpleHash recordId in
  if (imageCount <=? 1)%nat then getTemplate st "main-1-image"
  else if (imageCount =? 2)%nat then pick st ["main-2-image"; "before-after"] hash
  else pick st ["main-1-image"; "main-2-image"; "before-after"] hash.

Definition is_before_after (postType : option PostType) : bool :=
  match postType with Some before_after => true | _ => false end.

Definition is_slideshow (postType : option PostType) : bool :=
  match postType with Some slideshow => true | _ => false end.

(** The verdict of [autoSelectTemplate] together with the rotation states
    it sent to [updateCompanyRotationState], by company.  A rejected
    update is caught and logged; it changes nothing of the verdict. *)
Definition autoSelectTemplate (localeCompare : string -> string -> Z) (host : Host)
    (st : Stores) (imageCount : nat) (recordId : string)
    (categoryKeys : option (list string)) (preferMp4 : option bool)
    (postType : option PostType) (companyId : option string)
  : list (string * RotationState) * option TemplateDefinition :=
  let preferMp4 := default false preferMp4 in
  if is_before_after postType
     || match categoryKeys with Some ks => includes ks "before_after" | None => false end
  then ([], getTemplate st "before-after")
  else if is_slideshow postType || (preferMp4 && (3 <=? imageCount)%nat)
  then ([], getTemplate st "slideshow-base")
  else
    let format := if preferMp4 && (3 <=? imageCount)%nat then mp4 else png in
    let viaHash := hashBasedSelect st imageCount recordId in
    match companyId with
    | Some companyId =>
        if Js.truthy companyId then
          let pool :=
            getRotationPool localeCompare (templatesByAirtableId st)
              format imageCount categoryKeys in
          if (0 <? length pool)%nat then
            let state := getCompanyRotationState host companyId in
            match selectFromPool pool state format with
            | Some result =>
                let updates := [(companyId, updatedState result)] in
                match selected result with
                | Some meta => (updates, Some (template meta))
                | None => (updates, viaHash)   (* a [TypeError], caught *)
                end
            | None => ([], viaHash)
            end
          else ([], viaHash)
        else ([], viaHash)
    | None => ([], viaHash)
    end.

End Registry.

(** ** engine/asset-loader.ts *)

Module AssetLoader.

Definition MAX_CACHE_SIZE : nat := 100.

Record Response := {
  ok : bool;
  status : string;
  contentType : option string;  (* [response.headers.get('content-type')] *)
  arrayBuffer : string
}.

(** The bindings the loader calls; [None] is a rejected promise.  The
    answer of the network may change from one request to the next, so
    [fetch] also receives the number of requests made so far. *)
Record Host := {
  fetch : nat -> string -> option Response;
  sharpPng : string -> option string;
  loadImage : string -> option Image
}.

Record State := {
  imageCache : list (string * Image);
  fetched : list string   (* the URLs requested so far, oldest first *)
}.

(** How a call of [loadRemoteImage] leaves its first, synchronous part:
    with the cached image, or with a request under way. *)
Inductive Started :=
| Hit (cached : Image)
| Requested (requests : nat).

(** [s.includes(sub)] *)
Fixpoint includes (s sub : string) : bool :=
  String.prefix sub s
  || match s with
     | EmptyString => false
     | String _ s' => includes s' sub
     end.

Definition byteAt (buf : string) (i : nat) : option nat :=
  option_map nat_of_ascii (String.get i buf).

Definition isWebP (buf : string) : bool :=
  (12 <? String.length buf)%nat
  && bool_decide (byteAt buf 0 = Some 82%nat) && bool_decide (byteAt buf 1 = Some 73%nat)
  && bool_decide (byteAt buf 2 = Some 70%nat) && bool_decide (byteAt buf 3 = Some 70%nat)
  && bool_decide (byteAt buf 8 = Some 87%nat) && bool_decide (byteAt buf 9 = Some 69%nat)
  && bool_decide (byteAt buf 10 = Some 66%nat) && bool_decide (byteAt buf 11 = Some 80%nat).

(** The tail of [loadRemoteImage], which runs without suspension:
    evict the first key when the cache is full, then store. *)
Definition store (cache : list (string * Image)) (url : string) (img : Image)
  : list (string * Image) :=
  let cache :=
    if (MAX_CACHE_SIZE <=? JsMap.size cache)%nat then
      match JsMap.firstKey cache with
      | Some firstKey =>
          if Js.truthy firstKey then JsMap.delete cache firstKey else cache
      | None => cache
      end
    else cache in
  JsMap.set cache url img.

Section WithHost.

Variable host : Host.

(** The part between the cache miss and the store: fetch, convert,
    decode. *)
Definition download (requests : nat) (url : string) : Outcome Image :=
  match fetch host requests url with
  | None => Throw (HostError "fetch")
  | Some response =>
      if negb (ok response)
      then Throw (JsError ("Failed to fetch image " +:+ url +:+ ": " +:+ status response))
      else
        let buffer := arrayBuffer response in
        let contentType := default EmptyString (contentType response) in
        let converted :=
          if includes contentType "webp" || Js.endsWith url ".webp" || isWebP buffer
          then sharpPng host buffer
          else Some buffer in
        match converted with
        | None => Throw (HostError "sharp")
        | Some buffer =>
            match loadImage host buffer with
            | None => Throw (HostError "loadImage")
            | Some img => Ok img
            end
        end
  end.

(** One call of [loadRemoteImage] run to completion. *)
Definition loadRemoteImage (url : string) (st : State) : State * Outcome Image :=
  match JsMap.get (imageCache st) url with
  | Some cached => (st, Ok cached)
  | None =>
      let requests := length (fetched st) in
      let st := {| imageCache := imageCache st; fetched := fetched st ++ [url] |} in
      match download requests url with
      | Throw e => (st, Throw e)
      | Ok img =>
          ({| imageCache := store (imageCache st) url img; fetched := fetched st |},
           Ok img)
      end
  end.


(** [urls.map(async (url) => ...)]: every call runs up to its first
    [await] before the next one starts.  So all of them look into the
    cache as it was, and the requests go out in the order of [urls]. *)
Fixpoint startAll (cache : list (string * Image)) (requests : nat) (urls : list string)
  : list (string * Started) :=
  match urls with
  | [] => []
  | url :: rest =>
      match JsMap.get cache url with
      | Some cached => (url, Hit cached) :: startAll cache requests rest
      | None => (url, Requested requests) :: startAll cache (S requests) rest
      end
  end.

(** What a call settles as: fulfilled with an image or rejected. *)
Definition settled (call : string * Started) : Outcome Image :=
  match call.2 with
  | Hit cached => Ok cached
  | Requested requests => download requests call.1
  end.

(** The store of the call at position [i], which runs when its download
    has completed. *)
Definition storeAt (calls : list (string * Started)) (cache : list (string * Image))
    (i : nat) : list (string * Image) :=
  match calls !! i with
  | Some (url, Requested requests) =>
      match download requests url with
      | Ok img => store cache url img
      | Throw _ => cache
      end
  | _ => cache
  end.

(** The loop over the settled promises. *)
Definition collect (results : list (string * Image)) (call : string * Started)
  : list (string * Image) :=
  match settled call with
  | Ok img => JsMap.set results call.1 img
  | Throw _ => results
  end.

(** [loadAllImages]; the downloads complete in the order [order] of
    their positions in [urls], which the event loop decides. *)
Definition loadAllImages (urls : list string) (order : list nat) (st : State)
  : State * list (string * Image) :=
  let calls := startAll (imageCache st) (length (fetched st)) urls in
  let requested :=
    flat_map (fun call =>
                match call.2 with Requested _ => [call.1] | Hit _ => [] end) calls in
  ({| imageCache := fold_left (storeAt calls) order (imageCache st);
      fetched := fetched st ++ requested |},
   fold_left collect calls []).

End WithHost.

Definition emptyState : State := {| imageCache := []; fetched := [] |}.

End AssetLoader.

(** ** engine/layout-engine.ts *)

Module LayoutEngine.

(** [\w] *)
Definition isWordChar (c : ascii) : bool :=
  let n := nat_of_ascii c in
  ((48 <=? n) && (n <=? 57) || (65 <=? n) && (n <=? 90)
   || (97 <=? n) && (n <=? 122) || (n =? 95))%nat.

(** The longest prefix of word characters, and what follows it. *)
Fixpoint takeWord (s : string) : string * string :=
  match s with
  | EmptyString => (EmptyString, EmptyString)
  | String c s' =>
      if isWordChar c
      then let '(w, rest) := takeWord s' in (String c w, rest)
      else (EmptyString, s)
  end.

(** A match of [\{\{(\w+)\}\}] at the head of [s]: the captured key and
    the text after the match. *)
Definition matchPlaceholder (s : string) : option (string * string) :=
  match s with
  | String "{" (String "{" s1) =>
      match takeWord s1 with
      | (String k key, String "}" (String "}" rest)) => Some (String k key, rest)
      | _ => None
      end
  | _ => None
  end.

(** [text.replace(/\{\{(\w+)\}\}/g, (_, key) => f key)]: one pass from
    left to right; replaced text is not scanned again. *)
Fixpoint replacePlaceholders (fuel : nat) (f : string -> string) (s : string) : string :=
  match fuel with
  | O => s
  | S fuel' =>
      match matchPlaceholder s with
      | Some (key, rest) => f key +:+ replacePlaceholders fuel' f rest
      | None =>
          match s with
          | EmptyString => EmptyString
          | String c s' => String c (replacePlaceholders fuel' f s')
          end
      end
  end.

(** The replacement of one key: a string field as it is, the array
    field joined with [', '], anything else empty. *)
Definition variableText (variables : RenderVariables) (key : string) : string :=
  if String.eqb key "title" then title variables
  else if String.eqb key "subtitle" then subtitle variables
  else if String.eqb key "body" then body variables
  else if String.eqb key "phone" then phone variables
  else if String.eqb key "service_areas" then service_areas variables
  else if String.eqb key "primary_colour" then primary_colour variables
  else if String.eqb key "secondary_colour" then secondary_colour variables
  else if String.eqb key "logo_url" then logo_url variables
  else if String.eqb key "user_images" then String.concat ", " (user_images variables)
  else if String.eqb key "company_name" then company_name variables
  else if String.eqb key "website" then default EmptyString (website variables)
  else if String.eqb key "square_cta_image_url"
       then default EmptyString (square_cta_image_url variables)
  else if String.eqb key "landscape_cta_image_url"
       then default EmptyString (landscape_cta_image_url variables)
  else EmptyString.

Definition resolveVariables (text : string) (variables : RenderVariables) : string :=
  replacePlaceholders (S (String.length text)) (variableText variables) text.

Definition buildColorVariables (variables : RenderVariables) : gmap string string :=
  list_to_map
    [ ("primary_colour", Js.or_else (primary_colour variables) "#235BAA");
      ("secondary_colour", Js.or_else (secondary_colour variables) "#FFFFFF");
      ("primary_color", Js.or_else (primary_colour variables) "#235BAA");
      ("secondary_color", Js.or_else (secondary_colour variables) "#FFFFFF") ].

End LayoutEngine.

(** ** The 2D context of node-canvas *)

Module Canvas.

(** What is assigned to [fillStyle]: a value taken for a colour, or a
    gradient. *)
Inductive Style :=
| Solid (color : Js.Value)
| LinearGradient (x1 y1 x2 y2 : Q) (stops : list (Q * Js.Value)).

Inductive PathCmd :=
| MoveTo (x y : Q)
| LineTo (x y : Q)
| ArcTo (x1 y1 x2 y2 r : Q)
| ClosePath.

(** The drawing state that [save] pushes and [restore] pops. *)
Record DrawState := {
  globalAlpha : Q;
  fillStyle : Style;
  strokeStyle : Js.Value;
  lineWidth : Q;
  font : string;
  textBaseline : string;
  shadowBlur : Q;
  shadowOffsetX : Q;
  shadowOffsetY : Q;
  shadowColor : string;
  clipRegion : list (list PathCmd)
}.

Inductive PaintOp :=
| FillRect (x y w h : Q)
| StrokeRect (x y w h : Q)
| Fill
| Stroke
| DrawImageCrop (img : Image) (sx sy sw sh dx dy dw dh : Q)
| DrawImageAt (img : Image) (dx dy dw dh : Q)
| FillText (text : string) (x y : Q).

(** What reaches the bitmap: the operation, the drawing state it was
    issued under and the current path. *)
Record Painted := {
  op : PaintOp;
  under : DrawState;
  along : list PathCmd
}.

Record Context := {
  cur : DrawState;
  saved : list DrawState;
  path : list PathCmd;
  painted : list Painted
}.

(** The calls into the binding that may raise. *)
Inductive Call :=
| BeginPath
| Path (c : PathCmd)
| Clip
| Paint (p : PaintOp)
| AddColorStop (offset : Q) (color : Js.Value).

(** The host: which calls raise in which context, text metrics per font,
    and the built-ins of the language that the renderer relies on. *)
Record Host := {
  throws : Context -> Call -> bool;
  measureText : string -> string -> Q;
  toUpperCase : string -> string;
  toLowerCase : string -> string;
  numberToString : Q -> string;
  Math_cos : Q -> Q;
  Math_sin : Q -> Q;
  Math_PI : Q
}.

(** Computations on a context that may throw; the context survives. *)
Definition M (A : Type) : Type := Context -> Context * Outcome A.

Definition ret {A} (a : A) : M A := fun c => (c, Ok a).

Definition bind {A B} (m : M A) (k : A -> M B) : M B :=
  fun c =>
    match m c with
    | (c', Ok a) => k a c'
    | (c', Throw e) => (c', Throw e)
    end.

Definition get : M Context := fun c => (c, Ok c).

Definition modify (f : DrawState -> DrawState) : M unit :=
  fun c =>
    ({| cur := f (cur c); saved := saved c; path := path c; painted := painted c |},
     Ok tt).

Declare Scope canvas_scope.
Delimit Scope canvas_scope with canvas.

Module Notations.
Notation "x <- m ;; k" := (bind m (fun x => k))
  (at level 100, m at next level, right associativity) : canvas_scope.
Notation "m ;; k" := (bind m (fun _ => k))
  (at level 100, right associativity) : canvas_scope.
End Notations.
Import Notations.

Local Open Scope canvas_scope.

(** [for (const a of l) body(a)] *)
Fixpoint forEach {A} (l : list A) (body : A -> M unit) : M unit :=
  match l with
  | [] => ret tt
  | a :: l' => body a ;; forEach l' body
  end.

Definition when (b : bool) (m : M unit) : M unit := if b then m else ret tt.

Definition save : M unit :=
  fun c =>
    ({| cur := cur c; saved := cur c :: saved c; path := path c; painted := painted c |},
     Ok tt).

(** [restore] on an empty stack does nothing. *)
Definition restore : M unit :=
  fun c =>
    match saved c with
    | [] => (c, Ok tt)
    | s :: rest =>
        ({| cur := s; saved := rest; path := path c; painted := painted c |}, Ok tt)
    end.

Definition with_globalAlpha (a : Q) (s : DrawState) : DrawState :=
  {| globalAlpha := a; fillStyle := fillStyle s; strokeStyle := strokeStyle s;
     lineWidth := lineWidth s; font := font s; textBaseline := textBaseline s;
     shadowBlur := shadowBlur s; shadowOffsetX := shadowOffsetX s;
     shadowOffsetY := shadowOffsetY s; shadowColor := shadowColor s;
     clipRegion := clipRegion s |}.

(** The setter of [globalAlpha] ignores values outside [0, 1]. *)
Definition set_globalAlpha (a : Q) : M unit :=
  modify (fun s => if Num.le 0 a && Num.le a 1 then with_globalAlpha a s else s).

Definition set_fillStyle (v : Style) : M unit :=
  modify (fun s =>
    {| globalAlpha := globalAlpha s; fillStyle := v; strokeStyle := strokeStyle s;
       lineWidth := lineWidth s; font := font s; textBaseline := textBaseline s;
       shadowBlur := shadowBlur s; shadowOffsetX := shadowOffsetX s;
       shadowOffsetY := shadowOffsetY s; shadowColor := shadowColor s;
       clipRegion := clipRegion s |}).

Definition set_strokeStyle (v : Js.Value) : M unit :=
  modify (fun s =>
    {| globalAlpha := globalAlpha s; fillStyle := fillStyle s; strokeStyle := v;
       lineWidth := lineWidth s; font := font s; textBaseline := textBaseline s;
       shadowBlur := shadowBlur s; shadowOffsetX := shadowOffsetX s;
       shadowOffsetY := shadowOffsetY s; shadowColor := shadowColor s;
       clipRegion := clipRegion s |}).

Definition set_lineWidth (v : Q) : M unit :=
  modify (fun s =>
    {| globalAlpha := globalAlpha s; fillStyle := fillStyle s; strokeStyle := strokeStyle s;
       lineWidth := v; font := font s; textBaseline := textBaseline s;
       shadowBlur := shadowBlur s; shadowOffsetX := shadowOffsetX s;
       shadowOffsetY := shadowOffsetY s; shadowColor := shadowColor s;
       clipRegion := clipRegion s |}).

Definition set_font (v : string) : M unit :=
  modify (fun s =>
    {| globalAlpha := globalAlpha s; fillStyle := fillStyle s; strokeStyle := strokeStyle s;
       lineWidth := lineWidth s; font := v; textBaseline := textBaseline s;
       shadowBlur := shadowBlur s; shadowOffsetX := shadowOffsetX s;
       shadowOffsetY := shadowOffsetY s; shadowColor := shadowColor s;
       clipRegion := clipRegion s |}).

Definition set_textBaseline (v : string) : M unit :=
  modify (fun s =>
    {| globalAlpha := globalAlpha s; fillStyle := fillStyle s; strokeStyle := strokeStyle s;
       lineWidth := lineWidth s; font := font s; textBaseline := v;
       shadowBlur := shadowBlur s; shadowOffsetX := shadowOffsetX s;
       shadowOffsetY := shadowOffsetY s; shadowColor := shadowColor s;
       clipRegion := clipRegion s |}).

Definition set_shadow (sh : Shadow) : M unit :=
  modify (fun s =>
    {| globalAlpha := globalAlpha s; fillStyle := fillStyle s; strokeStyle := strokeStyle s;
       lineWidth := lineWidth s; font := font s; textBaseline := textBaseline s;
       shadowBlur := blur sh; shadowOffsetX := offsetX sh;
       shadowOffsetY := offsetY sh; shadowColor := shadow_color sh;
       clipRegion := clipRegion s |}).

Definition add_clip (p : list PathCmd) (s : DrawState) : DrawState :=
  {| globalAlpha := globalAlpha s; fillStyle := fillStyle s; strokeStyle := strokeStyle s;
     lineWidth := lineWidth s; font := font s; textBaseline := textBaseline s;
     shadowBlur := shadowBlur s; shadowOffsetX := shadowOffsetX s;
     shadowOffsetY := shadowOffsetY s; shadowColor := shadowColor s;
     clipRegion := p :: clipRegion s |}.

(** The effect of a call that does not raise. *)
Definition perform (call : Call) (c : Context) : Context :=
  match call with
  | BeginPath =>
      {| cur := cur c; saved := saved c; path := []; painted := painted c |}
  | Path p =>
      {| cur := cur c; saved := saved c; path := path c ++ [p]; painted := painted c |}
  | Clip =>
      {| cur := add_clip (path c) (cur c); saved := saved c; path := path c;
         painted := painted c |}
  | Paint p =>
      {| cur := cur c; saved := saved c; path := path c;
         painted := painted c ++ [{| op := p; under := cur c; along := path c |}] |}
  | AddColorStop _ _ => c
  end.

Section WithHost.

Variable host : Host.

Definition invoke (call : Call) : M unit :=
  fun c =>
    if throws host c call then (c, Throw (HostError "canvas"))
    else (perform call c, Ok tt).

Definition beginPath : M unit := invoke BeginPath.
Definition moveTo (x y : Q) : M unit := invoke (Path (MoveTo x y)).
Definition lineTo (x y : Q) : M unit := invoke (Path (LineTo x y)).
Definition arcTo (x1 y1 x2 y2 r : Q) : M unit := invoke (Path (ArcTo x1 y1 x2 y2 r)).
Definition closePath : M unit := invoke (Path ClosePath).
Definition clip : M unit := invoke Clip.
Definition fill : M unit := invoke (Paint Fill).
Definition stroke : M unit := invoke (Paint Stroke).
Definition fillRect (x y w h : Q) : M unit := invoke (Paint (FillRect x y w h)).
Definition strokeRect (x y w h : Q) : M unit := invoke (Paint (StrokeRect x y w h)).
Definition fillText (text : string) (x y : Q) : M unit :=
  invoke (Paint (FillText text x y)).

End WithHost.

(** [createCanvas(w, h).getContext('2d')] *)
Definition createContext : Context :=
  {| cur := {| globalAlpha := 1; fillStyle := Solid (Js.Str "#000000");
               strokeStyle := Js.Str "#000000";
               lineWidth := 1; font := "10px sans-serif"; textBaseline := "alphabetic";
               shadowBlur := 0; shadowOffsetX := 0; shadowOffsetY := 0;
               shadowColor := "rgba(0, 0, 0, 0)"; clipRegion := [] |};
     saved := []; path := []; painted := [] |}.

End Canvas.

(** ** utils/image.ts *)

Module ImageUtil.

Module ctx := Canvas.
Import Canvas (M, ret, bind, when).
Import Canvas.Notations.
Local Open Scope canvas_scope.
Local Open Scope Q_scope.

Section WithHost.

Variable host : Canvas.Host.

Definition roundedRectPath (x y w h r : Q) : M unit :=
  ctx.beginPath host ;;
  ctx.moveTo host (x + r) y ;;
  ctx.lineTo host (x + w - r) y ;;
  ctx.arcTo host (x + w) y (x + w) (y + r) r ;;
  ctx.lineTo host (x + w) (y + h - r) ;;
  ctx.arcTo host (x + w) (y + h) (x + w - r) (y + h) r ;;
  ctx.lineTo host (x + r) (y + h) ;;
  ctx.arcTo host x (y + h) x (y + h - r) r ;;
  ctx.lineTo host x (y + r) ;;
  ctx.arcTo host x y (x + r) y r ;;
  ctx.closePath host.

(** The source rectangle [(sx, sy, sw, sh)] of the cover fit. *)
Definition coverSource (img : Image) (width height : Q) : Q * Q * Q * Q :=
  let imgRatio := img_width img / img_height img in
  let boxRatio := width / height in
  if Num.gt imgRatio boxRatio then
    let sw := img_height img * boxRatio in
    ((img_width img - sw) / 2, 0, sw, img_height img)
  else
    let sh := img_width img / boxRatio in
    (0, (img_height img - sh) / 2, img_width img, sh).

(** The destination rectangle [(dx, dy, dw, dh)] of the contain fit. *)
Definition containDest (img : Image) (x y width height : Q) : Q * Q * Q * Q :=
  let imgRatio := img_width img / img_height img in
  let boxRatio := width / height in
  if Num.gt imgRatio boxRatio then
    let dw := width in
    let dh := width / imgRatio in
    (x, y + (height - dh) / 2, dw, dh)
  else
    let dh := height in
    let dw := height * imgRatio in
    (x + (width - dw) / 2, y, dw, dh).

(** [borderRadius: number = 0]: an absent argument is [0]. *)
Definition drawImageCover (img : Image) (x y width height : Q)
    (borderRadius : option Q) : M unit :=
  let borderRadius := default 0 borderRadius in
  ctx.save ;;
  when (Num.gt borderRadius 0)
    (roundedRectPath x y width height borderRadius ;; ctx.clip host) ;;
  let '(sx, sy, sw, sh) := coverSource img width height in
  ctx.invoke host (ctx.Paint (ctx.DrawImageCrop img sx sy sw sh x y width height)) ;;
  ctx.restore.

Definition drawImageContain (img : Image) (x y width height : Q)
    (borderRadius : option Q) : M unit :=
  let borderRadius := default 0 borderRadius in
  ctx.save ;;
  when (Num.gt borderRadius 0)
    (roundedRectPath x y width height borderRadius ;; ctx.clip host) ;;
  let '(dx, dy, dw, dh) := containDest img x y width height in
  ctx.invoke host (ctx.Paint (ctx.DrawImageAt img dx dy dw dh)) ;;
  ctx.restore.

End WithHost.

End ImageUtil.

(** ** engine/font-manager.ts *)

Module FontManager.

(** [WEIGHT_MAP[fontWeight] || fontWeight] *)
Definition weightName (w : FontWeight) : string :=
  match w with
  | regular => "normal"
  | medium => "500"
  | semibold => "600"
  | bold => "bold"
  end.

Definition dquote : string := String (ascii_of_nat 34) EmptyString.

Definition getFontString (numberToString : Q -> string)
    (fontSize : Q) (fontWeight : FontWeight) (fontFamily : string) : string :=
  weightName fontWeight +:+ " " +:+ numberToString fontSize +:+ "px "
    +:+ dquote +:+ fontFamily +:+ dquote.

End FontManager.

(** ** engine/png-renderer.ts *)

Module PngRenderer.

Module ctx := Canvas.
Import Canvas (M, ret, bind, when, forEach).
Import Canvas.Notations.
Import ImageUtil (drawImageCover, drawImageContain).
Local Open Scope canvas_scope.
Local Open Scope Q_scope.

Record PngRenderContext := {
  ctx_template : TemplateDefinition;
  ctx_variables : RenderVariables;
  userImages : list Image;
  logoImage : option Image;
  frameIndex : option nat
}.

(** The encoded bitmap, known by its size and what was painted. *)
Record Png := {
  png_width : nat;
  png_height : nat;
  png_painted : list Canvas.Painted
}.

Definition is_cover (f : Fit) : bool :=
  match f with cover => true | _ => false end.

(** [v && v > 0] for an optional number. *)
Definition positive (v : option Q) : bool :=
  match v with
  | Some r => Num.truthy r && Num.gt r 0
  | None => false
  end.

Section WithHost.

Variable host : Canvas.Host.

Definition roundedRect (x y w h r : Q) : M unit :=
  ctx.beginPath host ;;
  ctx.moveTo host (x + r) y ;;
  ctx.lineTo host (x + w - r) y ;;
  ctx.arcTo host (x + w) y (x + w) (y + r) r ;;
  ctx.lineTo host (x + w) (y + h - r) ;;
  ctx.arcTo host (x + w) (y + h) (x + w - r) (y + h) r ;;
  ctx.lineTo host (x + r) (y + h) ;;
  ctx.arcTo host x (y + h) x (y + h - r) r ;;
  ctx.lineTo host x (y + r) ;;
  ctx.arcTo host x y (x + r) y r ;;
  ctx.closePath host.

Definition drawRect (b : BaseLayer) (layer : RectLayer)
    (colorVars : gmap string string) : M unit :=
  ctx.set_fillStyle (ctx.Solid (Color.resolveColor (rect_fill layer) colorVars)) ;;
  (if positive (borderRadius b) then
     roundedRect (x b) (y b) (width b) (height b) (default 0 (borderRadius b)) ;;
     ctx.fill host
   else
     ctx.fillRect host (x b) (y b) (width b) (height b)) ;;
  match stroke layer with
  | Some st =>
      ctx.set_strokeStyle (Color.resolveColor (stroke_color st) colorVars) ;;
      ctx.set_lineWidth (stroke_width st) ;;
      if positive (borderRadius b) then
        roundedRect (x b) (y b) (width b) (height b) (default 0 (borderRadius b)) ;;
        ctx.stroke host
      else
        ctx.strokeRect host (x b) (y b) (width b) (height b)
  | None => ret tt
  end.

(** A missing image is reported on the console and the function
    returns; console output is not part of the model. *)
Definition drawImage (b : BaseLayer) (layer : ImageLayer)
    (userImages : list Image) : M unit :=
  match userImages !! image_index layer with
  | None => ret tt
  | Some img =>
      match shadow layer with
      | Some sh => ctx.save ;; ctx.set_shadow sh
      | None => ret tt
      end ;;
      (if is_cover (image_fit layer)
       then drawImageCover host img (x b) (y b) (width b) (height b) (borderRadius b)
       else drawImageContain host img (x b) (y b) (width b) (height b) (borderRadius b)) ;;
      match shadow layer with
      | Some _ => ctx.restore
      | None => ret tt
      end
  end.

(** The characters of a string with the pen position of each:
    [currentX += ctx.measureText(char).width + spacing]. *)
Fixpoint spacedGlyphs (fontStr : string) (text : string) (currentX spacing : Q)
  : list (string * Q) :=
  match text with
  | EmptyString => []
  | String ch rest =>
      let char := String ch EmptyString in
      (char, currentX)
        :: spacedGlyphs fontStr rest
             (currentX + (Canvas.measureText host fontStr char + spacing)) spacing
  end.

Definition drawTextWithSpacing (text : string) (x y spacing : Q) : M unit :=
  c <- ctx.get ;;
  forEach (spacedGlyphs (ctx.font (ctx.cur c)) text x spacing)
    (fun '(char, currentX) => ctx.fillText host char currentX y).

Definition drawText (b : BaseLayer) (layer : TextLayer)
    (variables : RenderVariables) (colorVars : gmap string string) : M unit :=
  let text := LayoutEngine.resolveVariables (content layer) variables in
  let text :=
    Text.applyTextTransform (Canvas.toUpperCase host) (Canvas.toLowerCase host)
      text (textTransform layer) in
  if negb (Js.truthy text) then ret tt
  else
    let fontStr :=
      FontManager.getFontString (Canvas.numberToString host)
        (fontSize layer) (fontWeight layer) (fontFamily layer) in
    ctx.set_font fontStr ;;
    ctx.set_fillStyle (ctx.Solid (Color.resolveColor (text_color layer) colorVars)) ;;
    ctx.set_textBaseline "top" ;;
    let padding := Num.or_else (text_padding layer) 0 in
    let maxWidth := width b - padding * 2 in
    let lineHeight := Num.or_else (lineHeight layer) (13 # 10) in
    let lineSpacing := fontSize layer * lineHeight in
    c <- ctx.get ;;
    let lines :=
      Text.wrapText (Canvas.measureText host (ctx.font (ctx.cur c)))
        text maxWidth (maxLines layer) in
    let totalTextHeight := Num.of_nat (length lines) * lineSpacing in
    let startY :=
      match verticalAlign layer with
      | Some alignMiddle => y b + (height b - totalTextHeight) / 2
      | Some alignBottom => y b + height b - totalTextHeight - padding
      | _ => y b + padding
      end in
    forEach (zip (seq 0 (length lines)) lines)
      (fun '(i, line) =>
         let x :=
           match align layer with
           | alignCenter => x b + (width b - Text.width line) / 2
           | alignRight => x b + width b - Text.width line - padding
           | alignLeft => x b + padding
           end in
         match letterSpacing layer with
         | Some spacing =>
             if Num.truthy spacing
             then drawTextWithSpacing (Text.text line) x
                    (startY + Num.of_nat i * lineSpacing) spacing
             else ctx.fillText host (Text.text line) x (startY + Num.of_nat i * lineSpacing)
         | None =>
             ctx.fillText host (Text.text line) x (startY + Num.of_nat i * lineSpacing)
         end).

Definition drawLogo (b : BaseLayer) (layer : LogoLayer)
    (logoImage : option Image) : M unit :=
  match logoImage with
  | None => ret tt
  | Some logoImage =>
      let padding := Num.or_else (logo_padding layer) 0 in
      match logo_background layer with
      | Some bg =>
          when (Js.truthy bg)
            (ctx.set_fillStyle (ctx.Solid (Js.Str bg)) ;;
             ctx.fillRect host (x b) (y b) (width b) (height b))
      | None => ret tt
      end ;;
      let innerX := x b + padding in
      let innerY := y b + padding in
      let innerW := width b - padding * 2 in
      let innerH := height b - padding * 2 in
      if is_cover (logo_fit layer)
      then drawImageCover host logoImage innerX innerY innerW innerH (borderRadius b)
      else drawImageContain host logoImage innerX innerY innerW innerH (borderRadius b)
  end.

Definition drawAccentBar (b : BaseLayer) (layer : AccentBarLayer)
    (colorVars : gmap string string) : M unit :=
  ctx.set_fillStyle (ctx.Solid (Color.resolveColor (bar_color layer) colorVars)) ;;
  ctx.fillRect host (x b) (y b) (width b) (height b).

(** The [switch (layer.type)] of [drawLayer]; it has no case for
    ['cta_image']. *)
Definition drawVariant (layer : LayerDefinition) (variables : RenderVariables)
    (colorVars : gmap string string) (userImages : list Image)
    (logoImage : option Image) : M unit :=
  match kind layer with
  | KRect l => drawRect (base layer) l colorVars
  | KImage l => drawImage (base layer) l userImages
  | KText l => drawText (base layer) l variables colorVars
  | KLogo l => drawLogo (base layer) l logoImage
  | KAccentBar l => drawAccentBar (base layer) l colorVars
  | KCtaImage _ => ret tt
  end.

(** [layer.opacity !== undefined && layer.opacity < 1] *)
Definition translucent (layer : LayerDefinition) : option Q :=
  match opacity (base layer) with
  | Some o => if Num.gt 1 o then Some o else None
  | None => None
  end.

Definition drawLayer (layer : LayerDefinition) (variables : RenderVariables)
    (colorVars : gmap string string) (userImages : list Image)
    (logoImage : option Image) : M unit :=
  match translucent layer with
  | Some o => ctx.save ;; ctx.set_globalAlpha o
  | None => ret tt
  end ;;
  drawVariant layer variables colorVars userImages logoImage ;;
  match translucent layer with
  | Some _ => ctx.restore
  | None => ret tt
  end.

(** The colour stops of the gradient, [addColorStop] being called for
    each colour in turn. *)
Fixpoint addColorStops (colors : list (nat * string)) (n : nat)
    (colorVars : gmap string string) : M (list (Q * Js.Value)) :=
  match colors with
  | [] => ret []
  | (i, color) :: rest =>
      let offset := Num.of_nat i / (Num.of_nat n - 1) in
      let resolved := Color.resolveColor color colorVars in
      ctx.invoke host (ctx.AddColorStop offset resolved) ;;
      stops <- addColorStops rest n colorVars ;;
      ret ((offset, resolved) :: stops)
  end.

Definition drawBackground (frame : FrameDefinition) (w h : Q)
    (colorVars : gmap string string) (userImages : list Image) : M unit :=
  match background frame with
  | BgSolid color =>
      ctx.set_fillStyle (ctx.Solid (Color.resolveColor color colorVars)) ;;
      ctx.fillRect host 0 0 w h
  | BgGradient colors angle =>
      let rad := (angle * Canvas.Math_PI host) / 180 in
      let x1 := w / 2 - (Canvas.Math_cos host rad * w) / 2 in
      let y1 := h / 2 - (Canvas.Math_sin host rad * h) / 2 in
      let x2 := w / 2 + (Canvas.Math_cos host rad * w) / 2 in
      let y2 := h / 2 + (Canvas.Math_sin host rad * h) / 2 in
      stops <- addColorStops (zip (seq 0 (length colors)) colors) (length colors)
                 colorVars ;;
      ctx.set_fillStyle (ctx.LinearGradient x1 y1 x2 y2 stops) ;;
      ctx.fillRect host 0 0 w h
  | BgImage index =>
      match userImages !! index with
      | Some img => drawImageCover host img 0 0 w h None
      | None => ret tt
      end
  end.

(** [layer.visible === false] *)
Definition hidden (layer : LayerDefinition) : bool :=
  match visible (base layer) with
  | Some false => true
  | _ => false
  end.

(** Everything [renderPng] does to the context of a frame. *)
Definition paintFrame (t : TemplateDefinition) (frame : FrameDefinition)
    (variables : RenderVariables) (userImages : list Image)
    (logoImage : option Image) : M unit :=
  let colorVars := LayoutEngine.buildColorVariables variables in
  drawBackground frame (Num.of_nat (template_width t)) (Num.of_nat (template_height t))
    colorVars userImages ;;
  forEach (layers frame)
    (fun layer =>
       if hidden layer then ret tt
       else drawLayer layer variables colorVars userImages logoImage).

Definition renderPng (rc : PngRenderContext) : Outcome Png :=
  let t := ctx_template rc in
  let frameIndex := default 0%nat (frameIndex rc) in
  match frames t !! frameIndex with
  | None =>
      Throw (JsError ("Frame " +:+ pretty frameIndex +:+ " not found in template "
                      +:+ FontManager.dquote +:+ id t +:+ FontManager.dquote))
  | Some frame =>
      match paintFrame t frame (ctx_variables rc) (userImages rc) (logoImage rc)
              Canvas.createContext with
      | (c, Ok _) =>
          Ok {| png_width := template_width t; png_height := template_height t;
                png_painted := ctx.painted c |}
      | (_, Throw e) => Throw e
      end
  end.

End WithHost.

End PngRenderer.

(** ** engine/mp4-renderer.ts *)

Module Mp4Renderer.

Local Open Scope Q_scope.

Record Mp4RenderContext := {
  ctx_template : TemplateDefinition;
  ctx_variables : RenderVariables;
  userImages : list Image;
  logoImage : option Image
}.

(** One [xfade] filter of the graph, before it is printed. *)
Record XfadeStage := {
  inputA : string;
  inputB : string;
  stage_transition : string;
  stage_duration : Q;
  stage_offset : Q;
  formatSuffix : string;
  outputLabel : string
}.

Record FfmpegInput := {
  input_path : string;
  inputOptions : list string
}.

Record FfmpegCommand := {
  inputs : list FfmpegInput;
  complexFilter : string;
  outputOptions : list string;
  output : string
}.

(** What [renderMp4] does to the outside world, in order. *)
Inductive Event :=
| Mkdtemp (pathPrefix : string)
| RenderFrame (frameIndex : nat)
| WriteFile (file : string)
| RunEncoder (cmd : FfmpegCommand)
| ReadFile (file : string)
| RmSync (dir : string).

(** File system and encoder.  [None] from [mkdtempSync] or [readFileSync]
    and [false] from [writeFileSync] stand for a thrown exception;
    [run] answers with the message of the ['error'] event, if any. *)
Record Host := {
  tmpdir : string;
  mkdtempSync : string -> option string;
  writeFileSync : string -> PngRenderer.Png -> bool;
  run : FfmpegCommand -> option string;
  readFileSync : string -> option string
}.

(** [path.join(a, b)] for two plain segments. *)
Definition path_join (a b : string) : string := a +:+ "/" +:+ b.

(** [String(i).padStart(3, '0')] *)
Definition padStart3 (s : string) : string :=
  match String.length s with
  | 0%nat => "000" +:+ s
  | 1%nat => "00" +:+ s
  | 2%nat => "0" +:+ s
  | _ => s
  end.

Definition transitionName (t : TransitionType) : string :=
  match t with
  | fade => "fade"
  | slide_left => "slide_left"
  | slide_right => "slide_right"
  | zoom => "zoom"
  | crossfade => "crossfade"
  end.

(** [map[type] || 'fade'], for a [type] that is one of the five names of
    a transition or ['fade']; none of them names a member of
    [Object.prototype], so the read finds an own property or nothing. *)
Definition mapTransitionType (type : string) : string :=
  let map : list (string * string) :=
    [ ("fade", "fade"); ("crossfade", "fade"); ("slide_left", "slideleft");
      ("slide_right", "slideright"); ("zoom", "smoothup") ] in
  match JsMap.get map type with
  | Some v => Js.or_else v "fade"
  | None => "fade"
  end.

(** [frameDurations[i]] *)
Definition at_index (frameDurations : list Q) (i : nat) : Q :=
  default 0 (frameDurations !! i).

(** One iteration of the chaining loop; the state is
    [(cumulativeOffset, filterParts)]. *)
Definition chainStep (n : nat) (frameDurations : list Q) (transitionType : string)
    (transitionDuration : Q) (st : Q * list XfadeStage) (i : nat)
  : Q * list XfadeStage :=
  let '(cumulativeOffset, filterParts) := st in
  let inputA := if (i =? 0)%nat then "[0:v]" else "[v" +:+ pretty i +:+ "]" in
  let inputB := "[" +:+ pretty (i + 1)%nat +:+ ":v]" in
  let outputLabel :=
    if (i =? n - 2)%nat then "[v]" else "[v" +:+ pretty (i + 1)%nat +:+ "]" in
  let cumulativeOffset :=
    if (i =? 0)%nat then Num.sub (at_index frameDurations 0) transitionDuration
    else Num.add cumulativeOffset (Num.sub (at_index frameDurations i) transitionDuration) in
  let formatSuffix := if (i =? n - 2)%nat then ",format=yuv420p" else EmptyString in
  (cumulativeOffset,
   filterParts ++ [ {| inputA := inputA; inputB := inputB;
                       stage_transition := transitionType;
                       stage_duration := transitionDuration;
                       stage_offset := cumulativeOffset;
                       formatSuffix := formatSuffix;
                       outputLabel := outputLabel |} ]).

(** The filter chain of [buildMp4WithXfade] for [n] inputs. *)
Definition xfadeStages (n : nat) (frameDurations : list Q) (transitionType : string)
    (transitionDuration : Q) : list XfadeStage :=
  if (n =? 2)%nat then
    let offset := Num.sub (at_index frameDurations 0) transitionDuration in
    [ {| inputA := "[0:v]"; inputB := "[1:v]";
         stage_transition := transitionType;
         stage_duration := transitionDuration;
         stage_offset := offset;
         formatSuffix := ",format=yuv420p";
         outputLabel := "[v]" |} ]
  else
    snd (fold_left (chainStep n frameDurations transitionType transitionDuration)
           (seq 0 (n - 1)) (0, [])).

(** The text of one entry of [filterParts]. *)
Definition stageText (numberToString : Q -> string) (s : XfadeStage) : string :=
  inputA s +:+ inputB s +:+ "xfade=transition=" +:+ stage_transition s
    +:+ ":duration=" +:+ numberToString (stage_duration s)
    +:+ ":offset=" +:+ numberToString (stage_offset s)
    +:+ formatSuffix s +:+ outputLabel s.

(** [frameDurationSec] of [renderMp4] *)
Definition frameDurationSec (t : TemplateDefinition) : list Q :=
  map (fun f => Num.div (Num.or_else (durationMs f) 3000) 1000) (frames t).

(** [transitionDurationSec] of [renderMp4] *)
Definition transitionDurationSec (t : TemplateDefinition) : Q :=
  Num.div (Num.or_else (option_map transition_durationMs (transition t)) 800) 1000.

(** [template.transition?.type || 'fade'] *)
Definition transitionType (t : TemplateDefinition) : string :=
  match transition t with
  | Some tr => Js.or_else (transitionName (transition_type tr)) "fade"
  | None => "fade"
  end.

Section WithHost.

Variable canvas : Canvas.Host.
Variable host : Host.

(** The command that [buildMp4WithXfade] hands to the encoder. *)
Definition xfadeCommand (framePaths : list string) (outputPath : string)
    (frameDurations : list Q) (transitionType : string) (transitionDuration : Q)
    (fps : Q) : FfmpegCommand :=
  let num := Canvas.numberToString canvas in
  let inputs :=
    map (fun '(i, p) =>
           {| input_path := p;
              inputOptions := [ "-loop"; "1"; "-t"; num (at_index frameDurations i);
                                "-framerate"; num fps ] |})
        (zip (seq 0 (length framePaths)) framePaths) in
  let filterParts :=
    map (stageText num)
        (xfadeStages (length framePaths) frameDurations transitionType
           transitionDuration) in
  {| inputs := inputs;
     complexFilter := String.concat ";" filterParts;
     outputOptions := [ "-map"; "[v]"; "-c:v"; "libx264"; "-preset"; "fast";
                        "-crf"; "23"; "-pix_fmt"; "yuv420p";
                        "-movflags"; "+faststart"; "-r"; num fps ];
     output := outputPath |}.

Definition buildMp4WithXfade (framePaths : list string) (outputPath : string)
    (frameDurations : list Q) (transitionType : string) (transitionDuration : Q)
    (fps : Q) (trace : list Event) : list Event * Outcome unit :=
  let cmd :=
    xfadeCommand framePaths outputPath frameDurations transitionType
      transitionDuration fps in
  let trace := trace ++ [RunEncoder cmd] in
  match run host cmd with
  | None => (trace, Ok tt)
  | Some message => (trace, Throw (JsError ("FFmpeg error: " +:+ message)))
  end.

(** The loop that renders and writes the frames [i], [i + 1], ... *)
Fixpoint renderFrames (rc : Mp4RenderContext) (tmpDir : string) (indices : list nat)
    (framePaths : list string) (trace : list Event)
  : list Event * Outcome (list string) :=
  match indices with
  | [] => (trace, Ok framePaths)
  | i :: rest =>
      let trace := trace ++ [RenderFrame i] in
      match PngRenderer.renderPng canvas
              {| PngRenderer.ctx_template := ctx_template rc;
                 PngRenderer.ctx_variables := ctx_variables rc;
                 PngRenderer.userImages := userImages rc;
                 PngRenderer.logoImage := logoImage rc;
                 PngRenderer.frameIndex := Some i |} with
      | Throw e => (trace, Throw e)
      | Ok pngBuffer =>
          let framePath :=
            path_join tmpDir ("frame_" +:+ padStart3 (pretty i) +:+ ".png") in
          let trace := trace ++ [WriteFile framePath] in
          if writeFileSync host framePath pngBuffer
          then renderFrames rc tmpDir rest (framePaths ++ [framePath]) trace
          else (trace, Throw (HostError "fs"))
      end
  end.

(** The body of the [try] block. *)
Definition renderMp4_try (rc : Mp4RenderContext) (tmpDir outputPath : string)
    (trace : list Event) : list Event * Outcome string :=
  let t := ctx_template rc in
  let frameCount := length (frames t) in
  match renderFrames rc tmpDir (seq 0 frameCount) [] trace with
  | (trace, Throw e) => (trace, Throw e)
  | (trace, Ok framePaths) =>
      let fps := Num.or_else (fps t) 30 in
      match buildMp4WithXfade framePaths outputPath (frameDurationSec t)
              (mapTransitionType (transitionType t)) (transitionDurationSec t)
              fps trace with
      | (trace, Throw e) => (trace, Throw e)
      | (trace, Ok _) =>
          let trace := trace ++ [ReadFile outputPath] in
          match readFileSync host outputPath with
          | Some buffer => (trace, Ok buffer)
          | None => (trace, Throw (HostError "fs"))
          end
      end
  end.

Definition renderMp4 (rc : Mp4RenderContext) (trace : list Event)
  : list Event * Outcome string :=
  let frameCount := length (frames (ctx_template rc)) in
  if (frameCount <? 2)%nat
  then (trace, Throw (JsError "MP4 templates require at least 2 frames"))
  else
    let pathPrefix := path_join (tmpdir host) "render-mp4-" in
    let trace := trace ++ [Mkdtemp pathPrefix] in
    match mkdtempSync host pathPrefix with
    | None => (trace, Throw (HostError "fs"))
    | Some tmpDir =>
        let outputPath := path_join tmpDir "output.mp4" in
        let '(trace, result) := renderMp4_try rc tmpDir outputPath trace in
        (* finally *)
        (trace ++ [RmSync tmpDir], result)
    end.

End WithHost.

End Mp4Renderer.

(** * Vocabulary of the properties *)

(** ** Text *)

Fixpoint has_space (s : string) : bool :=
  match s with
  | EmptyString => false
  | String c s' => Ascii.eqb c " " || has_space s'
  end.

(** The words that are not empty, those [wrapText] keeps. *)
Definition properWords (ws : list string) : list string :=
  filter (fun w => Js.truthy w = true) ws.

(** The state [(lines, currentLine)] of the greedy loop after the words
    [seen]: every committed line records its measure and either fits or
    is one of the words; so does the current line unless it is empty; and
    the words of the lines are the words seen. *)
Definition greedy_inv (measure : string -> Q) (maxWidth : Q) (seen : list string)
    (st : list Text.WrappedLine * string) : Prop :=
  Forall (fun l => Text.width l = measure (Text.text l)
                   /\ ((measure (Text.text l) <= maxWidth)%Q \/ Text.text l ∈ seen)) st.1
  /\ (st.2 = EmptyString \/ (measure st.2 <= maxWidth)%Q \/ st.2 ∈ seen)
  /\ (properWords (concat (Js.split_space <$> (Text.text <$> st.1)))
        ++ properWords (Js.split_space st.2))
     = properWords seen.

(** Text never measures less than a part of it. *)
Definition monotone (measure : string -> Q) : Prop :=
  forall a b c, (measure b <= measure (a +:+ b +:+ c))%Q.

(** ** Rotation pool *)

(** What the candidate loop of [getRotationPool] keeps. *)
Definition eligible (format : OutputFormat) (available : nat)
    (wanted : option (list string)) (meta : TemplateWithMeta) : Prop :=
  outputFormat (template meta) = format
  /\ (imageCount (template meta) <= available)%nat
  /\ (forall ks, wanted = Some ks -> ks <> [] ->
        exists k, k ∈ categoryKeys meta /\ k ∈ ks)
  /\ (0 < rotationWeight meta)%Q.

(** ** Image cache *)

(** Distinct keys, no empty key, bounded size. *)
Definition cache_ok (cache : list (string * Image)) : Prop :=
  NoDup (JsMap.keys cache)
  /\ (EmptyString ∉ JsMap.keys cache)
  /\ (JsMap.size cache <= AssetLoader.MAX_CACHE_SIZE)%nat.

(** ** Filter chain *)





(** ** Canvas *)

Inductive StackUse := Keeps | Pops.

(** A binding none of whose calls raises. *)
Definition quiet (host : Canvas.Host) : Prop :=
  forall c call, Canvas.throws host c call = false.

(** How a computation treats the stack of saved states: it either leaves
    it as it found it, or pops the entry on top of it.  In both cases the
    only exception is one of the binding, and there is none when the
    binding is quiet. *)
Definition disciplined (host : Canvas.Host) (u : StackUse) {A} (m : Canvas.M A) : Prop :=
  forall c c' r, m c = (c', r) ->
    (forall e, r = Throw e -> e = HostError "canvas")
    /\ (quiet host -> exists a, r = Ok a)
    /\ match u with
       | Keeps =>
           (forall a, r = Ok a -> Canvas.saved c' = Canvas.saved c)
           /\ (forall e, r = Throw e ->
                 exists extra, Canvas.saved c' = extra ++ Canvas.saved c)
       | Pops =>
           forall s0 st, Canvas.saved c = s0 :: st ->
             (forall a, r = Ok a -> Canvas.saved c' = st /\ Canvas.cur c' = s0)
             /\ (forall e, r = Throw e ->
                   exists extra, Canvas.saved c' = extra ++ s0 :: st)
       end.

(** A layer whose image is not there: an image layer whose index is out
    of range, or a logo layer without a logo. *)
Definition missingImage (userImages : list Image) (logoImage : option Image)
    (layer : LayerDefinition) : bool :=
  match kind layer with
  | KImage l => match userImages !! image_index l with None => true | Some _ => false end
  | KLogo _ => match logoImage with None => true | Some _ => false end
  | _ => false
  end.

(** The frame without the layers whose image is not there. *)
Definition withoutMissing (userImages : list Image) (logoImage : option Image)
    (frame : FrameDefinition) : FrameDefinition :=
  {| durationMs := durationMs frame;
     background := background frame;
     layers := filter (fun l => missingImage userImages logoImage l = false) (layers frame) |}.

(** ** Colours *)

(** What a key stands for among the brand colours: the variable, or the
    default of its family when the variable is empty; the member of
    [Object.prototype] of that name if there is one; black for any other
    key. *)
Definition brandColour (variables : RenderVariables) (key : string) : Js.Value :=
  if bool_decide (key = "primary_colour" \/ key = "primary_color")
  then Js.Str (if Js.truthy (primary_colour variables) then primary_colour variables
               else "#235BAA")
  else if bool_decide (key = "secondary_colour" \/ key = "secondary_color")
  then Js.Str (if Js.truthy (secondary_colour variables) then secondary_colour variables
               else "#FFFFFF")
  else if bool_decide (key ∈ Js.objectPrototype) then Js.Inherited key
  else Js.Str "#000000".

(** A digit of radix 16, written in lower or upper case. *)
Definition hexChar (upper : bool) (d : nat) : ascii :=
  match d with
  | 0 => "0" | 1 => "1" | 2 => "2" | 3 => "3" | 4 => "4" | 5 => "5" | 6 => "6"
  | 7 => "7" | 8 => "8" | 9 => "9"
  | 10 => if upper then "A" else "a"
  | 11 => if upper then "B" else "b"
  | 12 => if upper then "C" else "c"
  | 13 => if upper then "D" else "d"
  | 14 => if upper then "E" else "e"
  | _ => if upper then "F" else "f"
  end%char.

(** A colour channel written with two digits of radix 16. *)
Definition hex2 (upper : bool) (n : nat) : string :=
  String (hexChar upper (n / 16)) (String (hexChar upper (n mod 16)) EmptyString).

(** ** Placeholders *)



(** ** Wrapped lines *)

(** A text that is not empty and does not begin with a space. *)
Definition solid (s : string) : Prop :=
  match s with
  | EmptyString => False
  | String c _ => c <> " "%char
  end.

(** What follows the first word once the words are joined again. *)
Definition spaced (ws : list string) : string :=
  foldr (fun w acc => " " +:+ w +:+ acc) EmptyString ws.

(** ** Painters *)

(** The part of the drawing state that concerns every later operation:
    opacity, clipping region and shadow. *)
Definition ambient (s : Canvas.DrawState)
  : Q * list (list Canvas.PathCmd) * (Q * Q * Q * string) :=
  (Canvas.globalAlpha s, Canvas.clipRegion s,
   (Canvas.shadowBlur s, Canvas.shadowOffsetX s, Canvas.shadowOffsetY s,
    Canvas.shadowColor s)).

(** A computation that, when it returns, has left the stack of saved
    states and the ambient part of the drawing state as it found them. *)
Definition contained {A} (m : Canvas.M A) : Prop :=
  forall c c' a, m c = (c', Ok a) ->
    Canvas.saved c' = Canvas.saved c
    /\ ambient (Canvas.cur c') = ambient (Canvas.cur c).


(** The frame without the layers marked [visible: false]. *)
Definition withoutHidden (frame : FrameDefinition) : FrameDefinition :=
  {| durationMs := durationMs frame;
     background := background frame;
     layers := filter (fun l => PngRenderer.hidden l = false) (layers frame) |}.

(** The frame with other layers. *)
Definition withLayers (frame : FrameDefinition) (ls : list LayerDefinition)
  : FrameDefinition :=
  {| durationMs := durationMs frame; background := background frame; layers := ls |}.

(** ** Registry *)

(** Every map holds a key once; built-in templates stand under their own
    [id], the entries of [templatesByAirtableId] under their own record
    identifier, those of [templatesByTemplateId] under the [id] of their
    template; no rotation weight is negative. *)
Definition stores_ok (st : Registry.Stores) : Prop :=
  (NoDup (JsMap.keys (Registry.builtinTemplates st))
   /\ NoDup (JsMap.keys (Registry.templatesByAirtableId st))
   /\ NoDup (JsMap.keys (Registry.templatesByTemplateId st)))
  /\ (forall k t, (k, t) ∈ Registry.builtinTemplates st -> id t = k)
  /\ (forall k m, (k, m) ∈ Registry.templatesByAirtableId st ->
        airtableRecordId m = k /\ (0 <= rotationWeight m)%Q)
  /\ (forall k m, (k, m) ∈ Registry.templatesByTemplateId st ->
        id (template m) = k /\ (0 <= rotationWeight m)%Q).


(** The entry that [syncFromAirtable] makes for a record whose template is
    [template]. *)
Definition managed (rec : AirtableTemplateRecord) (template : TemplateDefinition)
  : TemplateWithMeta :=
  {| template := template; airtableRecordId := rec_id rec;
     rotationWeight := Registry.atLeastZero (rotation_weight rec);
     categoryKeys := category_keys rec |}.

(** The template of a record that is active and usable. *)
Definition synced_template (host : Registry.Host)
    (builtins : list (string * TemplateDefinition)) (rec : AirtableTemplateRecord)
  : option TemplateDefinition :=
  if template_active rec
  then match Registry.usable host builtins rec with
       | Some (inl t) | Some (inr t) => Some t
       | None => None
       end
  else None.

(** The polynomial [c0 * 31^(n-1) + ... + c(n-1)] over the code units,
    by Horner's rule. *)
Definition horner31 (codes : list Z) : Z :=
  fold_left (fun h c => (31 * h + c)%Z) codes 0%Z.

(** ** Frame files *)

(** The file of frame [i] in the directory [tmpDir]. *)
Definition framePath (tmpDir : string) (i : nat) : string :=
  Mp4Renderer.path_join tmpDir ("frame_" +:+ Mp4Renderer.padStart3 (pretty i) +:+ ".png").

(** An event of the frame loop, the encoder run or the read of its output;
    neither the creation nor the removal of the directory. *)
Definition inside (e : Mp4Renderer.Event) : Prop :=
  match e with
  | Mp4Renderer.Mkdtemp _ | Mp4Renderer.RmSync _ => False
  | _ => True
  end.


(** ** Sample data *)

Module Sample.

(** A fixed-pitch font: ten pixels a character. *)
Definition monospace10 (s : string) : Q := inject_Z (10 * Z.of_nat (String.length s)).

(** The weights of a character of an identifier under the root
    collation of ICU: a digit comes before a letter and a letter goes with
    its other case; among strings that are equal so far, lower case comes
    before upper case.  Characters that are neither are put behind the
    letters here; identifiers have none. *)
Definition primaryWeight (c : ascii) : nat :=
  let n := nat_of_ascii c in
  if ((48 <=? n) && (n <=? 57))%nat then (n - 47)%nat
  else if ((97 <=? n) && (n <=? 122))%nat then (n - 86)%nat
  else if ((65 <=? n) && (n <=? 90))%nat then (n - 54)%nat
  else (37 + n)%nat.

Definition tertiaryWeight (c : ascii) : nat :=
  let n := nat_of_ascii c in
  if ((65 <=? n) && (n <=? 90))%nat then 2%nat else 1%nat.

(** The sort key: the primary weights, a separator below every weight,
    the tertiary weights. *)
Definition sortKey (s : string) : list nat :=
  map primaryWeight (list_ascii_of_string s)
    ++ 0%nat :: map tertiaryWeight (list_ascii_of_string s).

Fixpoint compareKeys (a b : list nat) : comparison :=
  match a, b with
  | [], [] => Eq
  | [], _ :: _ => Lt
  | _ :: _, [] => Gt
  | x :: a', y :: b' =>
      match Nat.compare x y with
      | Eq => compareKeys a' b'
      | c => c
      end
  end.

(** What [a.localeCompare(b)] answers on identifiers made of ASCII
    letters and digits: for instance [reca] comes before [recB], which
    by code units comes first. *)
Definition localeCompare (a b : string) : Z :=
  match compareKeys (sortKey a) (sortKey b) with
  | Lt => (-1)%Z
  | Eq => 0%Z
  | Gt => 1%Z
  end.

Definition frameOf (ms : option Q) (ls : list LayerDefinition) : FrameDefinition :=
  {| durationMs := ms; background := BgSolid "#FFFFFF"; layers := ls |}.

Definition templateOf (ident : string) (format : OutputFormat) (images : nat)
    (fs : list FrameDefinition) : TemplateDefinition :=
  {| id := ident; name := ident; outputFormat := format;
     template_width := 1080; template_height := 1080; imageCount := images;
     template_categoryKeys := []; fps := None; frames := fs;
     transition := None |}.

Definition metaOf (recordId : string) (format : OutputFormat) (images : nat)
    (weight : Q) (keys : list string) : TemplateWithMeta :=
  {| template := templateOf recordId format images [frameOf None []];
     airtableRecordId := recordId;
     rotationWeight := weight; categoryKeys := keys |}.

Definition catalog : list (string * TemplateWithMeta) :=
  [ ("recB", metaOf "recB" png 1 3 ["plumbing"]);
    ("recA", metaOf "recA" png 2 15 ["roofing"; "plumbing"]);
    ("recC", metaOf "recC" png 1 0 ["plumbing"]);
    ("recD", metaOf "recD" mp4 3 1 ["plumbing"]) ].

(** Two records whose identifiers differ in case. *)
Definition mixedCase : list (string * TemplateWithMeta) :=
  [ ("recB", metaOf "recB" png 1 1 []); ("reca", metaOf "reca" png 1 1 []) ].

Definition pool : list TemplateWithMeta :=
  [ metaOf "recA" png 2 1 []; metaOf "recB" png 1 1 []; metaOf "recE" png 1 1 [] ].

Definition rotation (i : nat) : RotationState :=
  {| state_png := {| lastIndex := i |}; state_mp4 := {| lastIndex := 0 |} |}.

Definition variables : RenderVariables :=
  {| title := "Roof repair"; subtitle := "Done in a day"; body := EmptyString;
     phone := "021 555 1234"; service_areas := "Cape Town";
     primary_colour := "#235BAA"; secondary_colour := EmptyString;
     logo_url := EmptyString; user_images := []; company_name := "Acme";
     website := None; square_cta_image_url := None; landscape_cta_image_url := None |}.

Definition canvasWith (throws : Canvas.Context -> Canvas.Call -> bool) : Canvas.Host :=
  {| Canvas.throws := throws;
     Canvas.measureText := fun _ s => monospace10 s;
     Canvas.toUpperCase := fun s => s;
     Canvas.toLowerCase := fun s => s;
     Canvas.numberToString := fun q => pretty (Qfloor q);
     Canvas.Math_cos := fun _ => 1%Q;
     Canvas.Math_sin := fun _ => 0%Q;
     Canvas.Math_PI := (355 # 113)%Q |}.

(** A binding that never raises. *)
Definition quietCanvas : Canvas.Host := canvasWith (fun _ _ => false).

(** A binding whose [fillRect] raises. *)
Definition failingFillRect : Canvas.Host :=
  canvasWith (fun _ call =>
    match call with
    | Canvas.Paint (Canvas.FillRect _ _ _ _) => true
    | _ => false
    end).

Definition box (o : option Q) : BaseLayer :=
  {| x := 0; y := 0; width := 100; height := 50; opacity := o;
     borderRadius := None; visible := None |}.

(** A half-transparent rectangle in the brand colour. *)
Definition halfRect : LayerDefinition :=
  {| base := box (Some (1 # 2)%Q);
     kind := KRect {| rect_fill := "{{primary_colour}}"; stroke := None |} |}.

(** A half-transparent photo taken from the image at index [i]. *)
Definition photo (i : nat) : LayerDefinition :=
  {| base := box (Some (1 # 2)%Q);
     kind := KImage {| image_index := i; image_fit := cover; shadow := None |} |}.

Definition still : TemplateDefinition :=
  templateOf "main-1-image" png 1 [frameOf None [photo 3; halfRect]].

Definition slideshow : TemplateDefinition :=
  templateOf "slideshow-base" mp4 3
    [frameOf (Some 2000%Q) [halfRect]; frameOf None []; frameOf (Some 0%Q) [halfRect]].

Definition pngContext (t : TemplateDefinition) : PngRenderer.PngRenderContext :=
  {| PngRenderer.ctx_template := t; PngRenderer.ctx_variables := variables;
     PngRenderer.userImages := []; PngRenderer.logoImage := None;
     PngRenderer.frameIndex := None |}.

Definition mp4Context (t : TemplateDefinition) : Mp4Renderer.Mp4RenderContext :=
  {| Mp4Renderer.ctx_template := t; Mp4Renderer.ctx_variables := variables;
     Mp4Renderer.userImages := []; Mp4Renderer.logoImage := None |}.

(** A file system and an encoder that always succeed. *)
Definition encoder : Mp4Renderer.Host :=
  {| Mp4Renderer.tmpdir := "/tmp";
     Mp4Renderer.mkdtempSync := fun p => Some (p +:+ "a1b2c3");
     Mp4Renderer.writeFileSync := fun _ _ => true;
     Mp4Renderer.run := fun _ => None;
     Mp4Renderer.readFileSync := fun _ => Some "mp4" |}.

(** A network that serves every URL but the empty one. *)
Definition network : AssetLoader.Host :=
  {| AssetLoader.fetch := fun _ url =>
       if Js.truthy url
       then Some {| AssetLoader.ok := true; AssetLoader.status := "200";
                    AssetLoader.contentType := Some "image/png";
                    AssetLoader.arrayBuffer := url |}
       else None;
     AssetLoader.sharpPng := fun buf => Some buf;
     AssetLoader.loadImage := fun buf =>
       Some {| img_src := buf; img_width := 640; img_height := 480 |} |}.


(** What [network] decodes from [url]. *)
Definition imageOf (url : string) : Image :=
  {| img_src := url; img_width := 640; img_height := 480 |}.

(** A hundred URLs, [u0] to [u99]. *)
Definition urls : list string := map (fun i => "u" +:+ pretty i) (seq 0 100).


(** The directory of the built-in templates: each of the nine files holds
    a template named after the file. *)
Definition disk (file : string) : option TemplateDefinition :=
  if bool_decide (file ∈ Registry.builtinFiles)
  then Some (templateOf (Js.slice_neg file 0 5) png 1 [frameOf None []])
  else None.

Definition recordOf (recordId builtin json : string) (active : bool) (weight : Q)
  : AirtableTemplateRecord :=
  {| rec_id := recordId; reference := recordId; template_active := active;
     builtin_id := builtin; template_json := json; output_format := png;
     image_count := 1; category_keys := ["plumbing"]; rotation_weight := weight |}.

(** The Templates table: a built-in template, a custom one with a negative
    weight, a record that is not active and one whose JSON is refused. *)
Definition table : list AirtableTemplateRecord :=
  [ recordOf "recA" "main-1-image" EmptyString true 2;
    recordOf "recB" EmptyString "custom" true (-1);
    recordOf "recC" "before-after" EmptyString false 1;
    recordOf "recD" EmptyString "broken" true 1 ].

Definition registryWith (records : option (list AirtableTemplateRecord)) : Registry.Host :=
  {| Registry.readBuiltin := disk;
     Registry.fetchAllTemplates := records;
     Registry.parseTemplate := fun json =>
       if String.eqb json "custom"
       then Some (templateOf "custom-1" png 2 [frameOf None []])
       else None;
     Registry.getCompanyRotationState := fun _ => rotation 0 |}.

Definition online : Registry.Host := registryWith (Some table).

Definition offline : Registry.Host := registryWith None.

(** The stores once the built-in templates are read. *)
Definition loaded : Registry.Stores :=
  (Registry.loadBuiltinTemplates offline Registry.noStores).1.

End Sample.

(** * Properties *)

(** ** Strings *)

Lemma append_nil (b : string) : EmptyString +:+ b = b.
Proof. reflexivity. Qed.

Lemma append_cons (x : ascii) (a b : string) : String x a +:+ b = String x (a +:+ b).
Proof. reflexivity. Qed.

Ltac string_simpl := rewrite ?append_cons, ?append_nil in *.

Lemma length_app_string (a b : string) :
  String.length (a +:+ b) = (String.length a + String.length b)%nat.
Proof. induction a as [|c a IH]; string_simpl; simpl; [reflexivity | now rewrite IH]. Qed.

Lemma substring_whole (s : string) : substring 0 (String.length s) s = s.
Proof. induction s as [|c s IH]; simpl; [reflexivity | now rewrite IH]. Qed.

Lemma substring_0_app (a b : string) : substring 0 (String.length a) (a +:+ b) = a.
Proof.
  induction a as [|c a IH]; string_simpl; simpl.
  - destruct b; reflexivity.
  - now rewrite IH.
Qed.

Lemma substring_skip_app (a b : string) (m : nat) :
  substring (String.length a) m (a +:+ b) = substring 0 m b.
Proof. induction a as [|c a IH]; string_simpl; simpl; [reflexivity | exact IH]. Qed.

Lemma prefix_refl_string (a : string) : String.prefix a a = true.
Proof.
  induction a as [|x a IH]; [reflexivity |].
  cbn [String.prefix]. destruct (ascii_dec x x); [exact IH | congruence].
Qed.

Lemma prefix_trans_string (a b c : string) :
  String.prefix a b = true -> String.prefix b c = true -> String.prefix a c = true.
Proof.
  revert b c. induction a as [|x a IH]; intros b c Hab Hbc; [now destruct c |].
  destruct b as [|y b]; [discriminate |]. destruct c as [|z c]; [discriminate |].
  cbn [String.prefix] in *.
  destruct (ascii_dec x y); [subst | discriminate].
  destruct (ascii_dec y z); [subst | discriminate].
  eauto.
Qed.

Lemma prefix_app (p s : string) : String.prefix p (p +:+ s) = true.
Proof.
  induction p as [|c p IH]; string_simpl.
  - destruct s; reflexivity.
  - cbn [String.prefix]. destruct (ascii_dec c c); [exact IH | congruence].
Qed.

Lemma startsWith_app (p s : string) : Js.startsWith (p +:+ s) p = true.
Proof. apply prefix_app. Qed.

Lemma endsWith_app (a p : string) : Js.endsWith (a +:+ p) p = true.
Proof.
  unfold Js.endsWith. rewrite length_app_string.
  apply andb_true_intro; split.
  - apply Nat.leb_le. lia.
  - replace (String.length a + String.length p - String.length p)%nat
      with (String.length a) by lia.
    rewrite substring_skip_app, substring_whole. apply String.eqb_refl.
Qed.

Lemma slice_neg_braces (inner : string) :
  Js.slice_neg ("{{" +:+ inner +:+ "}}") 2 2 = inner.
Proof.
  unfold Js.slice_neg.
  rewrite (length_app_string "{{"), (length_app_string inner).
  replace (String.length "{{" + (String.length inner + String.length "}}") - 2 - 2)%nat
    with (String.length inner) by (simpl; lia).
  etransitivity; [apply (substring_skip_app "{{") |].
  apply substring_0_app.
Qed.

Lemma slice_from_1 (c : ascii) (s : string) : Js.slice_from (String c s) 1 = s.
Proof. unfold Js.slice_from. simpl. rewrite Nat.sub_0_r. apply substring_whole. Qed.

Lemma truthy_false (s : string) : Js.truthy s = false -> s = EmptyString.
Proof. destruct s; [reflexivity | discriminate]. Qed.

(** ** Numbers *)

Lemma gt_true (a b : Q) : Num.gt a b = true <-> (b < a)%Q.
Proof.
  unfold Num.gt. rewrite negb_true_iff, <- not_true_iff_false, Qle_bool_iff.
  split; [apply Qnot_le_lt | apply Qlt_not_le].
Qed.

Lemma gt_false (a b : Q) : Num.gt a b = false <-> (a <= b)%Q.
Proof. unfold Num.gt. rewrite negb_false_iff. apply Qle_bool_iff. Qed.

Lemma le_true (a b : Q) : Num.le a b = true <-> (a <= b)%Q.
Proof. apply Qle_bool_iff. Qed.

Lemma le_false (a b : Q) : Num.le a b = false <-> (b < a)%Q.
Proof.
  unfold Num.le. rewrite <- not_true_iff_false, Qle_bool_iff.
  split; [apply Qnot_le_lt | apply Qlt_not_le].
Qed.

Lemma round_integer (z : Z) (w : Q) : (w == inject_Z z)%Q -> Num.round w = z.
Proof.
  intros E. unfold Num.round. rewrite E.
  pose proof (Qfloor_le (inject_Z z + (1 # 2))) as Hle.
  pose proof (Qlt_floor (inject_Z z + (1 # 2))) as Hlt.
  set (f := Qfloor (inject_Z z + (1 # 2))) in *.
  rewrite inject_Z_plus in Hlt. change (inject_Z 1) with 1%Q in Hlt.
  assert (H1 : (f <= z)%Z).
  { destruct (Z_le_gt_dec f z) as [? | Hgt]; [assumption |].
    assert ((inject_Z (z + 1) <= inject_Z f)%Q) by (rewrite <- Zle_Qle; lia).
    rewrite inject_Z_plus in *. change (inject_Z 1) with 1%Q in *. lra. }
  assert (H2 : (z <= f)%Z).
  { destruct (Z_le_gt_dec z f) as [? | Hgt]; [assumption |].
    assert ((inject_Z (f + 1) <= inject_Z z)%Q) by (rewrite <- Zle_Qle; lia).
    rewrite inject_Z_plus in *. change (inject_Z 1) with 1%Q in *. lra. }
  lia.
Qed.

(** ** resolveColor *)



(** The two spellings of a key both come down to the lookup. *)
Lemma resolveColor_key (variables : gmap string string) (color key : string) :
  (exists inner, color = "{{" +:+ inner +:+ "}}" /\ key = Js.trim inner)
  \/ color = "$" +:+ key ->
  Color.resolveColor color variables = Color.lookup_or_black variables key.
Proof.
  intros Hshape. unfold Color.resolveColor.
  destruct Hshape as [(inner & -> & ->) | ->].
  - rewrite startsWith_app.
    assert (E : Js.endsWith ("{{" +:+ inner +:+ "}}") "}}" = true)
      by apply (endsWith_app ("{{" +:+ inner) "}}").
    now rewrite E, slice_neg_braces.
  - change (Js.startsWith ("$" +:+ key) "{{") with false.
    rewrite startsWith_app. cbn [andb].
    change ("$" +:+ key) with (String "$" key).
    now rewrite slice_from_1.
Qed.




(** ** Splitting at spaces *)

Lemma split_space_nonempty (s : string) : Js.split_space s <> [].
Proof.
  destruct s as [|c s]; simpl; [discriminate |].
  destruct (Ascii.eqb c " "); [discriminate |].
  destruct (Js.split_space s); discriminate.
Qed.

Lemma split_space_app (a b : string) :
  Js.split_space (a +:+ " " +:+ b) = Js.split_space a ++ Js.split_space b.
Proof.
  induction a as [|c a IH]; string_simpl; simpl.
  - reflexivity.
  - destruct (Ascii.eqb c " ").
    + now rewrite IH.
    + rewrite IH.
      destruct (Js.split_space a) as [|w ws] eqn:E.
      * now apply split_space_nonempty in E.
      * reflexivity.
Qed.

Lemma split_space_no_space (s : string) :
  has_space s = false -> Js.split_space s = [s].
Proof.
  induction s as [|c s IH]; simpl; [reflexivity |].
  intros H. apply orb_false_elim in H as [Hc Hs].
  rewrite Hc, (IH Hs). reflexivity.
Qed.

Lemma split_space_words (s : string) :
  Forall (fun w => has_space w = false) (Js.split_space s).
Proof.
  induction s as [|c s IH]; simpl.
  - repeat constructor.
  - destruct (Ascii.eqb c " ") eqn:Hc.
    + constructor; [reflexivity | exact IH].
    + destruct (Js.split_space s) as [|w ws]; [repeat constructor; simpl; now rewrite Hc |].
      inversion IH; subst. constructor; [simpl; now rewrite Hc | assumption].
Qed.

Lemma split_space_head (s w : string) (ws : list string) :
  Js.split_space s = w :: ws -> exists c, s = w +:+ c.
Proof.
  revert w ws. induction s as [|ch s IH]; simpl; intros w ws H.
  - injection H as <- <-. now exists EmptyString.
  - destruct (Ascii.eqb ch " ").
    + injection H as <- <-. now exists (String ch s).
    + destruct (Js.split_space s) as [|w0 ws0] eqn:E.
      * now apply split_space_nonempty in E.
      * injection H as <- <-. destruct (IH _ _ eq_refl) as [c ->].
        now exists c.
Qed.

(** A word of a string is a part of it. *)
Lemma split_space_infix (s w : string) :
  w ∈ Js.split_space s -> exists a c, s = a +:+ w +:+ c.
Proof.
  revert w. induction s as [|ch s IH]; simpl; intros w H.
  - apply list_elem_of_singleton in H as ->. now exists EmptyString, EmptyString.
  - destruct (Ascii.eqb ch " ").
    + apply elem_of_cons in H as [-> | H].
      * now exists EmptyString, (String ch s).
      * destruct (IH _ H) as (a & c & ->). now exists (String ch a), c.
    + destruct (Js.split_space s) as [|w0 ws0] eqn:E.
      * now apply split_space_nonempty in E.
      * apply elem_of_cons in H as [-> | H].
        -- destruct (split_space_head _ _ _ E) as [c ->].
           now exists EmptyString, c.
        -- destruct (IH w) as (a & c & ->); [now right |].
           now exists (String ch a), c.
Qed.

Lemma properWords_app (a b : list string) :
  properWords (a ++ b) = properWords a ++ properWords b.
Proof. unfold properWords. apply filter_app. Qed.

Lemma properWords_word (w : string) :
  has_space w = false -> properWords (Js.split_space w) = properWords [w].
Proof. intros H. now rewrite (split_space_no_space w H). Qed.

(** ** Dropping characters *)

Lemma length_trimEnd (s : string) : (String.length (Js.trimEnd s) <= String.length s)%nat.
Proof.
  induction s as [|c s IH]; simpl; [lia |].
  destruct (Js.trimEnd s) eqn:E; simpl in *.
  - destruct (Js.isWhiteSpace c); simpl; lia.
  - lia.
Qed.

Lemma length_dropLast (s : string) :
  String.length (Js.dropLast s) = (String.length s - 1)%nat.
Proof.
  induction s as [|c s IH]; [reflexivity |].
  destruct s as [|c' s]; [reflexivity |].
  change (Js.dropLast (String c (String c' s)))
    with (String c (Js.dropLast (String c' s))).
  cbn [String.length] in *. rewrite IH. lia.
Qed.

Lemma length_shrink (s : string) :
  (0 < String.length s)%nat -> (String.length (Text.shrink s) < String.length s)%nat.
Proof.
  intros H. unfold Text.shrink.
  pose proof (length_trimEnd (Js.dropLast s)). rewrite length_dropLast in *. lia.
Qed.

Lemma prefix_trimEnd (s : string) : String.prefix (Js.trimEnd s) s = true.
Proof.
  induction s as [|c s IH]; simpl; [reflexivity |].
  destruct (Js.trimEnd s) eqn:E.
  - destruct (Js.isWhiteSpace c); simpl; [reflexivity |].
    destruct (ascii_dec c c); [| congruence]. destruct s; reflexivity.
  - cbn [String.prefix]. destruct (ascii_dec c c); [exact IH | congruence].
Qed.

Lemma prefix_dropLast (s : string) : String.prefix (Js.dropLast s) s = true.
Proof.
  induction s as [|c s IH]; [reflexivity |].
  destruct s as [|c' s]; [reflexivity |].
  change (Js.dropLast (String c (String c' s))) with (String c (Js.dropLast (String c' s))).
  cbn [String.prefix]. destruct (ascii_dec c c); [exact IH | congruence].
Qed.

Lemma prefix_shrink (s : string) : String.prefix (Text.shrink s) s = true.
Proof.
  unfold Text.shrink.
  eapply prefix_trans_string; [apply prefix_trimEnd | apply prefix_dropLast].
Qed.

Lemma prefix_iter_shrink (k : nat) (s : string) :
  String.prefix (Nat.iter k Text.shrink s) s = true.
Proof.
  induction k as [|k IH]; simpl; [apply prefix_refl_string |].
  eapply prefix_trans_string; [apply prefix_shrink | exact IH].
Qed.

(** ** wrapText *)

Section WrapText.

Variable measure : string -> Q.
Variable maxWidth : Q.

Lemma greedy_inv_step (seen : list string) (st : list Text.WrappedLine * string)
    (word : string) :
  has_space word = false ->
  greedy_inv measure maxWidth seen st ->
  greedy_inv measure maxWidth (seen ++ [word]) (Text.wrapStep measure maxWidth st word).
Proof.
  intros Hword (Hlines & Hcur & Hwords). destruct st as [lines cur]. simpl in *.
  assert (Hmono : Forall (fun l => Text.width l = measure (Text.text l)
               /\ ((measure (Text.text l) <= maxWidth)%Q
                   \/ Text.text l ∈ seen ++ [word])) lines).
  { eapply Forall_impl; [exact Hlines |]. intros l [? [? | ?]]; split; auto.
    right. apply elem_of_app. now left. }
  unfold Text.wrapStep.
  destruct (Js.truthy cur) eqn:Hc.
  - (* a current line exists *)
    destruct (Num.gt (measure (cur +:+ " " +:+ word)) maxWidth) eqn:Hgt; simpl.
    + (* the word does not fit: commit the current line *)
      split; [| split]; simpl.
      * apply Forall_app. split; [exact Hmono |].
        constructor; [| constructor]. simpl. split; [reflexivity |].
        destruct Hcur as [-> | [? | ?]]; [discriminate | now left |].
        right. apply elem_of_app. now left.
      * right. right. apply elem_of_app. right. now apply list_elem_of_singleton.
      * rewrite !fmap_app, concat_app, !properWords_app. simpl concat.
        rewrite app_nil_r, (properWords_word word Hword).
        rewrite <- Hwords, <- !app_assoc. reflexivity.
    + (* the word fits: extend the current line *)
      split; [| split]; simpl.
      * exact Hmono.
      * right. left. now apply gt_false.
      * rewrite split_space_app, !properWords_app, (properWords_word word Hword).
        rewrite <- Hwords, <- !app_assoc. reflexivity.
  - (* no current line: the word starts one *)
    rewrite andb_false_r. apply truthy_false in Hc as ->.
    split; [| split]; simpl.
    + exact Hmono.
    + right. right. apply elem_of_app. right. now apply list_elem_of_singleton.
    + rewrite (properWords_word word Hword), properWords_app, <- Hwords.
      change (properWords (Js.split_space EmptyString)) with (@nil string).
      now rewrite app_nil_r.
Qed.

Lemma greedy_inv_fold (words seen : list string) (st : list Text.WrappedLine * string) :
  Forall (fun w => has_space w = false) words ->
  greedy_inv measure maxWidth seen st ->
  greedy_inv measure maxWidth (seen ++ words)
    (fold_left (Text.wrapStep measure maxWidth) words st).
Proof.
  revert seen st. induction words as [|w words IH]; intros seen st Hws Hinv; simpl.
  - now rewrite app_nil_r.
  - inversion Hws; subst.
    replace (seen ++ w :: words) with ((seen ++ [w]) ++ words)
      by now rewrite <- app_assoc.
    apply IH; [assumption |]. now apply greedy_inv_step.
Qed.

Lemma greedy_inv_init : greedy_inv measure maxWidth [] ([], EmptyString).
Proof. repeat split; simpl; auto. Qed.

(** Every greedy line records its own measure and either fits or is one
    whole input word; the words of the lines are the words of the input. *)
Lemma greedyLines_spec (text : string) :
  Forall (fun l => Text.width l = measure (Text.text l)
                   /\ ((measure (Text.text l) <= maxWidth)%Q
                       \/ Text.text l ∈ Js.split_space text))
         (Text.greedyLines measure text maxWidth)
  /\ properWords
       (concat (Js.split_space <$> (Text.text <$> Text.greedyLines measure text maxWidth)))
     = properWords (Js.split_space text).
Proof.
  unfold Text.greedyLines.
  pose proof (greedy_inv_fold (Js.split_space text) [] ([], EmptyString)
                (split_space_words text) greedy_inv_init) as Hinv.
  simpl in Hinv.
  destruct (fold_left _ _ _) as [lines cur]. destruct Hinv as (Hlines & Hcur & Hwords).
  simpl in *. destruct (Js.truthy cur) eqn:Hc.
  - split.
    + apply Forall_app. split; [exact Hlines |].
      constructor; [| constructor]. simpl. split; [reflexivity |].
      destruct Hcur as [-> | [? | ?]]; [discriminate | now left | now right].
    + rewrite !fmap_app, concat_app, properWords_app. simpl concat.
      rewrite app_nil_r. exact Hwords.
  - split; [exact Hlines |]. apply truthy_false in Hc as ->.
    change (properWords (Js.split_space EmptyString)) with (@nil string) in Hwords.
    now rewrite app_nil_r in Hwords.
Qed.

(** The ellipsis loop, iteration by iteration. *)
Lemma shrinkLoop_spec (fuel : nat) (text : string) :
  exists k, (k <= fuel)%nat
    /\ Text.shrinkLoop measure fuel maxWidth text = Nat.iter k Text.shrink text
    /\ (forall j, (j < k)%nat ->
          Text.mustShrink measure maxWidth (Nat.iter j Text.shrink text) = true)
    /\ (k = fuel
        \/ Text.mustShrink measure maxWidth (Nat.iter k Text.shrink text) = false).
Proof.
  revert text. induction fuel as [|fuel IH]; intros text; simpl.
  - exists 0%nat. repeat split; auto. intros j Hj. lia.
  - destruct (Text.mustShrink measure maxWidth text) eqn:E.
    + destruct (IH (Text.shrink text)) as (k & Hk & Heq & Hbefore & Hend).
      exists (S k). rewrite Nat.iter_succ_r. repeat split.
      * lia.
      * exact Heq.
      * intros [|j] Hj; [exact E |]. rewrite Nat.iter_succ_r. apply Hbefore. lia.
      * destruct Hend as [-> | Hend]; [now left | now right].
    + exists 0%nat. repeat split; auto; [lia | intros j Hj; lia].
Qed.

Lemma length_iter_shrink (k : nat) (text : string) :
  (forall j, (j < k)%nat ->
     Text.mustShrink measure maxWidth (Nat.iter j Text.shrink text) = true) ->
  (String.length (Nat.iter k Text.shrink text) + k <= String.length text)%nat.
Proof.
  induction k as [|k IH]; intros H; simpl; [lia |].
  assert (Hk : Text.mustShrink measure maxWidth (Nat.iter k Text.shrink text) = true)
    by (apply H; lia).
  unfold Text.mustShrink in Hk. apply andb_prop in Hk as [_ Hpos].
  apply Nat.ltb_lt in Hpos.
  pose proof (length_shrink _ Hpos). specialize (IH ltac:(intros; apply H; lia)). lia.
Qed.

(** The loop reaches its exit condition: the fuel never runs out. *)
Lemma fitEllipsis_spec (text : string) :
  exists k,
    Text.fitEllipsis measure maxWidth text = Nat.iter k Text.shrink text
    /\ (forall j, (j < k)%nat ->
          (maxWidth < measure (Nat.iter j Text.shrink text +:+ Text.ellipsis))%Q
          /\ Nat.iter j Text.shrink text <> EmptyString)
    /\ ((measure (Nat.iter k Text.shrink text +:+ Text.ellipsis) <= maxWidth)%Q
        \/ Nat.iter k Text.shrink text = EmptyString).
Proof.
  unfold Text.fitEllipsis.
  destruct (shrinkLoop_spec (String.length text) text) as (k & Hk & Heq & Hbefore & Hend).
  exists k. split; [exact Heq |]. split.
  - intros j Hj. specialize (Hbefore j Hj). unfold Text.mustShrink in Hbefore.
    apply andb_prop in Hbefore as [Hgt Hpos]. apply gt_true in Hgt.
    split; [exact Hgt |]. intros E. rewrite E in Hpos. discriminate.
  - pose proof (length_iter_shrink k text Hbefore) as Hlen.
    destruct Hend as [-> | Hend].
    + right. destruct (Nat.iter _ _ _); [reflexivity | simpl in Hlen; lia].
    + unfold Text.mustShrink in Hend. apply andb_false_iff in Hend as [Hle | Hzero].
      * left. now apply gt_false.
      * right. apply Nat.ltb_ge in Hzero.
        destruct (Nat.iter _ _ _); [reflexivity | simpl in Hzero; lia].
Qed.

(** The result of [wrapText] when the cut applies. *)
Lemma wrapText_cut (text : string) (n : nat) :
  (1 <= n)%nat -> (n < length (Text.greedyLines measure text maxWidth))%nat ->
  exists kept,
    Text.greedyLines measure text maxWidth !! (n - 1)%nat = Some kept
    /\ Text.wrapText measure text maxWidth (Some n)
       = <[(n - 1)%nat :=
             Text.line_of measure
               (Text.fitEllipsis measure maxWidth (Text.text kept) +:+ Text.ellipsis)]>
           (take n (Text.greedyLines measure text maxWidth)).
Proof.
  intros Hn Hlen.
  destruct (lookup_lt_is_Some_2 (Text.greedyLines measure text maxWidth) (n - 1)%nat)
    as [kept Hkept]; [lia |].
  exists kept. split; [exact Hkept |].
  unfold Text.wrapText.
  replace (negb (n =? 0)%nat) with true
    by (symmetry; apply negb_true_iff, Nat.eqb_neq; lia).
  replace (n <? length (Text.greedyLines measure text maxWidth))%nat with true
    by (symmetry; now apply Nat.ltb_lt).
  cbn [andb]. rewrite lookup_take_lt by lia. now rewrite Hkept.
Qed.

Lemma wrapText_no_cut (text : string) (maxLines : option nat) :
  (forall n, maxLines = Some n ->
     ~ ((1 <= n)%nat /\ (n < length (Text.greedyLines measure text maxWidth))%nat)) ->
  Text.wrapText measure text maxWidth maxLines = Text.greedyLines measure text maxWidth.
Proof.
  intros H. unfold Text.wrapText. destruct maxLines as [n|]; [| reflexivity].
  destruct (negb (n =? 0)%nat && (n <? length _)%nat) eqn:E; [| reflexivity].
  apply andb_prop in E as [E1 E2]. apply negb_true_iff, Nat.eqb_neq in E1.
  apply Nat.ltb_lt in E2. exfalso. apply (H n eq_refl). lia.
Qed.

End WrapText.

Lemma monospace10_monotone : monotone Sample.monospace10.
Proof.
  intros a b c. unfold Sample.monospace10. rewrite !length_app_string.
  rewrite <- Zle_Qle. lia.
Qed.

(** C1 (amended).  Every line returned by [wrapText] records the measure
    of its own text, and that text either measures at most [maxWidth], or
    is one whole word of the input, or is the ellipsis alone; the last case
    arises only for the rewritten last line when the [maxLines] cut applies.
    The lines before the cut carry the non-empty words of the input, whole
    and in order; and when text never measures less than a part of it, a
    word wider than [maxWidth] stands alone on its line. *)
Theorem wrapText_line_widths (measure : string -> Q) (text : string) (maxWidth : Q)
    (maxLines : option nat) :
  let greedy := Text.wrapText measure text maxWidth None in
  let result := Text.wrapText measure text maxWidth maxLines in
  (forall l, l ∈ result ->
     Text.width l = measure (Text.text l)
     /\ ((measure (Text.text l) <= maxWidth)%Q
         \/ Text.text l ∈ Js.split_space text
         \/ (Text.text l = "..."
             /\ exists n, maxLines = Some n /\ (1 <= n < length greedy)%nat
                          /\ result !! (n - 1)%nat = Some l)))
  /\ properWords (concat (Js.split_space <$> (Text.text <$> greedy)))
     = properWords (Js.split_space text)
  /\ (monotone measure ->
      forall l w, l ∈ greedy -> w ∈ Js.split_space (Text.text l) ->
                  (maxWidth < measure w)%Q -> Text.text l = w).
Proof.
  cbn zeta. change (Text.wrapText measure text maxWidth None)
    with (Text.greedyLines measure text maxWidth).
  destruct (greedyLines_spec measure maxWidth text) as [Hlines Hwords].
  rewrite Forall_forall in Hlines.
  split; [| split].
  - intros l Hl.
    destruct maxLines as [n|]; [| now destruct (Hlines l Hl) as [? [? | ?]]; auto].
    destruct (decide ((1 <= n)%nat
                      /\ (n < length (Text.greedyLines measure text maxWidth))%nat))
      as [[Hn Hlen] | Hno].
    + destruct (wrapText_cut measure maxWidth text n Hn Hlen) as (kept & Hkept & Heq).
      rewrite Heq in Hl |- *.
      apply list_elem_of_lookup in Hl as [j Hj].
      apply list_lookup_insert_Some in Hj as [(<- & <- & Hj) | [Hne Hj]].
      * unfold Text.line_of. cbn [Text.width Text.text]. split; [reflexivity |].
        destruct (fitEllipsis_spec measure maxWidth (Text.text kept))
          as (k & Hk & _ & [Hfit | Hempty]); rewrite Hk.
        -- now left.
        -- right. right. rewrite Hempty. split; [reflexivity |].
           exists n. repeat split; [lia | lia |].
           now rewrite list_lookup_insert_eq by (rewrite length_take; lia).
      * apply lookup_take_Some in Hj as [Hj _]. apply list_elem_of_lookup_2 in Hj.
        destruct (Hlines l Hj) as [? [? | ?]]; auto.
    + rewrite wrapText_no_cut in Hl by (intros ? [= <-]; exact Hno).
      destruct (Hlines l Hl) as [? [? | ?]]; auto.
  - exact Hwords.
  - intros Hmono l w Hl Hw Hwide.
    destruct (Hlines l Hl) as [_ [Hfit | Hword]].
    + exfalso. destruct (split_space_infix _ _ Hw) as (a & c & E).
      specialize (Hmono a w c). rewrite <- E in Hmono. lra.
    + pose proof (split_space_words text) as Hall. rewrite Forall_forall in Hall.
      rewrite (split_space_no_space _ (Hall _ Hword)) in Hw.
      apply list_elem_of_singleton in Hw. now symmetry.
Qed.

Lemma wrapText_line_widths_witness :
  monotone Sample.monospace10
  /\ Text.text {| Text.text := "extraordinarily"; Text.width := 150 |} = "extraordinarily".
Proof.
  split; [exact monospace10_monotone |].
  apply (proj2 (proj2 (wrapText_line_widths Sample.monospace10
                         "a extraordinarily long word" 100 None)) monospace10_monotone).
  - vm_compute. right. left.
  - vm_compute. left.
  - vm_compute. reflexivity.
Defined.

(** C1 as stated fails: at ten pixels a character, ["ab cd"] cut to one
    line of at most 25 pixels comes back as the line ["..."], 30 pixels
    wide, which is no word of the input. *)
Lemma wrapText_line_widths_counterexample :
  ~ (forall l, l ∈ Text.wrapText Sample.monospace10 "ab cd" 25 (Some 1%nat) ->
       (Text.width l <= 25)%Q
       \/ (Text.text l ∈ Js.split_space "ab cd"
           /\ (25 < Sample.monospace10 (Text.text l))%Q)).
Proof.
  intros H.
  destruct (H {| Text.text := "..."; Text.width := Sample.monospace10 "..." |})
    as [Hle | [Hin _]].
  - vm_compute. apply list_elem_of_singleton. reflexivity.
  - vm_compute in Hle. apply Hle. reflexivity.
  - vm_compute in Hin. repeat (apply elem_of_cons in Hin as [Hin | Hin]; [discriminate |]).
    inversion Hin.
Qed.



(** [maxLines = 0] is no cap: the guard [maxLines && ...] takes it for
    an absent argument. *)
Lemma wrapText_maxLines_zero (measure : string -> Q) (text : string) (maxWidth : Q) :
  Text.wrapText measure text maxWidth (Some 0%nat)
  = Text.wrapText measure text maxWidth None.
Proof. reflexivity. Qed.

(** ** Insertion-ordered maps *)

Section JsMapFacts.

Context {V : Type}.
Implicit Types (m : list (string * V)) (k : string) (v : V).



Lemma set_fresh m k v : k ∉ JsMap.keys m -> JsMap.set m k v = m ++ [(k, v)].
Proof.
  induction m as [|[k' v'] m IH]; simpl; [reflexivity |].
  rewrite not_elem_of_cons. intros [Hne Hk].
  destruct (String.eqb_spec k' k) as [-> | _]; [congruence |]. now rewrite IH.
Qed.

Lemma keys_set_present m k v :
  k ∈ JsMap.keys m -> JsMap.keys (JsMap.set m k v) = JsMap.keys m.
Proof.
  induction m as [|[k' v'] m IH]; simpl; intros Hin; [inversion Hin |].
  destruct (String.eqb_spec k' k) as [-> | Hne]; [reflexivity |].
  simpl. f_equal. apply IH. apply elem_of_cons in Hin as [? | ?]; [congruence | assumption].
Qed.

Lemma keys_set m k v :
  JsMap.keys (JsMap.set m k v) = JsMap.keys m
  \/ ((k ∉ JsMap.keys m) /\ JsMap.keys (JsMap.set m k v) = (JsMap.keys m ++ [k])).
Proof.
  destruct (decide (k ∈ JsMap.keys m)) as [Hin | Hout].
  - left. now apply keys_set_present.
  - right. split; [assumption |]. rewrite set_fresh by assumption.
    unfold JsMap.keys. now rewrite map_app.
Qed.

Lemma NoDup_keys_set m k v : NoDup (JsMap.keys m) -> NoDup (JsMap.keys (JsMap.set m k v)).
Proof.
  intros Hnd. destruct (keys_set m k v) as [-> | [Hout ->]]; [exact Hnd |].
  apply NoDup_app. repeat split; [exact Hnd | | apply NoDup_singleton].
  intros k' Hk' Hk. apply list_elem_of_singleton in Hk as ->. contradiction.
Qed.

Lemma elem_of_set m k v k' v' :
  (k', v') ∈ JsMap.set m k v -> (k', v') = (k, v) \/ (k', v') ∈ m.
Proof.
  induction m as [|[k0 v0] m IH]; simpl.
  - intros H. apply list_elem_of_singleton in H. now left.
  - destruct (String.eqb_spec k0 k) as [-> | Hne]; intros H;
      apply elem_of_cons in H as [H | H].
    + now left.
    + right. now right.
    + right. rewrite H. left.
    + destruct (IH H) as [? | ?]; [now left | right; now right].
Qed.

Lemma delete_first k v m : JsMap.delete ((k, v) :: m) k = m.
Proof. simpl. now rewrite String.eqb_refl. Qed.

End JsMapFacts.

(** ** Rotation pool *)

Lemma format_eqb_eq (a b : OutputFormat) : Registry.format_eqb a b = true <-> a = b.
Proof. destruct a, b; simpl; split; congruence. Qed.

Lemma includes_elem_of (ks : list string) (k : string) :
  Registry.includes ks k = true <-> k ∈ ks.
Proof.
  unfold Registry.includes. rewrite existsb_exists. split.
  - intros (x & Hin & E). apply String.eqb_eq in E as ->. now apply list_elem_of_In.
  - intros Hin. exists k. split; [now apply list_elem_of_In | apply String.eqb_refl].
Qed.

Lemma intersects_spec (ks tags : list string) :
  existsb (fun k => Registry.includes ks k) tags = true <-> exists k, k ∈ tags /\ k ∈ ks.
Proof.
  rewrite existsb_exists. split.
  - intros (k & Hin & E). exists k. split; [now apply list_elem_of_In |].
    now apply includes_elem_of.
  - intros (k & Hin & E). exists k. split; [now apply list_elem_of_In |].
    now apply includes_elem_of.
Qed.

Lemma isCandidate_eligible (format : OutputFormat) (available : nat)
    (wanted : option (list string)) (meta : TemplateWithMeta) :
  Registry.isCandidate format available wanted meta = true
  <-> eligible format available wanted meta.
Proof.
  unfold Registry.isCandidate, eligible, Registry.requiredImages, Registry.metaCategoryKeys.
  destruct (Registry.format_eqb _ format) eqn:Ef; cbn [negb].
  2:{ split; [discriminate |]. intros [Hf _]. apply format_eqb_eq in Hf. congruence. }
  apply format_eqb_eq in Ef.
  destruct (available <? _)%nat eqn:Ec.
  { apply Nat.ltb_lt in Ec. split; [discriminate |]. intros (_ & Hc & _). lia. }
  apply Nat.ltb_ge in Ec.
  destruct (Num.le (rotationWeight meta) 0) eqn:Ew.
  { apply le_true in Ew.
    destruct wanted as [ks|]; [destruct (_ && _) |];
      (split; [discriminate | intros (_ & _ & _ & Hw); lra]). }
  apply le_false in Ew.
  destruct wanted as [ks|].
  - destruct (0 <? length ks)%nat eqn:El; cbn [andb].
    + destruct (existsb _ _) eqn:Ex; cbn [negb].
      * apply intersects_spec in Ex. split; [| reflexivity]. intros _.
        repeat split; auto. intros ? [= <-] _. exact Ex.
      * split; [discriminate |]. intros (_ & _ & Hk & _).
        assert (Hk' : exists k, k ∈ categoryKeys meta /\ k ∈ ks).
        { apply (Hk ks eq_refl). intros ->. discriminate. }
        apply intersects_spec in Hk'. congruence.
    + split; [| reflexivity]. intros _. repeat split; auto.
      intros ? [= <-] Hne. apply Nat.ltb_ge in El.
      destruct ks; [congruence | simpl in El; lia].
  - split; [| reflexivity]. intros _. repeat split; auto. intros ? [=].
Qed.

Lemma elem_of_flat_map {A B} (f : A -> list B) (l : list A) (y : B) :
  y ∈ flat_map f l <-> exists x, x ∈ l /\ y ∈ f x.
Proof.
  rewrite list_elem_of_In, in_flat_map. split; intros (x & H1 & H2); exists x;
    rewrite ?list_elem_of_In in *; auto.
Qed.

(** A map filled by [syncFromAirtable] holds every record identifier once. *)
Lemma synced_NoDup (metas : list TemplateWithMeta) :
  NoDup (airtableRecordId <$> JsMap.values (Registry.synced metas)).
Proof.
  unfold Registry.synced.
  assert (H : forall m : list (string * TemplateWithMeta),
             NoDup (JsMap.keys m) -> Forall (fun p => airtableRecordId p.2 = p.1) m ->
             NoDup (JsMap.keys (fold_left Registry.register metas m))
             /\ Forall (fun p => airtableRecordId p.2 = p.1)
                  (fold_left Registry.register metas m)).
  { induction metas as [|meta metas IH]; intros m Hnd Hkeys; [now split |].
    simpl. apply IH.
    - now apply NoDup_keys_set.
    - apply Forall_forall. intros [k v] Hin. unfold Registry.register in Hin.
      apply elem_of_set in Hin as [[= -> ->] | Hin]; [reflexivity |].
      rewrite Forall_forall in Hkeys. now apply (Hkeys (k, v)). }
  destruct (H [] (NoDup_nil_2) (Forall_nil_2 _)) as [Hnd Hkeys].
  replace (airtableRecordId <$> JsMap.values (fold_left Registry.register metas []))
    with (JsMap.keys (fold_left Registry.register metas [])); [exact Hnd |].
  unfold JsMap.keys, JsMap.values. rewrite <- list_fmap_compose.
  apply Forall_fmap_ext_1. eapply Forall_impl; [exact Hkeys |].
  intros [k v] E. simpl in *. now symmetry.
Qed.

(** C5 (amended).  With a comparator that orders any two identifiers and
    a catalog holding each record identifier once, every entry of the pool
    has the requested output format, needs at most the available number of
    images, shares a key with the category filter when a non-empty filter
    is given, and has a rotation weight above zero.  The pool is built from
    the distinct eligible entries, sorted by record identifier under the
    comparator, each repeated clamp(round(weight), 1, 10) times in a row:
    3 times for weight 3 and 10 times for weight 15. *)
Theorem getRotationPool_spec (localeCompare : string -> string -> Z)
    (catalog : list (string * TemplateWithMeta)) (format : OutputFormat)
    (available : nat) (wanted : option (list string)) :
  (forall a b, (localeCompare a b <= 0)%Z \/ (localeCompare b a <= 0)%Z) ->
  NoDup (airtableRecordId <$> JsMap.values catalog) ->
  let pool := Registry.getRotationPool localeCompare catalog format available wanted in
  (forall m, m ∈ pool ->
     outputFormat (template m) = format
     /\ (imageCount (template m) <= available)%nat
     /\ (forall ks, wanted = Some ks -> ks <> [] ->
           exists k, k ∈ categoryKeys m /\ k ∈ ks)
     /\ (0 < rotationWeight m)%Q)
  /\ (exists candidates,
        NoDup candidates
        /\ (forall m, m ∈ candidates
                      <-> m ∈ JsMap.values catalog /\ eligible format available wanted m)
        /\ Sorted (fun a b =>
                     (localeCompare (airtableRecordId a) (airtableRecordId b) <= 0)%Z)
             candidates
        /\ pool = flat_map
                    (fun c =>
                       replicate
                         (Z.to_nat (Z.min (Z.max 1 (Num.round (rotationWeight c))) 10)) c)
                    candidates)
  /\ (forall c, (rotationWeight c == 3)%Q -> Z.to_nat (Registry.copies c) = 3%nat)
  /\ (forall c, (rotationWeight c == 15)%Q -> Z.to_nat (Registry.copies c) = 10%nat).
Proof.
  intros Htotal Hnodup pool.
  set (kept := filter (fun meta => Registry.isCandidate format available wanted meta = true)
                 (JsMap.values catalog)).
  set (candidates := merge_sort (Registry.byRecordId localeCompare) kept).
  assert (Hperm : candidates ≡ₚ kept) by apply merge_sort_Permutation.
  assert (Hmem : forall m, m ∈ candidates
            <-> m ∈ JsMap.values catalog /\ eligible format available wanted m).
  { intros m. rewrite Hperm. unfold kept. rewrite list_elem_of_filter.
    rewrite isCandidate_eligible. tauto. }
  assert (Hpool : pool
            = flat_map (fun c => replicate (Z.to_nat (Registry.copies c)) c) candidates)
    by reflexivity.
  split; [| split; [| split]].
  - intros m Hm. rewrite Hpool in Hm. apply elem_of_flat_map in Hm as (c & Hc & Hm).
    apply elem_of_replicate_inv in Hm as ->. apply Hmem in Hc as [_ Hc]. exact Hc.
  - exists candidates. split; [| split; [| split]].
    + rewrite Hperm. unfold kept. apply NoDup_filter. eapply NoDup_fmap_1. exact Hnodup.
    + exact Hmem.
    + assert (Total (Registry.byRecordId localeCompare)) by (intros a b; apply Htotal).
      apply (Sorted_merge_sort (Registry.byRecordId localeCompare)).
    + exact Hpool.
  - intros c E. unfold Registry.copies. now rewrite (round_integer 3 _ E).
  - intros c E. unfold Registry.copies. now rewrite (round_integer 15 _ E).
Qed.

Lemma compareKeys_antisym (a b : list nat) :
  Sample.compareKeys b a = CompOpp (Sample.compareKeys a b).
Proof.
  revert b. induction a as [|x a IH]; intros [|y b]; try reflexivity.
  cbn [Sample.compareKeys]. rewrite (Nat.compare_antisym x y).
  destruct (Nat.compare x y); cbn [CompOpp]; [apply IH | reflexivity | reflexivity].
Qed.

Lemma localeCompare_total (a b : string) :
  (Sample.localeCompare a b <= 0)%Z \/ (Sample.localeCompare b a <= 0)%Z.
Proof.
  unfold Sample.localeCompare.
  rewrite (compareKeys_antisym (Sample.sortKey a) (Sample.sortKey b)).
  destruct (Sample.compareKeys (Sample.sortKey a) (Sample.sortKey b)); cbn [CompOpp];
    [left | left | right]; lia.
Qed.

Lemma getRotationPool_spec_witness :
  NoDup (airtableRecordId <$> JsMap.values Sample.catalog)
  /\ exists k,
       k ∈ categoryKeys (Sample.metaOf "recA" png 2 15 ["roofing"; "plumbing"])
       /\ k ∈ ["roofing"].
Proof.
  assert (Hnd : NoDup (airtableRecordId <$> JsMap.values Sample.catalog))
    by (apply (bool_decide_unpack (NoDup _)); vm_compute; exact I).
  split; [exact Hnd |].
  destruct (getRotationPool_spec Sample.localeCompare Sample.catalog png 2
              (Some ["roofing"]) localeCompare_total Hnd) as [H _].
  destruct (H (Sample.metaOf "recA" png 2 15 ["roofing"; "plumbing"]))
    as (_ & _ & Hk & _).
  - vm_compute. left.
  - apply (Hk ["roofing"]); [reflexivity | discriminate].
Defined.

(** C5 as stated fails in two places.  When the filter given is the
    empty list, the entries of the pool cannot share a key with it, and
    yet the pool holds the record [recB].  And the order is that of
    [localeCompare], not the lexicographic order of the code units: of
    the records [recB] and [reca] the pool holds [reca] first, though
    [recB] is the smaller string. *)
Lemma getRotationPool_spec_counterexample :
  ~ (forall m,
       m ∈ Registry.getRotationPool Sample.localeCompare Sample.catalog png 2 (Some []) ->
       exists k, k ∈ categoryKeys m /\ k ∈ ([] : list string))
  /\ airtableRecordId
       <$> Registry.getRotationPool Sample.localeCompare Sample.mixedCase png 1 None
     = ["reca"; "recB"]
  /\ String.ltb "recB" "reca" = true.
Proof.
  split; [| split; reflexivity].
  intros H. destruct (H (Sample.metaOf "recB" png 1 3 ["plumbing"])) as (k & _ & Hk).
  - vm_compute. do 10 right. left.
  - inversion Hk.
Qed.

(** ** Round robin *)

Lemma cursor_withCursor (state : RotationState) (format : OutputFormat) (c : RotationCursor) :
  Registry.cursor (Registry.withCursor state format c) format = c.
Proof. destruct format; reflexivity. Qed.

Lemma cursor_withCursor_other (state : RotationState) (format other : OutputFormat)
    (c : RotationCursor) :
  other <> format ->
  Registry.cursor (Registry.withCursor state format c) other = Registry.cursor state other.
Proof. destruct format, other; intros H; try reflexivity; congruence. Qed.

Lemma selectFromPool_nonempty (pool : list TemplateWithMeta) (state : RotationState)
    (format : OutputFormat) :
  pool <> [] ->
  let next := ((lastIndex (Registry.cursor state format) + 1) mod length pool)%nat in
  Registry.selectFromPool pool state format
  = Some {| Registry.selected := pool !! next;
            Registry.updatedState :=
              Registry.withCursor state format {| lastIndex := next |} |}.
Proof.
  intros Hne. unfold Registry.selectFromPool.
  destruct pool as [|m pool]; [congruence | reflexivity].
Qed.

Lemma successiveIndices_formula (n : nat) (pool : list TemplateWithMeta)
    (state : RotationState) (format : OutputFormat) :
  pool <> [] ->
  Registry.successiveIndices n pool state format
  = (fun j => (lastIndex (Registry.cursor state format) + 1 + j) mod length pool)%nat
      <$> seq 0 n.
Proof.
  intros Hne. revert state. induction n as [|n IH]; intros state; [reflexivity |].
  cbn [Registry.successiveIndices].
  rewrite selectFromPool_nonempty by assumption. cbn zeta.
  cbn [Registry.updatedState]. rewrite cursor_withCursor. cbn [lastIndex].
  rewrite IH. cbn [seq fmap list_fmap]. f_equal.
  - f_equal. lia.
  - rewrite <- fmap_S_seq, <- list_fmap_compose. apply list_fmap_ext.
    intros _ j _. simpl.
    rewrite cursor_withCursor. cbn [lastIndex].
    rewrite <- Nat.add_assoc, Nat.Div0.add_mod_idemp_l. f_equal; lia.
Qed.

Lemma rotation_inj_le (n start i j : nat) :
  (i <= j)%nat -> (j < n)%nat ->
  ((start + i) mod n = (start + j) mod n)%nat -> i = j.
Proof.
  intros Hle Hj E.
  pose proof (Nat.div_mod_eq (start + i) n) as Ei.
  pose proof (Nat.div_mod_eq (start + j) n) as Ej.
  rewrite E in Ei.
  assert (Hq : ((start + i) / n <= (start + j) / n)%nat)
    by (apply Nat.Div0.div_le_mono; lia).
  destruct (decide ((start + j) / n - (start + i) / n = 0)%nat) as [Hz | Hnz]; [nia |].
  assert ((n <= j - i)%nat) by nia. lia.
Qed.

Lemma rotation_NoDup (n start : nat) :
  NoDup ((fun j => (start + j) mod n)%nat <$> seq 0 n).
Proof.
  apply NoDup_fmap_2_strong; [| apply NoDup_seq].
  intros i j Hi Hj E. apply elem_of_seq in Hi, Hj.
  destruct (Nat.le_ge_cases i j).
  - apply (rotation_inj_le n start); [lia | lia | exact E].
  - symmetry. apply (rotation_inj_le n start); [lia | lia | now symmetry].
Qed.

(** C6.  On an empty pool [selectFromPool] answers [null].  On a
    non-empty pool it answers the entry at index
    [(lastIndex + 1) mod pool.length], [lastIndex] being that of the
    requested format, together with a state whose [lastIndex] for that
    format is this index and whose other cursor is unchanged; and
    [pool.length] successive calls, each fed the state returned by the one
    before, select every index of the pool exactly once. *)
Theorem selectFromPool_round_robin (pool : list TemplateWithMeta)
    (state : RotationState) (format : OutputFormat) :
  (pool = [] -> Registry.selectFromPool pool state format = None)
  /\ (pool <> [] ->
      let next := ((lastIndex (Registry.cursor state format) + 1) mod length pool)%nat in
      (exists entry state',
         Registry.selectFromPool pool state format
         = Some {| Registry.selected := Some entry; Registry.updatedState := state' |}
         /\ pool !! next = Some entry
         /\ lastIndex (Registry.cursor state' format) = next
         /\ (forall other, other <> format ->
               Registry.cursor state' other = Registry.cursor state other))
      /\ Registry.successiveIndices (length pool) pool state format
         ≡ₚ seq 0 (length pool)).
Proof.
  split; [intros ->; reflexivity |].
  intros Hne next.
  assert (Hlen : length pool <> 0%nat) by (destruct pool; simpl; congruence).
  assert (Hnext : (next < length pool)%nat) by (apply Nat.mod_upper_bound; exact Hlen).
  split.
  - destruct (lookup_lt_is_Some_2 pool next Hnext) as [entry Hentry].
    exists entry, (Registry.withCursor state format {| lastIndex := next |}).
    split; [| split; [| split]].
    + rewrite selectFromPool_nonempty by assumption. cbn zeta. fold next.
      now rewrite Hentry.
    + exact Hentry.
    + now rewrite cursor_withCursor.
    + intros other Hother. now apply cursor_withCursor_other.
  - rewrite successiveIndices_formula by assumption.
    apply submseteq_length_Permutation.
    + apply NoDup_submseteq.
      * apply (rotation_NoDup (length pool)
                 (lastIndex (Registry.cursor state format) + 1)).
      * intros i Hi. apply list_elem_of_fmap in Hi as (j & -> & _).
        apply elem_of_seq. split; [lia |]. simpl.
        now apply Nat.mod_upper_bound.
    + now rewrite length_fmap.
Qed.

Lemma selectFromPool_round_robin_witness :
  Registry.successiveIndices 3 Sample.pool (Sample.rotation 1) png ≡ₚ [0; 1; 2]%nat.
Proof.
  exact (proj2 (proj2 (selectFromPool_round_robin Sample.pool (Sample.rotation 1) png)
                  ltac:(discriminate))).
Defined.

(** ** Image cache *)

Lemma set_ok (cache : list (string * Image)) (url : string) (img : Image) :
  url <> EmptyString ->
  NoDup (JsMap.keys cache) -> EmptyString ∉ JsMap.keys cache ->
  NoDup (JsMap.keys (JsMap.set cache url img))
  /\ (EmptyString ∉ JsMap.keys (JsMap.set cache url img))
  /\ (JsMap.size (JsMap.set cache url img) <= S (JsMap.size cache))%nat.
Proof.
  intros Hurl Hnd Hne.
  assert (Hsize : length (JsMap.keys (JsMap.set cache url img))
                  = JsMap.size (JsMap.set cache url img))
    by (unfold JsMap.keys, JsMap.size; now rewrite length_map).
  assert (Hsize0 : length (JsMap.keys cache) = JsMap.size cache)
    by (unfold JsMap.keys, JsMap.size; now rewrite length_map).
  split; [now apply NoDup_keys_set |].
  destruct (keys_set cache url img) as [E | [Hout E]]; rewrite <- Hsize, E.
  - split; [assumption | lia].
  - split.
    + rewrite elem_of_app, list_elem_of_singleton. intros [? | ?]; congruence.
    + rewrite length_app. simpl. lia.
Qed.

(** The store step keeps the invariant, whatever ran before it; this
    covers calls that interleave at their suspension points. *)
Lemma store_ok (cache : list (string * Image)) (url : string) (img : Image) :
  url <> EmptyString -> cache_ok cache -> cache_ok (AssetLoader.store cache url img).
Proof.
  intros Hurl (Hnd & Hne & Hsize). unfold AssetLoader.store.
  destruct (AssetLoader.MAX_CACHE_SIZE <=? JsMap.size cache)%nat eqn:Hfull.
  - destruct cache as [|[k0 v0] rest].
    { apply Nat.leb_le in Hfull. unfold AssetLoader.MAX_CACHE_SIZE in Hfull.
      simpl in Hfull. lia. }
    cbn [JsMap.firstKey].
    assert (Hk0 : Js.truthy k0 = true).
    { destruct k0; [| reflexivity]. exfalso. apply Hne. left. }
    rewrite Hk0, delete_first.
    simpl in Hnd. apply NoDup_cons in Hnd as [_ Hnd].
    simpl in Hne. apply not_elem_of_cons in Hne as [_ Hne].
    destruct (set_ok rest url img Hurl Hnd Hne) as (? & ? & ?).
    repeat split; auto. unfold JsMap.size in *. simpl in Hsize. lia.
  - apply Nat.leb_gt in Hfull.
    destruct (set_ok cache url img Hurl Hnd Hne) as (? & ? & ?).
    repeat split; auto. lia.
Qed.

Section Loader.

Variable host : AssetLoader.Host.
Hypothesis fetch_empty : forall n, AssetLoader.fetch host n EmptyString = None.

Lemma download_url (n : nat) (url : string) (img : Image) :
  AssetLoader.download host n url = Ok img -> url <> EmptyString.
Proof.
  intros H ->. unfold AssetLoader.download in H. now rewrite fetch_empty in H.
Qed.

Lemma loadRemoteImage_ok (url : string) (st : AssetLoader.State) :
  cache_ok (AssetLoader.imageCache st) ->
  cache_ok (AssetLoader.imageCache (AssetLoader.loadRemoteImage host url st).1).
Proof.
  intros Hok. unfold AssetLoader.loadRemoteImage.
  destruct (JsMap.get _ url); [exact Hok |].
  cbn [AssetLoader.fetched AssetLoader.imageCache].
  destruct (AssetLoader.download host _ url) as [img | e] eqn:E; [| exact Hok].
  cbn [fst AssetLoader.imageCache]. apply store_ok; [| exact Hok].
  now apply (download_url _ _ _ E).
Qed.





End Loader.

Lemma emptyState_ok : cache_ok (AssetLoader.imageCache AssetLoader.emptyState).
Proof.
  repeat split; simpl; [constructor | apply not_elem_of_nil |].
  unfold AssetLoader.MAX_CACHE_SIZE. lia.
Qed.

Lemma loadRemoteImage_hit (host : AssetLoader.Host) (url : string)
    (st : AssetLoader.State) (img : Image) :
  JsMap.get (AssetLoader.imageCache st) url = Some img ->
  AssetLoader.loadRemoteImage host url st = (st, Ok img).
Proof. intros H. unfold AssetLoader.loadRemoteImage. now rewrite H. Qed.





(** ** Filter chain *)



Section Xfade.

Variables (n : nat) (frameDurations : list Q) (transitionType : string)
          (transitionDuration : Q).




End Xfade.

(** ** Stack discipline of the painters *)

Section Discipline.

Variable host : Canvas.Host.

Lemma disc_ret {A} (a : A) : disciplined host Keeps (Canvas.ret a).
Proof.
  intros c c' r [= <- <-]. repeat split; try discriminate; eauto.
Qed.

Lemma disc_get : disciplined host Keeps Canvas.get.
Proof.
  intros c c' r [= <- <-]. repeat split; try discriminate; eauto.
Qed.

Lemma disc_modify (f : Canvas.DrawState -> Canvas.DrawState) :
  disciplined host Keeps (Canvas.modify f).
Proof.
  intros c c' r [= <- <-]. repeat split; try discriminate; eauto.
Qed.

Lemma disc_invoke (call : Canvas.Call) : disciplined host Keeps (Canvas.invoke host call).
Proof.
  intros c c' r. unfold Canvas.invoke.
  destruct (Canvas.throws host c call) eqn:E; intros [= <- <-].
  - split; [intros e [= <-]; reflexivity |]. split.
    + intros Hq. rewrite Hq in E. discriminate.
    + split; [discriminate |]. intros e _. now exists [].
  - split; [discriminate |]. split; [eauto |]. split; [| discriminate].
    intros _ _. now destruct call.
Qed.

Lemma disc_restore : disciplined host Pops Canvas.restore.
Proof.
  intros c c' r. unfold Canvas.restore.
  destruct (Canvas.saved c) as [|s rest] eqn:E; intros [= <- <-].
  - split; [discriminate |]. split; [eauto |]. intros s0 st H. congruence.
  - split; [discriminate |]. split; [eauto |]. intros s0 st [= -> ->].
    split; [auto | discriminate].
Qed.

Lemma disc_bind {A B} (u : StackUse) (m : Canvas.M A) (k : A -> Canvas.M B) :
  disciplined host Keeps m -> (forall a, disciplined host u (k a)) ->
  disciplined host u (Canvas.bind m k).
Proof.
  intros Hm Hk c c'' r. unfold Canvas.bind.
  destruct (m c) as [c' [a | e]] eqn:Em.
  - destruct (Hm _ _ _ Em) as (_ & _ & Hs & _). specialize (Hs a eq_refl).
    intros Ek. destruct (Hk a _ _ _ Ek) as (H1 & H2 & H3).
    split; [exact H1 |]. split; [exact H2 |].
    destruct u; rewrite Hs in H3; exact H3.
  - destruct (Hm _ _ _ Em) as (H1 & H2 & _ & Ht). intros [= <- <-].
    split; [intros e' [= <-]; now apply H1 |]. split.
    + intros Hq. destruct (H2 Hq) as [a ?]. discriminate.
    + destruct u.
      * split; [discriminate |]. intros e' [= <-]. eauto.
      * intros s0 st Hst. split; [discriminate |]. intros e' [= <-].
        destruct (Ht e eq_refl) as [extra ->]. exists extra. now rewrite Hst.
Qed.

Lemma disc_save (k : Canvas.M unit) :
  disciplined host Pops k -> disciplined host Keeps (Canvas.bind Canvas.save (fun _ => k)).
Proof.
  intros Hk c c' r. unfold Canvas.bind, Canvas.save. intros E.
  destruct (Hk _ _ _ E) as (H1 & H2 & H3).
  split; [exact H1 |]. split; [exact H2 |].
  destruct (H3 (Canvas.cur c) (Canvas.saved c) eq_refl) as [Hok Hthrow].
  split.
  - intros a Ha. now destruct (Hok a Ha).
  - intros e He. destruct (Hthrow e He) as [extra ->].
    exists (extra ++ [Canvas.cur c]). now rewrite <- app_assoc.
Qed.

Lemma disc_ext {A} (u : StackUse) (m m' : Canvas.M A) :
  (forall c, m c = m' c) -> disciplined host u m -> disciplined host u m'.
Proof. intros E H c c' r Hr. apply H. now rewrite E. Qed.

Lemma bind_assoc {A B C} (m : Canvas.M A) (f : A -> Canvas.M B) (g : B -> Canvas.M C) c :
  Canvas.bind (Canvas.bind m f) g c = Canvas.bind m (fun x => Canvas.bind (f x) g) c.
Proof. unfold Canvas.bind. destruct (m c) as [c' [a | e]]; reflexivity. Qed.

(** [save] followed by a setter opens a scope that [k] must close. *)
Lemma disc_scope (setter : Canvas.M unit) (k : Canvas.M unit) :
  disciplined host Keeps setter -> disciplined host Pops k ->
  disciplined host Keeps
    (Canvas.bind (Canvas.bind Canvas.save (fun _ => setter)) (fun _ => k)).
Proof.
  intros Hs Hk.
  apply (disc_ext Keeps (Canvas.bind Canvas.save (fun _ => Canvas.bind setter (fun _ => k)))).
  - intros c. symmetry. apply bind_assoc.
  - apply disc_save. apply disc_bind; [exact Hs | intros _; exact Hk].
Qed.

Lemma disc_when (b : bool) (m : Canvas.M unit) :
  disciplined host Keeps m -> disciplined host Keeps (Canvas.when b m).
Proof. destruct b; [auto | intros _; apply disc_ret]. Qed.

Lemma disc_forEach {A} (l : list A) (body : A -> Canvas.M unit) :
  (forall a, disciplined host Keeps (body a)) -> disciplined host Keeps (Canvas.forEach l body).
Proof.
  intros H. induction l as [|a l IH]; simpl; [apply disc_ret |].
  apply disc_bind; [apply H | intros _; exact IH].
Qed.

Ltac discipline :=
  repeat first
    [ apply disc_ret | apply disc_get | apply disc_modify | apply disc_invoke
    | apply disc_restore | apply disc_save | apply disc_scope
    | apply disc_when | apply disc_forEach; intros
    | apply disc_bind; [| intros]
    | match goal with |- context [match ?x with _ => _ end] => destruct x end ].

Lemma disc_roundedRectPath (x y w h r : Q) :
  disciplined host Keeps (ImageUtil.roundedRectPath host x y w h r).
Proof. unfold ImageUtil.roundedRectPath. discipline. Qed.

Lemma disc_roundedRect (x y w h r : Q) :
  disciplined host Keeps (PngRenderer.roundedRect host x y w h r).
Proof. unfold PngRenderer.roundedRect. discipline. Qed.

Lemma disc_drawImageCover img x y w h r :
  disciplined host Keeps (ImageUtil.drawImageCover host img x y w h r).
Proof.
  unfold ImageUtil.drawImageCover. cbn zeta.
  apply disc_save. apply disc_bind.
  - apply disc_when. apply disc_bind; [apply disc_roundedRectPath | intros; apply disc_invoke].
  - intros _. destruct (ImageUtil.coverSource _ _ _) as [[[sx sy] sw] sh]. discipline.
Qed.

Lemma disc_drawImageContain img x y w h r :
  disciplined host Keeps (ImageUtil.drawImageContain host img x y w h r).
Proof.
  unfold ImageUtil.drawImageContain. cbn zeta.
  apply disc_save. apply disc_bind.
  - apply disc_when. apply disc_bind; [apply disc_roundedRectPath | intros; apply disc_invoke].
  - intros _. destruct (ImageUtil.containDest _ _ _ _ _) as [[[dx dy] dw] dh]. discipline.
Qed.

Lemma disc_drawRect b layer colorVars :
  disciplined host Keeps (PngRenderer.drawRect host b layer colorVars).
Proof.
  unfold PngRenderer.drawRect.
  apply disc_bind; [apply disc_modify | intros _].
  apply disc_bind.
  - destruct (PngRenderer.positive _).
    + apply disc_bind; [apply disc_roundedRect | intros; apply disc_invoke].
    + apply disc_invoke.
  - intros _. destruct (stroke layer); [| apply disc_ret].
    apply disc_bind; [apply disc_modify | intros _].
    apply disc_bind; [apply disc_modify | intros _].
    destruct (PngRenderer.positive _).
    + apply disc_bind; [apply disc_roundedRect | intros; apply disc_invoke].
    + apply disc_invoke.
Qed.

Lemma disc_drawImage b layer userImages :
  disciplined host Keeps (PngRenderer.drawImage host b layer userImages).
Proof.
  unfold PngRenderer.drawImage.
  destruct (userImages !! image_index layer) as [img|]; [| apply disc_ret].
  assert (Hfit : disciplined host Keeps
            (if PngRenderer.is_cover (image_fit layer)
             then ImageUtil.drawImageCover host img (x b) (y b) (width b) (height b)
                    (borderRadius b)
             else ImageUtil.drawImageContain host img (x b) (y b) (width b) (height b)
                    (borderRadius b))).
  { destruct (PngRenderer.is_cover _);
      [apply disc_drawImageCover | apply disc_drawImageContain]. }
  destruct (shadow layer) as [sh|].
  - apply disc_scope; [apply disc_modify |].
    apply disc_bind; [exact Hfit | intros _; apply disc_restore].
  - apply disc_bind; [apply disc_ret | intros _].
    apply disc_bind; [exact Hfit | intros _; apply disc_ret].
Qed.

Lemma disc_drawTextWithSpacing text x y spacing :
  disciplined host Keeps (PngRenderer.drawTextWithSpacing host text x y spacing).
Proof.
  unfold PngRenderer.drawTextWithSpacing.
  apply disc_bind; [apply disc_get | intros c].
  apply disc_forEach. intros [char currentX]. apply disc_invoke.
Qed.

Lemma disc_drawText b layer variables colorVars :
  disciplined host Keeps (PngRenderer.drawText host b layer variables colorVars).
Proof.
  unfold PngRenderer.drawText. cbn zeta.
  destruct (negb _); [apply disc_ret |].
  apply disc_bind; [apply disc_modify | intros _].
  apply disc_bind; [apply disc_modify | intros _].
  apply disc_bind; [apply disc_modify | intros _].
  apply disc_bind; [apply disc_get | intros c].
  apply disc_forEach. intros [i line].
  destruct (letterSpacing layer) as [spacing|]; [| apply disc_invoke].
  destruct (Num.truthy spacing); [apply disc_drawTextWithSpacing | apply disc_invoke].
Qed.

Lemma disc_drawLogo b layer logoImage :
  disciplined host Keeps (PngRenderer.drawLogo host b layer logoImage).
Proof.
  unfold PngRenderer.drawLogo.
  destruct logoImage as [img|]; [| apply disc_ret]. cbn zeta.
  apply disc_bind.
  - destruct (logo_background layer) as [bg|]; [| apply disc_ret].
    apply disc_when. apply disc_bind; [apply disc_modify | intros _; apply disc_invoke].
  - intros _. destruct (PngRenderer.is_cover _);
      [apply disc_drawImageCover | apply disc_drawImageContain].
Qed.

Lemma disc_drawAccentBar b layer colorVars :
  disciplined host Keeps (PngRenderer.drawAccentBar host b layer colorVars).
Proof.
  unfold PngRenderer.drawAccentBar.
  apply disc_bind; [apply disc_modify | intros _; apply disc_invoke].
Qed.

Lemma disc_drawVariant layer variables colorVars userImages logoImage :
  disciplined host Keeps
    (PngRenderer.drawVariant host layer variables colorVars userImages logoImage).
Proof.
  unfold PngRenderer.drawVariant. destruct (kind layer).
  - apply disc_drawImage.
  - apply disc_drawText.
  - apply disc_drawRect.
  - apply disc_drawLogo.
  - apply disc_drawAccentBar.
  - apply disc_ret.
Qed.

Lemma disc_drawLayer layer variables colorVars userImages logoImage :
  disciplined host Keeps
    (PngRenderer.drawLayer host layer variables colorVars userImages logoImage).
Proof.
  unfold PngRenderer.drawLayer. destruct (PngRenderer.translucent layer) as [o|].
  - apply disc_scope; [apply disc_modify |].
    apply disc_bind; [apply disc_drawVariant | intros _; apply disc_restore].
  - apply disc_bind; [apply disc_ret | intros _].
    apply disc_bind; [apply disc_drawVariant | intros _; apply disc_ret].
Qed.

Lemma disc_addColorStops colors n colorVars :
  disciplined host Keeps (PngRenderer.addColorStops host colors n colorVars).
Proof.
  induction colors as [|[i color] rest IH]; simpl; [apply disc_ret |].
  apply disc_bind; [apply disc_invoke | intros _].
  apply disc_bind; [exact IH | intros stops; apply disc_ret].
Qed.

Lemma disc_drawBackground frame w h colorVars userImages :
  disciplined host Keeps (PngRenderer.drawBackground host frame w h colorVars userImages).
Proof.
  unfold PngRenderer.drawBackground. destruct (background frame) as [color | colors angle | index].
  - apply disc_bind; [apply disc_modify | intros _; apply disc_invoke].
  - cbn zeta. apply disc_bind; [apply disc_addColorStops | intros stops].
    apply disc_bind; [apply disc_modify | intros _; apply disc_invoke].
  - destruct (userImages !! index); [apply disc_drawImageCover | apply disc_ret].
Qed.

Lemma disc_paintFrame t frame variables userImages logoImage :
  disciplined host Keeps (PngRenderer.paintFrame host t frame variables userImages logoImage).
Proof.
  unfold PngRenderer.paintFrame. cbn zeta.
  apply disc_bind; [apply disc_drawBackground | intros _].
  apply disc_forEach. intros layer.
  destruct (PngRenderer.hidden layer); [apply disc_ret | apply disc_drawLayer].
Qed.

End Discipline.

(** ** drawLayer *)

Lemma with_alpha_in_range (o : Q) (s : Canvas.DrawState) :
  (0 <= o)%Q -> (o < 1)%Q ->
  (if Num.le 0 o && Num.le o 1 then Canvas.with_globalAlpha o s else s)
  = Canvas.with_globalAlpha o s.
Proof.
  intros H0 H1.
  assert (E0 : Num.le 0 o = true) by now apply Qle_bool_iff.
  assert (E1 : Num.le o 1 = true) by (apply Qle_bool_iff; lra).
  now rewrite E0, E1.
Qed.

Lemma translucent_Some (layer : LayerDefinition) (o : Q) :
  opacity (base layer) = Some o -> (o < 1)%Q -> PngRenderer.translucent layer = Some o.
Proof.
  intros E H. unfold PngRenderer.translucent. rewrite E.
  assert (G : Num.gt 1 o = true) by now apply gt_true.
  now rewrite G.
Qed.

(** C3 (amended).  For a layer with opacity [o], [0 <= o < 1], [drawLayer]
    saves the drawing state, sets [globalAlpha] to [o] and runs the painter
    of the layer in that state.  When the painter returns, the state is
    restored: the drawing state, [globalAlpha] included, and the stack of
    saved states are what they were before the layer.  When the painter
    throws, [drawLayer] passes the exception on without restoring: the
    saved state is still on the stack. *)
Theorem drawLayer_scoped_alpha (host : Canvas.Host) (layer : LayerDefinition)
    (variables : RenderVariables) (colorVars : gmap string string)
    (userImages : list Image) (logoImage : option Image) (o : Q) (c : Canvas.Context) :
  opacity (base layer) = Some o -> (0 <= o)%Q -> (o < 1)%Q ->
  let c1 := {| Canvas.cur := Canvas.with_globalAlpha o (Canvas.cur c);
               Canvas.saved := Canvas.cur c :: Canvas.saved c;
               Canvas.path := Canvas.path c;
               Canvas.painted := Canvas.painted c |} in
  forall c2 r2,
    PngRenderer.drawVariant host layer variables colorVars userImages logoImage c1
    = (c2, r2) ->
    match r2 with
    | Ok _ =>
        PngRenderer.drawLayer host layer variables colorVars userImages logoImage c
        = ({| Canvas.cur := Canvas.cur c;
              Canvas.saved := Canvas.saved c;
              Canvas.path := Canvas.path c2;
              Canvas.painted := Canvas.painted c2 |}, Ok tt)
    | Throw e =>
        PngRenderer.drawLayer host layer variables colorVars userImages logoImage c
        = (c2, Throw e)
        /\ exists extra, Canvas.saved c2 = extra ++ Canvas.cur c :: Canvas.saved c
    end.
Proof.
  intros Ho H0 H1 c1 c2 r2 Hdraw.
  destruct (disc_drawVariant host layer variables colorVars userImages logoImage _ _ _ Hdraw)
    as (_ & _ & Hok & Hthrow).
  assert (Hrun : PngRenderer.drawLayer host layer variables colorVars userImages logoImage c
                 = match r2 with
                   | Ok _ => Canvas.restore c2
                   | Throw e => (c2, Throw e)
                   end).
  { unfold PngRenderer.drawLayer. rewrite (translucent_Some layer o Ho H1).
    unfold Canvas.bind at 1 2. unfold Canvas.save, Canvas.set_globalAlpha, Canvas.modify.
    cbn [Canvas.cur Canvas.saved Canvas.path Canvas.painted].
    rewrite with_alpha_in_range by assumption.
    unfold Canvas.bind. fold c1. rewrite Hdraw. now destruct r2. }
  rewrite Hrun. destruct r2 as [[] | e].
  - unfold Canvas.restore. rewrite (Hok tt eq_refl). reflexivity.
  - split; [reflexivity |]. destruct (Hthrow e eq_refl) as [extra ->]. now exists extra.
Qed.

Lemma drawLayer_scoped_alpha_witness :
  PngRenderer.drawLayer Sample.quietCanvas Sample.halfRect Sample.variables
    (LayoutEngine.buildColorVariables Sample.variables) [] None Canvas.createContext
  = ({| Canvas.cur := Canvas.cur Canvas.createContext;
        Canvas.saved := [];
        Canvas.path := [];
        Canvas.painted :=
          [ {| Canvas.op := Canvas.FillRect 0 0 100 50;
               Canvas.under :=
                 Canvas.with_globalAlpha (1 # 2)
                   (Canvas.cur
                      (Canvas.set_fillStyle (Canvas.Solid (Js.Str "#235BAA")) Canvas.createContext).1);
               Canvas.along := [] |} ] |}, Ok tt).
Proof.
  exact (drawLayer_scoped_alpha Sample.quietCanvas Sample.halfRect Sample.variables
           (LayoutEngine.buildColorVariables Sample.variables) [] None (1 # 2)
           Canvas.createContext eq_refl ltac:(vm_compute; discriminate) ltac:(reflexivity)
           _ (Ok tt) ltac:(vm_compute; reflexivity)).
Defined.

(** C3 as stated fails when the painter throws: with a binding whose
    [fillRect] raises, drawing a half-transparent rectangle on a fresh
    context ends in that exception with [globalAlpha] still one half and
    one saved state left on the stack. *)
Lemma drawLayer_scoped_alpha_counterexample :
  (PngRenderer.drawLayer Sample.failingFillRect Sample.halfRect Sample.variables
     (LayoutEngine.buildColorVariables Sample.variables) [] None Canvas.createContext).2
  = Throw (HostError "canvas")
  /\ ~ (Canvas.globalAlpha
          (Canvas.cur
             (PngRenderer.drawLayer Sample.failingFillRect Sample.halfRect Sample.variables
                (LayoutEngine.buildColorVariables Sample.variables) [] None
                Canvas.createContext).1)
        == Canvas.globalAlpha (Canvas.cur Canvas.createContext))%Q
  /\ length
       (Canvas.saved
          (PngRenderer.drawLayer Sample.failingFillRect Sample.halfRect Sample.variables
             (LayoutEngine.buildColorVariables Sample.variables) [] None
             Canvas.createContext).1)
     <> length (Canvas.saved Canvas.createContext).
Proof.
  split; [| split].
  - vm_compute. reflexivity.
  - vm_compute. discriminate.
  - vm_compute. discriminate.
Qed.

(** ** Missing images *)

Lemma context_eta (c : Canvas.Context) :
  {| Canvas.cur := Canvas.cur c; Canvas.saved := Canvas.saved c;
     Canvas.path := Canvas.path c; Canvas.painted := Canvas.painted c |} = c.
Proof. now destruct c. Qed.

Lemma drawVariant_missing (host : Canvas.Host) (layer : LayerDefinition)
    (variables : RenderVariables) (colorVars : gmap string string)
    (userImages : list Image) (logoImage : option Image) (c : Canvas.Context) :
  missingImage userImages logoImage layer = true ->
  PngRenderer.drawVariant host layer variables colorVars userImages logoImage c = (c, Ok tt).
Proof.
  unfold missingImage, PngRenderer.drawVariant.
  destruct (kind layer) as [l | l | l | l | l | l]; try discriminate.
  - unfold PngRenderer.drawImage. destruct (userImages !! image_index l); [discriminate |].
    reflexivity.
  - unfold PngRenderer.drawLogo. destruct logoImage; [discriminate | reflexivity].
Qed.

Lemma drawLayer_missing (host : Canvas.Host) (layer : LayerDefinition)
    (variables : RenderVariables) (colorVars : gmap string string)
    (userImages : list Image) (logoImage : option Image) (c : Canvas.Context) :
  missingImage userImages logoImage layer = true ->
  PngRenderer.drawLayer host layer variables colorVars userImages logoImage c = (c, Ok tt).
Proof.
  intros Hmiss. unfold PngRenderer.drawLayer.
  destruct (PngRenderer.translucent layer) as [o|].
  - unfold Canvas.bind at 1 2. unfold Canvas.save, Canvas.set_globalAlpha, Canvas.modify.
    cbn [Canvas.cur Canvas.saved Canvas.path Canvas.painted].
    unfold Canvas.bind. rewrite (drawVariant_missing _ _ _ _ _ _ _ Hmiss).
    unfold Canvas.restore. cbn [Canvas.cur Canvas.saved Canvas.path Canvas.painted].
    now rewrite context_eta.
  - unfold Canvas.bind, Canvas.ret. now rewrite (drawVariant_missing _ _ _ _ _ _ _ Hmiss).
Qed.

Lemma forEach_skip {A} (skip : A -> bool) (body : A -> Canvas.M unit) (l : list A)
    (c : Canvas.Context) :
  (forall a c, skip a = true -> body a c = (c, Ok tt)) ->
  Canvas.forEach l body c = Canvas.forEach (filter (fun a => skip a = false) l) body c.
Proof.
  intros Hskip. revert c. induction l as [|a l IH]; intros c; [reflexivity |].
  rewrite filter_cons. destruct (decide (skip a = false)) as [Hkeep | Hdrop].
  - cbn [Canvas.forEach]. unfold Canvas.bind.
    destruct (body a c) as [c' [[] | e]]; [apply IH | reflexivity].
  - apply not_false_is_true in Hdrop. cbn [Canvas.forEach]. unfold Canvas.bind.
    rewrite (Hskip a c Hdrop). apply IH.
Qed.

Lemma paintFrame_withoutMissing (host : Canvas.Host) (t : TemplateDefinition)
    (frame : FrameDefinition) (variables : RenderVariables) (userImages : list Image)
    (logoImage : option Image) (c : Canvas.Context) :
  PngRenderer.paintFrame host t frame variables userImages logoImage c
  = PngRenderer.paintFrame host t (withoutMissing userImages logoImage frame)
      variables userImages logoImage c.
Proof.
  unfold PngRenderer.paintFrame. cbn zeta. unfold Canvas.bind.
  change (PngRenderer.drawBackground host (withoutMissing userImages logoImage frame))
    with (PngRenderer.drawBackground host frame).
  destruct (PngRenderer.drawBackground host frame _ _ _ userImages c) as [c' [[] | e]];
    [| reflexivity].
  cbn [layers withoutMissing].
  apply (forEach_skip (missingImage userImages logoImage)).
  intros layer c0 Hmiss. destruct (PngRenderer.hidden layer); [reflexivity |].
  now apply drawLayer_missing.
Qed.

(** C7.  In a frame that exists, a layer whose image is missing (an image
    layer whose index is out of range of the images supplied, a logo layer
    without a logo) is drawn without an exception and leaves the context,
    and so the pixels, as they were; so does a background image whose
    index is out of range.  The frame is painted exactly as the same frame
    without those layers.  [renderPng] throws only what the canvas binding
    throws, and when the binding does not throw it returns the picture. *)
Theorem renderPng_missing_images (host : Canvas.Host) (rc : PngRenderer.PngRenderContext)
    (frame : FrameDefinition) :
  let t := PngRenderer.ctx_template rc in
  let variables := PngRenderer.ctx_variables rc in
  let colorVars := LayoutEngine.buildColorVariables variables in
  let userImages := PngRenderer.userImages rc in
  let logoImage := PngRenderer.logoImage rc in
  frames t !! default 0%nat (PngRenderer.frameIndex rc) = Some frame ->
  (forall layer c,
     layer ∈ layers frame -> missingImage userImages logoImage layer = true ->
     PngRenderer.drawLayer host layer variables colorVars userImages logoImage c
     = (c, Ok tt))
  /\ (forall index w h c,
        background frame = BgImage index -> userImages !! index = None ->
        PngRenderer.drawBackground host frame w h colorVars userImages c = (c, Ok tt))
  /\ (forall c,
        PngRenderer.paintFrame host t frame variables userImages logoImage c
        = PngRenderer.paintFrame host t (withoutMissing userImages logoImage frame)
            variables userImages logoImage c)
  /\ (forall e, PngRenderer.renderPng host rc = Throw e -> e = HostError "canvas")
  /\ (quiet host -> exists png, PngRenderer.renderPng host rc = Ok png).
Proof.
  intros t variables colorVars userImages logoImage Hframe.
  split; [| split; [| split; [| split]]].
  - intros layer c _ Hmiss. now apply drawLayer_missing.
  - intros index w h c Hbg Hnone. unfold PngRenderer.drawBackground.
    rewrite Hbg. fold userImages. now rewrite Hnone.
  - intros c. apply paintFrame_withoutMissing.
  - intros e. unfold PngRenderer.renderPng. fold t. rewrite Hframe.
    destruct (PngRenderer.paintFrame _ _ _ _ _ _ _) as [c' r] eqn:E.
    destruct (disc_paintFrame host _ _ _ _ _ _ _ _ E) as (H1 & _).
    destruct r as [u | e']; [discriminate |]. intros [= <-]. now apply H1.
  - intros Hq. unfold PngRenderer.renderPng. fold t. rewrite Hframe.
    destruct (PngRenderer.paintFrame _ _ _ _ _ _ _) as [c' r] eqn:E.
    destruct (disc_paintFrame host _ _ _ _ _ _ _ _ E) as (_ & H2 & _).
    destruct (H2 Hq) as [u ->]. eauto.
Qed.

Lemma renderPng_missing_images_witness :
  exists png, PngRenderer.renderPng Sample.quietCanvas (Sample.pngContext Sample.still)
              = Ok png.
Proof.
  refine (proj2 (proj2 (proj2 (proj2
            (renderPng_missing_images Sample.quietCanvas (Sample.pngContext Sample.still)
               (Sample.frameOf None [Sample.photo 3; Sample.halfRect]) eq_refl)))) _).
  intros c call. reflexivity.
Defined.

(** ** renderMp4 *)

Section Mp4.

Variable canvas : Canvas.Host.
Variable host : Mp4Renderer.Host.

Lemma renderPng_throws (rc : PngRenderer.PngRenderContext) (e : Error) :
  PngRenderer.renderPng canvas rc = Throw e ->
  e = HostError "canvas" \/ exists rest, e = JsError (String "F" rest).
Proof.
  unfold PngRenderer.renderPng.
  destruct (frames _ !! _) as [frame|].
  - destruct (PngRenderer.paintFrame _ _ _ _ _ _ _) as [c' r] eqn:E.
    destruct (disc_paintFrame canvas _ _ _ _ _ _ _ _ E) as (H1 & _).
    destruct r as [u | e']; [discriminate |]. intros [= <-]. left. now apply H1.
  - intros [= <-]. right. eexists. reflexivity.
Qed.

(** The frame loop only adds to the trace, and what it throws is not
    the error of the frame-count check. *)
Lemma renderFrames_trace (rc : Mp4Renderer.Mp4RenderContext) (tmpDir : string)
    (indices : list nat) (framePaths : list string) (trace : list Mp4Renderer.Event) :
  exists more,
    (Mp4Renderer.renderFrames canvas host rc tmpDir indices framePaths trace).1
    = trace ++ more
    /\ forall e,
         (Mp4Renderer.renderFrames canvas host rc tmpDir indices framePaths trace).2
         = Throw e ->
         e <> JsError "MP4 templates require at least 2 frames".
Proof.
  revert framePaths trace. induction indices as [|i rest IH]; intros framePaths trace.
  - exists []. simpl. split; [now rewrite app_nil_r | discriminate].
  - cbn [Mp4Renderer.renderFrames].
    destruct (PngRenderer.renderPng canvas _) as [png | e] eqn:E.
    + destruct (Mp4Renderer.writeFileSync host _ png).
      * destruct (IH (framePaths ++ [Mp4Renderer.path_join tmpDir
                                        ("frame_" +:+ Mp4Renderer.padStart3 (pretty i)
                                         +:+ ".png")])
                    ((trace ++ [Mp4Renderer.RenderFrame i])
                       ++ [Mp4Renderer.WriteFile
                             (Mp4Renderer.path_join tmpDir
                                ("frame_" +:+ Mp4Renderer.padStart3 (pretty i)
                                 +:+ ".png"))]))
          as (more & -> & Hne).
        eexists. split; [| exact Hne]. rewrite <- !app_assoc. reflexivity.
      * eexists. cbn [fst snd]. split; [rewrite <- app_assoc; reflexivity |].
        intros e [= <-]. discriminate.
    + eexists. cbn [fst snd]. split; [reflexivity |]. intros e' [= <-].
      destruct (renderPng_throws _ _ E) as [-> | [rest' ->]]; discriminate.
Qed.

Lemma renderMp4_try_trace (rc : Mp4Renderer.Mp4RenderContext) (tmpDir outputPath : string)
    (trace : list Mp4Renderer.Event) :
  exists more,
    (Mp4Renderer.renderMp4_try canvas host rc tmpDir outputPath trace).1 = trace ++ more
    /\ forall e,
         (Mp4Renderer.renderMp4_try canvas host rc tmpDir outputPath trace).2 = Throw e ->
         e <> JsError "MP4 templates require at least 2 frames".
Proof.
  unfold Mp4Renderer.renderMp4_try. cbn zeta.
  destruct (renderFrames_trace rc tmpDir
              (seq 0 (length (frames (Mp4Renderer.ctx_template rc)))) [] trace)
    as (more & Htrace & Hne).
  destruct (Mp4Renderer.renderFrames _ _ _ _ _ _ _) as [trace1 [framePaths | e]];
    cbn [fst snd] in *; subst trace1.
  - unfold Mp4Renderer.buildMp4WithXfade. cbn zeta.
    destruct (Mp4Renderer.run host _) as [message|].
    + eexists. cbn [fst snd]. split; [rewrite <- app_assoc; reflexivity |].
      intros e [= <-]. discriminate.
    + destruct (Mp4Renderer.readFileSync host outputPath);
        (eexists; cbn [fst snd]; split; [rewrite <- !app_assoc; reflexivity |]);
        intros e [= <-]; discriminate.
  - exists more. split; [reflexivity |]. intros e' [= <-]. now apply Hne.
Qed.

End Mp4.

(** C9.  For a template with fewer than 2 frames [renderMp4] throws
    ['MP4 templates require at least 2 frames'] and nothing has happened
    by then: no frame rendered, no temporary directory or file created, no
    encoder run.  For a template with at least 2 frames the check passes:
    the call goes on to create the temporary directory, and whatever it
    throws afterwards is not the error of the check. *)
Theorem renderMp4_precondition (canvas : Canvas.Host) (host : Mp4Renderer.Host)
    (rc : Mp4Renderer.Mp4RenderContext) (trace : list Mp4Renderer.Event) :
  let frameCount := length (frames (Mp4Renderer.ctx_template rc)) in
  ((frameCount < 2)%nat ->
     Mp4Renderer.renderMp4 canvas host rc trace
     = (trace, Throw (JsError "MP4 templates require at least 2 frames")))
  /\ ((2 <= frameCount)%nat ->
        exists rest result,
          Mp4Renderer.renderMp4 canvas host rc trace
          = (trace
               ++ Mp4Renderer.Mkdtemp
                    (Mp4Renderer.path_join (Mp4Renderer.tmpdir host) "render-mp4-")
                  :: rest,
             result)
          /\ result <> Throw (JsError "MP4 templates require at least 2 frames")).
Proof.
  intros frameCount. split; intros Hn; unfold Mp4Renderer.renderMp4; fold frameCount.
  - replace (frameCount <? 2)%nat with true by (symmetry; now apply Nat.ltb_lt).
    reflexivity.
  - replace (frameCount <? 2)%nat with false by (symmetry; now apply Nat.ltb_ge).
    cbn zeta. destruct (Mp4Renderer.mkdtempSync host _) as [tmpDir|].
    + destruct (renderMp4_try_trace canvas host rc tmpDir
                  (Mp4Renderer.path_join tmpDir "output.mp4")
                  (trace ++ [Mp4Renderer.Mkdtemp
                               (Mp4Renderer.path_join (Mp4Renderer.tmpdir host)
                                  "render-mp4-")]))
        as (more & Htrace & Hne).
      destruct (Mp4Renderer.renderMp4_try _ _ _ _ _ _) as [trace1 result].
      cbn [fst snd] in *. subst trace1.
      exists (more ++ [Mp4Renderer.RmSync tmpDir]), result.
      split; [f_equal; rewrite <- !app_assoc; reflexivity |].
      intros ->. now apply (Hne _ eq_refl).
    + exists [], (Throw (HostError "fs")). split; [reflexivity | discriminate].
Qed.

Lemma renderMp4_precondition_witness :
  Mp4Renderer.renderMp4 Sample.quietCanvas Sample.encoder (Sample.mp4Context Sample.still) []
  = ([], Throw (JsError "MP4 templates require at least 2 frames"))
  /\ exists rest result,
       Mp4Renderer.renderMp4 Sample.quietCanvas Sample.encoder
         (Sample.mp4Context Sample.slideshow) []
       = (Mp4Renderer.Mkdtemp "/tmp/render-mp4-" :: rest, result)
       /\ result <> Throw (JsError "MP4 templates require at least 2 frames").
Proof.
  split.
  - apply (proj1 (renderMp4_precondition Sample.quietCanvas Sample.encoder
                    (Sample.mp4Context Sample.still) [])).
    simpl. lia.
  - apply (proj2 (renderMp4_precondition Sample.quietCanvas Sample.encoder
                    (Sample.mp4Context Sample.slideshow) [])).
    simpl. lia.
Defined.

(** ** The command handed to the encoder *)

Section Mp4Encoder.

Variable canvas : Canvas.Host.
Variable host : Mp4Renderer.Host.



End Mp4Encoder.




(** * Further properties *)

(** ** Brand colours *)

Lemma lookup_or_black_truthy (variables : gmap string string) (key : string) :
  Js.truthyValue (Color.lookup_or_black variables key) = true.
Proof.
  unfold Color.lookup_or_black. destruct (Js.read variables key) as [v|]; [| reflexivity].
  destruct (Js.truthyValue v) eqn:E; [exact E | reflexivity].
Qed.

Lemma truthyValue_not_empty (v : Js.Value) :
  Js.truthyValue v = true -> v <> Js.Str EmptyString.
Proof. intros H ->. discriminate. Qed.

Lemma startsWith_head (c d : ascii) (s p : string) :
  c <> d -> Js.startsWith (String c s) (String d p) = false.
Proof.
  intros H. unfold Js.startsWith. cbn.
  destruct (Ascii.eqb_spec d c) as [-> | _]; [congruence |].
  destruct (ascii_dec d c); [congruence | reflexivity].
Qed.

(** X1.  A colour that is not empty and begins with neither a brace nor
    a dollar sign is returned as it is, and [resolveColor] never turns a
    colour that is not empty into the empty string: what it returns is
    truthy. *)
Theorem resolveColor_never_empty (color : string) (variables : gmap string string) :
  (forall c rest,
     color = String c rest -> c <> "{"%char -> c <> "$"%char ->
     Color.resolveColor color variables = Js.Str color)
  /\ (Js.truthy color = true ->
      Js.truthyValue (Color.resolveColor color variables) = true
      /\ Color.resolveColor color variables <> Js.Str EmptyString).
Proof.
  split.
  - intros c rest -> Hb Hd. unfold Color.resolveColor.
    rewrite (startsWith_head c "{" rest "{") by assumption.
    rewrite (startsWith_head c "$" rest "") by assumption. reflexivity.
  - intros H.
    assert (Ht : Js.truthyValue (Color.resolveColor color variables) = true).
    { unfold Color.resolveColor.
      destruct (_ && _); [apply lookup_or_black_truthy |].
      destruct (Js.startsWith color "$"); [apply lookup_or_black_truthy | exact H]. }
    split; [exact Ht | now apply truthyValue_not_empty].
Qed.

Lemma buildColorVariables_lookup (variables : RenderVariables) (key : string) :
  Color.lookup_or_black (LayoutEngine.buildColorVariables variables) key
  = brandColour variables key.
Proof.
  unfold Color.lookup_or_black, Js.read, LayoutEngine.buildColorVariables, brandColour,
    Js.or_else.
  cbn [list_to_map foldr fst snd].
  destruct (decide (key = "primary_colour")) as [-> | H1].
  { rewrite lookup_insert_eq. cbn. destruct (Js.truthy (primary_colour variables)) eqn:E.
    - now rewrite E.
    - reflexivity. }
  rewrite lookup_insert_ne by congruence.
  destruct (decide (key = "secondary_colour")) as [-> | H2].
  { rewrite lookup_insert_eq. cbn. destruct (Js.truthy (secondary_colour variables)) eqn:E.
    - now rewrite E.
    - reflexivity. }
  rewrite lookup_insert_ne by congruence.
  destruct (decide (key = "primary_color")) as [-> | H3].
  { rewrite lookup_insert_eq. cbn. destruct (Js.truthy (primary_colour variables)) eqn:E.
    - now rewrite E.
    - reflexivity. }
  rewrite lookup_insert_ne by congruence.
  destruct (decide (key = "secondary_color")) as [-> | H4].
  { rewrite lookup_insert_eq. cbn. destruct (Js.truthy (secondary_colour variables)) eqn:E.
    - now rewrite E.
    - reflexivity. }
  rewrite lookup_insert_ne by congruence. rewrite lookup_empty.
  rewrite (bool_decide_eq_false_2 (key = "primary_colour" \/ key = "primary_color"))
    by (intros [?|?]; congruence).
  rewrite (bool_decide_eq_false_2 (key = "secondary_colour" \/ key = "secondary_color"))
    by (intros [?|?]; congruence).
  destruct (bool_decide (key ∈ Js.objectPrototype)); reflexivity.
Qed.

(** X2.  Under the variables of [buildColorVariables], a placeholder in
    double braces (spaces around the key trimmed) and a key after a dollar
    sign both resolve to what the key stands for: the primary or the
    secondary colour in either spelling, with its default when the
    variable is empty; for the name of a member of [Object.prototype],
    that member; black for every other key.  It is never the empty
    string. *)
Theorem resolveColor_brand (variables : RenderVariables) (key inner : string) :
  let colorVars := LayoutEngine.buildColorVariables variables in
  (Js.trim inner = key ->
   Color.resolveColor ("{{" +:+ inner +:+ "}}") colorVars = brandColour variables key)
  /\ Color.resolveColor ("$" +:+ key) colorVars = brandColour variables key
  /\ Js.truthyValue (brandColour variables key) = true
  /\ brandColour variables key <> Js.Str EmptyString.
Proof.
  intros colorVars. split; [| split; [| split]].
  - intros <-. rewrite (resolveColor_key _ _ (Js.trim inner)); [| left; eauto].
    apply buildColorVariables_lookup.
  - rewrite (resolveColor_key _ _ key); [| now right].
    apply buildColorVariables_lookup.
  - rewrite <- buildColorVariables_lookup. apply lookup_or_black_truthy.
  - apply truthyValue_not_empty. rewrite <- buildColorVariables_lookup.
    apply lookup_or_black_truthy.
Qed.

(** ** hexToRgba *)

Lemma pretty_Z_of_nat (n : nat) : pretty (Z.of_nat n) = pretty n.
Proof. destruct n; reflexivity. Qed.

Lemma parseInt16_hex2 (upper : bool) (n : nat) :
  (n < 256)%nat -> Js.parseInt16 (hex2 upper n) = Some (Z.of_nat n).
Proof.
  intros H.
  assert (G : forallb (fun n => bool_decide (Js.parseInt16 (hex2 upper n) = Some (Z.of_nat n)))
                (seq 0 256) = true) by (destruct upper; vm_compute; reflexivity).
  rewrite forallb_forall in G.
  assert (Hin : In n (seq 0 256)) by (apply in_seq; lia).
  apply G in Hin. now apply bool_decide_eq_true in Hin.
Qed.

Lemma hexChar_not_hash (upper : bool) (d : nat) : Ascii.eqb (hexChar upper d) "#" = false.
Proof.
  do 16 (destruct d as [|d]; [destruct upper; reflexivity |]). destruct upper; reflexivity.
Qed.

Lemma substring_short (n m : nat) (s : string) :
  (String.length s <= n)%nat -> substring n m s = EmptyString.
Proof.
  revert n. induction s as [|c s IH]; intros n H.
  - destruct n, m; reflexivity.
  - destruct n as [|n]; [cbn in H; lia |]. cbn. apply IH. cbn in H. lia.
Qed.

(** X3.  [hexToRgba] reads the three channels back from six digits of
    radix 16, upper or lower case, with or without the leading hash sign,
    and prints them in decimal in front of the alpha, which is 1 when
    none is given.  With four characters or fewer after the hash sign the
    blue channel is printed as NaN. *)
Theorem hexToRgba_channels (numberToString : Q -> string) (alpha : option Q) :
  (forall upper r g b hash,
     (r < 256)%nat -> (g < 256)%nat -> (b < 256)%nat -> hash = "#" \/ hash = "" ->
     Color.hexToRgba numberToString
       (hash +:+ hex2 upper r +:+ hex2 upper g +:+ hex2 upper b) alpha
     = "rgba(" +:+ pretty r +:+ ", " +:+ pretty g +:+ ", " +:+ pretty b +:+ ", "
         +:+ numberToString (default 1%Q alpha) +:+ ")")
  /\ (forall hex,
        (String.length (Js.removeFirst hex "#") <= 4)%nat ->
        exists r g,
          Color.hexToRgba numberToString hex alpha
          = "rgba(" +:+ r +:+ ", " +:+ g +:+ ", NaN, "
              +:+ numberToString (default 1%Q alpha) +:+ ")").
Proof.
  split.
  - intros upper r g b hash Hr Hg Hb Hhash. unfold Color.hexToRgba.
    assert (E : Js.removeFirst (hash +:+ hex2 upper r +:+ hex2 upper g +:+ hex2 upper b) "#"
                = hex2 upper r +:+ hex2 upper g +:+ hex2 upper b).
    { destruct Hhash as [-> | ->]; [reflexivity |].
      unfold hex2. rewrite !append_nil, !append_cons, !append_nil.
      cbn [Js.removeFirst]. now rewrite !hexChar_not_hash. }
    cbv zeta. rewrite E.
    change (substring 0 2 (hex2 upper r +:+ hex2 upper g +:+ hex2 upper b))
      with (hex2 upper r).
    change (substring 2 2 (hex2 upper r +:+ hex2 upper g +:+ hex2 upper b))
      with (hex2 upper g).
    change (substring 4 2 (hex2 upper r +:+ hex2 upper g +:+ hex2 upper b))
      with (hex2 upper b).
    rewrite !parseInt16_hex2 by assumption.
    unfold Color.showInt. now rewrite !pretty_Z_of_nat.
  - intros hex Hlen. unfold Color.hexToRgba. cbv zeta.
    rewrite (substring_short 4 2) by assumption.
    eexists _, _. reflexivity.
Qed.

Lemma hexToRgba_channels_witness :
  Color.hexToRgba (fun q => pretty (Qfloor q)) "#235BAA" None = "rgba(35, 91, 170, 1)".
Proof.
  exact (proj1 (hexToRgba_channels (fun q => pretty (Qfloor q)) None)
           true 35%nat 91%nat 170%nat "#"
           ltac:(lia) ltac:(lia) ltac:(lia) (or_introl eq_refl)).
Defined.

(** ** resolveVariables *)













(** ** Lines of wrapText *)

Lemma append_assoc_string (a b c : string) : (a +:+ b) +:+ c = a +:+ b +:+ c.
Proof. induction a as [|x a IH]; string_simpl; [reflexivity | now rewrite IH]. Qed.

Lemma append_empty_r (a : string) : a +:+ EmptyString = a.
Proof. induction a as [|x a IH]; string_simpl; [reflexivity | now rewrite IH]. Qed.

Lemma split_space_join (s : string) :
  exists w ws, Js.split_space s = w :: ws /\ w +:+ spaced ws = s.
Proof.
  induction s as [|c s (w & ws & E & J)]; cbn [Js.split_space].
  - exists EmptyString, []. split; reflexivity.
  - destruct (Ascii.eqb_spec c " ") as [-> | Hc].
    + exists EmptyString, (w :: ws). split; [now rewrite E |].
      change (spaced (w :: ws)) with (" " +:+ w +:+ spaced ws).
      string_simpl. now rewrite <- J.
    + rewrite E. exists (String c w), ws. split; [reflexivity |].
      string_simpl. now rewrite J.
Qed.

Section Fits.

Variable measure : string -> Q.
Variable maxWidth : Q.

Lemma wrapStep_fits (cur : string) (todo : list string) :
  Js.truthy cur = true ->
  (forall a c, cur +:+ spaced todo = a +:+ c -> (measure a <= maxWidth)%Q) ->
  fold_left (Text.wrapStep measure maxWidth) todo ([], cur) = ([], cur +:+ spaced todo).
Proof.
  revert cur. induction todo as [|w todo IH]; intros cur Hcur Hfit.
  - cbn. now rewrite append_empty_r.
  - change (spaced (w :: todo)) with (" " +:+ w +:+ spaced todo) in *.
    cbn [fold_left]. unfold Text.wrapStep at 2. rewrite Hcur.
    assert (E : cur +:+ " " +:+ w +:+ spaced todo = (cur +:+ " " +:+ w) +:+ spaced todo).
    { rewrite !append_assoc_string. reflexivity. }
    assert (Hle : (measure (cur +:+ " " +:+ w) <= maxWidth)%Q).
    { apply (Hfit _ (spaced todo)). exact E. }
    apply gt_false in Hle. rewrite Hle. cbn [andb].
    rewrite IH.
    + now rewrite E.
    + destruct cur; [discriminate | reflexivity].
    + intros a c Hac. apply (Hfit a c). now rewrite E.
Qed.

Lemma greedyLines_fits (text : string) :
  monotone measure -> solid text -> (measure text <= maxWidth)%Q ->
  Text.greedyLines measure text maxWidth = [Text.line_of measure text].
Proof.
  intros Hmono Hsolid Hfit. unfold Text.greedyLines.
  destruct (split_space_join text) as (w & ws & E & J). rewrite E.
  assert (Hw : Js.truthy w = true).
  { destruct text as [|c s]; [contradiction |]. cbn [solid] in Hsolid.
    cbn [Js.split_space] in E.
    destruct (Ascii.eqb_spec c " ") as [-> | _]; [congruence |].
    destruct (Js.split_space s); injection E as <- _; reflexivity. }
  cbn [fold_left]. unfold Text.wrapStep at 2. cbn [Js.truthy andb].
  rewrite andb_false_r.
  rewrite wrapStep_fits.
  - rewrite J. destruct text; [contradiction | reflexivity].
  - exact Hw.
  - intros a c Hac. rewrite J in Hac. rewrite Hac in Hfit.
    specialize (Hmono EmptyString a c). rewrite append_nil in Hmono. lra.
Qed.

End Fits.

(** X5.  Under a measure that does not shrink when a text gets longer,
    a text that starts with a word and fits the width comes back as one
    line, the text itself with its own spaces, whatever [maxLines] is. *)
Theorem wrapText_one_line (measure : string -> Q) (text : string) (maxWidth : Q)
    (maxLines : option nat) :
  monotone measure -> solid text -> (measure text <= maxWidth)%Q ->
  Text.wrapText measure text maxWidth maxLines
  = [ {| Text.text := text; Text.width := measure text |} ].
Proof.
  intros Hmono Hsolid Hfit.
  rewrite wrapText_no_cut; [now apply greedyLines_fits |].
  intros n _ [H1 H2]. rewrite greedyLines_fits in H2 by assumption. cbn in H2. lia.
Qed.

Lemma wrapText_one_line_witness :
  Text.wrapText Sample.monospace10 "Roof  repair" 120 (Some 1%nat)
  = [ {| Text.text := "Roof  repair"; Text.width := Sample.monospace10 "Roof  repair" |} ].
Proof.
  apply (wrapText_one_line Sample.monospace10 "Roof  repair" 120 (Some 1%nat)).
  - exact monospace10_monotone.
  - discriminate.
  - vm_compute. discriminate.
Defined.

Section Solid.

Variable measure : string -> Q.
Variable maxWidth : Q.

Lemma solid_app (a b : string) : solid a -> solid (a +:+ b).
Proof. destruct a; [contradiction | now string_simpl]. Qed.

Lemma solid_word (w : string) : has_space w = false -> w = EmptyString \/ solid w.
Proof.
  destruct w as [|c w]; [now left |]. cbn. intros H. right.
  apply orb_false_elim in H as [H _]. intros ->. discriminate.
Qed.

Lemma solid_truthy (s : string) : solid s -> Js.truthy s = true.
Proof. destruct s; [contradiction | reflexivity]. Qed.

Lemma solid_step (st : list Text.WrappedLine * string) (word : string) :
  has_space word = false ->
  Forall (fun l => solid (Text.text l)) st.1 /\ (st.2 = EmptyString \/ solid st.2) ->
  let st' := Text.wrapStep measure maxWidth st word in
  Forall (fun l => solid (Text.text l)) st'.1 /\ (st'.2 = EmptyString \/ solid st'.2).
Proof.
  intros Hw [Hlines Hcur]. destruct st as [lines cur]. cbn [fst snd] in *.
  unfold Text.wrapStep. destruct Hcur as [-> | Hcur].
  - cbn [Js.truthy]. rewrite andb_false_r. cbn [fst snd].
    split; [exact Hlines | now apply solid_word].
  - rewrite (solid_truthy _ Hcur).
    destruct (Num.gt _ _); cbn [andb fst snd].
    + split; [| now apply solid_word].
      apply Forall_app. split; [exact Hlines |]. repeat constructor. exact Hcur.
    + split; [exact Hlines |]. right. now apply solid_app.
Qed.

Lemma solid_fold (words : list string) (st : list Text.WrappedLine * string) :
  Forall (fun w => has_space w = false) words ->
  Forall (fun l => solid (Text.text l)) st.1 /\ (st.2 = EmptyString \/ solid st.2) ->
  let st' := fold_left (Text.wrapStep measure maxWidth) words st in
  Forall (fun l => solid (Text.text l)) st'.1 /\ (st'.2 = EmptyString \/ solid st'.2).
Proof.
  revert st. induction words as [|w words IH]; intros st Hws Hst; [exact Hst |].
  inversion Hws; subst. cbn [fold_left]. apply IH; [assumption |].
  now apply solid_step.
Qed.

Lemma greedyLines_solid (text : string) :
  Forall (fun l => solid (Text.text l)) (Text.greedyLines measure text maxWidth).
Proof.
  unfold Text.greedyLines.
  pose proof (solid_fold (Js.split_space text) ([], EmptyString)
                (split_space_words text)
                (conj (List.Forall_nil _) (or_introl eq_refl))) as H.
  cbv zeta in H. destruct (fold_left _ _ _) as [lines cur]. cbn [fst snd] in H.
  destruct H as [Hlines Hcur]. destruct (Js.truthy cur) eqn:E; [| exact Hlines].
  apply Forall_app. split; [exact Hlines |]. repeat constructor.
  destruct Hcur as [-> | Hcur]; [discriminate | exact Hcur].
Qed.

Lemma prefix_solid (p s : string) :
  String.prefix p s = true -> solid s -> p = EmptyString \/ solid p.
Proof.
  destruct p as [|c p]; [now left |]. destruct s as [|d s]; [discriminate |].
  cbn [String.prefix solid]. destruct (ascii_dec c d) as [-> |]; [| discriminate].
  intros _ H. now right.
Qed.

Lemma solid_proper (s : string) :
  solid s -> properWords (Js.split_space s) <> [].
Proof.
  destruct s as [|c s]; [contradiction |]. cbn [solid Js.split_space]. intros Hc.
  destruct (Ascii.eqb_spec c " ") as [-> | _]; [congruence |].
  destruct (Js.split_space s); unfold properWords; rewrite filter_cons;
    (destruct (decide _) as [_ | Hn]; [discriminate | exfalso; apply Hn; reflexivity]).
Qed.

End Solid.

(** X6.  No line of [wrapText] is empty or begins with a space, and
    the result has no line at all exactly when the text has no word, that
    is, when it is empty or made of spaces. *)
Theorem wrapText_no_blank_line (measure : string -> Q) (text : string) (maxWidth : Q)
    (maxLines : option nat) :
  let result := Text.wrapText measure text maxWidth maxLines in
  (forall l, l ∈ result -> solid (Text.text l))
  /\ (result = [] <-> properWords (Js.split_space text) = []).
Proof.
  cbv zeta.
  pose proof (greedyLines_solid measure maxWidth text) as Hsolid.
  destruct (greedyLines_spec measure maxWidth text) as [_ Hwords].
  assert (Hcase :
    (exists n, maxLines = Some n /\ (1 <= n)%nat
               /\ (n < length (Text.greedyLines measure text maxWidth))%nat)
    \/ (forall n, maxLines = Some n ->
          ~ ((1 <= n)%nat
             /\ (n < length (Text.greedyLines measure text maxWidth))%nat))).
  { destruct maxLines as [n|]; [| right; discriminate].
    destruct (decide ((1 <= n)%nat
                      /\ (n < length (Text.greedyLines measure text maxWidth))%nat))
      as [[H1 H2] | Hno].
    - left. now exists n.
    - right. now intros ? [= <-]. }
  destruct Hcase as [(n & -> & Hn & Hlen) | Hno].
  - destruct (wrapText_cut measure maxWidth text n Hn Hlen) as (kept & Hkept & ->).
    split.
    + intros l Hl. apply list_elem_of_lookup in Hl as [j Hj].
      apply list_lookup_insert_Some in Hj as [(<- & <- & Hj) | [Hne Hj]].
      * unfold Text.line_of. cbn [Text.text].
        destruct (fitEllipsis_spec measure maxWidth (Text.text kept)) as (k & -> & _).
        rewrite Forall_forall in Hsolid.
        destruct (prefix_solid _ _ (prefix_iter_shrink k (Text.text kept))
                    (Hsolid kept (list_elem_of_lookup_2 _ _ _ Hkept))) as [-> | H].
        -- discriminate.
        -- now apply solid_app.
      * apply lookup_take_Some in Hj as [Hj _]. apply list_elem_of_lookup_2 in Hj.
        rewrite Forall_forall in Hsolid. now apply Hsolid.
    + split.
      * intros E. apply (f_equal length) in E.
        rewrite length_insert, length_take in E. cbn in E. lia.
      * intros E. rewrite <- Hwords in E.
        destruct (Text.greedyLines measure text maxWidth) as [|l ls]; [cbn in Hlen; lia |].
        exfalso. inversion Hsolid as [|? ? Hl _]; subst.
        cbn [fmap list_fmap concat] in E. rewrite properWords_app in E.
        apply app_eq_nil in E as [E _]. now apply (solid_proper _ Hl).
  - rewrite wrapText_no_cut by exact Hno.
    split.
    + rewrite Forall_forall in Hsolid. exact Hsolid.
    + split.
      * intros E. rewrite E in Hwords. now rewrite <- Hwords.
      * intros E. rewrite <- Hwords in E.
        destruct (Text.greedyLines measure text maxWidth) as [|l ls]; [reflexivity |].
        exfalso. inversion Hsolid as [|? ? Hl _]; subst.
        cbn [fmap list_fmap concat] in E. rewrite properWords_app in E.
        apply app_eq_nil in E as [E _]. now apply (solid_proper _ Hl).
Qed.

(** ** Cover and contain *)

Section ImageFit.

Local Open Scope Q_scope.






End ImageFit.

(** ** What a painter leaves behind *)

Section Contained.

Variable host : Canvas.Host.

Lemma cont_ret {A} (a : A) : contained (Canvas.ret a).
Proof. intros c c' a' [= <- _]. now split. Qed.

Lemma cont_get : contained Canvas.get.
Proof. intros c c' a' [= <- _]. now split. Qed.

Lemma cont_modify (f : Canvas.DrawState -> Canvas.DrawState) :
  (forall s, ambient (f s) = ambient s) -> contained (Canvas.modify f).
Proof. intros H c c' a' [= <- _]. split; [reflexivity | apply H]. Qed.

Lemma cont_invoke (call : Canvas.Call) :
  call <> Canvas.Clip -> contained (Canvas.invoke host call).
Proof.
  intros Hcall c c' a'. unfold Canvas.invoke.
  destruct (Canvas.throws host c call); [discriminate |]. intros [= <- _].
  destruct call; now split.
Qed.

Lemma cont_bind {A B} (m : Canvas.M A) (k : A -> Canvas.M B) :
  contained m -> (forall a, contained (k a)) -> contained (Canvas.bind m k).
Proof.
  intros Hm Hk c c'' b. unfold Canvas.bind.
  destruct (m c) as [c' [a | e]] eqn:Em; [| discriminate].
  intros Ek. destruct (Hm _ _ _ Em) as [H1 H2]. destruct (Hk a _ _ _ Ek) as [H3 H4].
  split; congruence.
Qed.

Lemma cont_when (b : bool) (m : Canvas.M unit) :
  contained m -> contained (Canvas.when b m).
Proof. destruct b; [auto | intros _; apply cont_ret]. Qed.

Lemma cont_forEach {A} (l : list A) (body : A -> Canvas.M unit) :
  (forall a, contained (body a)) -> contained (Canvas.forEach l body).
Proof.
  intros H. induction l as [|a l IH]; simpl; [apply cont_ret |].
  apply cont_bind; [apply H | intros _; exact IH].
Qed.

Lemma cont_ext {A} (m m' : Canvas.M A) :
  (forall c, m c = m' c) -> contained m -> contained m'.
Proof. intros E H c c' a Hr. apply (H c c' a). now rewrite E. Qed.

(** Between [save] and the [restore] that answers it anything may be
    set: all of it is undone. *)
Lemma cont_save (k : Canvas.M unit) :
  disciplined host Pops k -> contained (Canvas.bind Canvas.save (fun _ => k)).
Proof.
  intros Hk c c' a. unfold Canvas.bind, Canvas.save. intros E.
  destruct (Hk _ _ _ E) as (_ & _ & H3).
  destruct (H3 (Canvas.cur c) (Canvas.saved c) eq_refl) as [Hok _].
  destruct (Hok a eq_refl) as [-> ->]. now split.
Qed.

Lemma cont_scope (setter : Canvas.M unit) (k : Canvas.M unit) :
  disciplined host Keeps setter -> disciplined host Pops k ->
  contained (Canvas.bind (Canvas.bind Canvas.save (fun _ => setter)) (fun _ => k)).
Proof.
  intros Hs Hk.
  apply (cont_ext (Canvas.bind Canvas.save (fun _ => Canvas.bind setter (fun _ => k)))).
  - intros c. symmetry. apply bind_assoc.
  - apply cont_save. apply disc_bind; [exact Hs | intros _; exact Hk].
Qed.

Ltac containment :=
  repeat first
    [ apply cont_ret | apply cont_get
    | apply cont_modify; intros; reflexivity
    | apply cont_invoke; discriminate
    | apply cont_when | apply cont_forEach; intros
    | apply cont_bind; [| intros] ].

Lemma cont_roundedRect (x y w h r : Q) :
  contained (PngRenderer.roundedRect host x y w h r).
Proof. unfold PngRenderer.roundedRect. containment. Qed.

Lemma cont_drawImageCover img x y w h r :
  contained (ImageUtil.drawImageCover host img x y w h r).
Proof.
  unfold ImageUtil.drawImageCover. cbn zeta.
  apply cont_save. apply disc_bind.
  - apply disc_when. apply disc_bind; [apply disc_roundedRectPath | intros; apply disc_invoke].
  - intros _. destruct (ImageUtil.coverSource _ _ _) as [[[sx sy] sw] sh].
    apply disc_bind; [apply disc_invoke | intros _; apply disc_restore].
Qed.

Lemma cont_drawImageContain img x y w h r :
  contained (ImageUtil.drawImageContain host img x y w h r).
Proof.
  unfold ImageUtil.drawImageContain. cbn zeta.
  apply cont_save. apply disc_bind.
  - apply disc_when. apply disc_bind; [apply disc_roundedRectPath | intros; apply disc_invoke].
  - intros _. destruct (ImageUtil.containDest _ _ _ _ _) as [[[dx dy] dw] dh].
    apply disc_bind; [apply disc_invoke | intros _; apply disc_restore].
Qed.

Lemma cont_fit (fit : bool) img x y w h r :
  contained (if fit then ImageUtil.drawImageCover host img x y w h r
             else ImageUtil.drawImageContain host img x y w h r).
Proof. destruct fit; [apply cont_drawImageCover | apply cont_drawImageContain]. Qed.

Lemma cont_drawRect b layer colorVars :
  contained (PngRenderer.drawRect host b layer colorVars).
Proof.
  unfold PngRenderer.drawRect.
  apply cont_bind; [containment | intros _].
  apply cont_bind.
  - destruct (PngRenderer.positive _);
      [apply cont_bind; [apply cont_roundedRect | intros; containment] | containment].
  - intros _. destruct (stroke layer); [| apply cont_ret].
    apply cont_bind; [containment | intros _].
    apply cont_bind; [containment | intros _].
    destruct (PngRenderer.positive _);
      [apply cont_bind; [apply cont_roundedRect | intros; containment] | containment].
Qed.

Lemma cont_drawImage b layer userImages :
  contained (PngRenderer.drawImage host b layer userImages).
Proof.
  unfold PngRenderer.drawImage.
  destruct (userImages !! image_index layer) as [img|]; [| apply cont_ret].
  destruct (shadow layer) as [sh|].
  - apply cont_scope; [apply disc_modify |].
    apply disc_bind; [| intros _; apply disc_restore].
    destruct (PngRenderer.is_cover _);
      [apply disc_drawImageCover | apply disc_drawImageContain].
  - apply cont_bind; [apply cont_ret | intros _].
    apply cont_bind; [apply cont_fit | intros _; apply cont_ret].
Qed.

Lemma cont_drawTextWithSpacing text x y spacing :
  contained (PngRenderer.drawTextWithSpacing host text x y spacing).
Proof.
  unfold PngRenderer.drawTextWithSpacing.
  apply cont_bind; [apply cont_get | intros c].
  apply cont_forEach. intros [char currentX]. containment.
Qed.

Lemma cont_drawText b layer variables colorVars :
  contained (PngRenderer.drawText host b layer variables colorVars).
Proof.
  unfold PngRenderer.drawText. cbn zeta.
  destruct (negb _); [apply cont_ret |].
  apply cont_bind; [containment | intros _].
  apply cont_bind; [containment | intros _].
  apply cont_bind; [containment | intros _].
  apply cont_bind; [apply cont_get | intros c].
  apply cont_forEach. intros [i line].
  destruct (letterSpacing layer) as [spacing|]; [| containment].
  destruct (Num.truthy spacing); [apply cont_drawTextWithSpacing | containment].
Qed.

Lemma cont_drawLogo b layer logoImage :
  contained (PngRenderer.drawLogo host b layer logoImage).
Proof.
  unfold PngRenderer.drawLogo.
  destruct logoImage as [img|]; [| apply cont_ret]. cbn zeta.
  apply cont_bind.
  - destruct (logo_background layer) as [bg|]; [| apply cont_ret]. containment.
  - intros _. apply cont_fit.
Qed.

Lemma cont_drawAccentBar b layer colorVars :
  contained (PngRenderer.drawAccentBar host b layer colorVars).
Proof. unfold PngRenderer.drawAccentBar. containment. Qed.

Lemma cont_drawVariant layer variables colorVars userImages logoImage :
  contained (PngRenderer.drawVariant host layer variables colorVars userImages logoImage).
Proof.
  unfold PngRenderer.drawVariant. destruct (kind layer).
  - apply cont_drawImage.
  - apply cont_drawText.
  - apply cont_drawRect.
  - apply cont_drawLogo.
  - apply cont_drawAccentBar.
  - apply cont_ret.
Qed.

Lemma cont_drawLayer layer variables colorVars userImages logoImage :
  contained (PngRenderer.drawLayer host layer variables colorVars userImages logoImage).
Proof.
  unfold PngRenderer.drawLayer. destruct (PngRenderer.translucent layer) as [o|].
  - apply cont_scope; [apply disc_modify |].
    apply disc_bind; [apply disc_drawVariant | intros _; apply disc_restore].
  - apply cont_bind; [apply cont_ret | intros _].
    apply cont_bind; [apply cont_drawVariant | intros _; apply cont_ret].
Qed.

Lemma cont_addColorStops colors n colorVars :
  contained (PngRenderer.addColorStops host colors n colorVars).
Proof.
  induction colors as [|[i color] rest IH]; simpl; [apply cont_ret |].
  apply cont_bind; [containment | intros _].
  apply cont_bind; [exact IH | intros stops; apply cont_ret].
Qed.

Lemma cont_drawBackground frame w h colorVars userImages :
  contained (PngRenderer.drawBackground host frame w h colorVars userImages).
Proof.
  unfold PngRenderer.drawBackground. destruct (background frame) as [color | colors angle | index].
  - containment.
  - cbn zeta. apply cont_bind; [apply cont_addColorStops | intros stops]. containment.
  - destruct (userImages !! index); [apply cont_drawImageCover | apply cont_ret].
Qed.

Lemma cont_paintFrame t frame variables userImages logoImage :
  contained (PngRenderer.paintFrame host t frame variables userImages logoImage).
Proof.
  unfold PngRenderer.paintFrame. cbn zeta.
  apply cont_bind; [apply cont_drawBackground | intros _].
  apply cont_forEach. intros layer.
  destruct (PngRenderer.hidden layer); [apply cont_ret | apply cont_drawLayer].
Qed.

End Contained.



(** X9.  A layer that is drawn without an exception leaves the stack
    of saved states, the opacity, the clipping region and the shadow as
    it found them, and so does the painting of a whole frame: no layer
    leaks its clip, shadow or opacity into the layers above it. *)
Theorem paintFrame_contained (host : Canvas.Host) (variables : RenderVariables)
    (userImages : list Image) (logoImage : option Image) :
  (forall layer colorVars c c',
     PngRenderer.drawLayer host layer variables colorVars userImages logoImage c
     = (c', Ok tt) ->
     Canvas.saved c' = Canvas.saved c
     /\ ambient (Canvas.cur c') = ambient (Canvas.cur c))
  /\ (forall t frame c c',
        PngRenderer.paintFrame host t frame variables userImages logoImage c
        = (c', Ok tt) ->
        Canvas.saved c' = Canvas.saved c
        /\ ambient (Canvas.cur c') = ambient (Canvas.cur c)).
Proof.
  split.
  - intros layer colorVars c c'. apply cont_drawLayer.
  - intros t frame c c'. apply cont_paintFrame.
Qed.

Lemma paintFrame_contained_witness :
  Canvas.saved
    (PngRenderer.paintFrame Sample.quietCanvas Sample.still
       (Sample.frameOf None [Sample.photo 0; Sample.halfRect]) Sample.variables
       [Sample.imageOf "u0"] None Canvas.createContext).1
  = []
  /\ ambient
       (Canvas.cur
          (PngRenderer.paintFrame Sample.quietCanvas Sample.still
             (Sample.frameOf None [Sample.photo 0; Sample.halfRect]) Sample.variables
             [Sample.imageOf "u0"] None Canvas.createContext).1)
     = ambient (Canvas.cur Canvas.createContext).
Proof.
  apply (proj2 (paintFrame_contained Sample.quietCanvas Sample.variables
                  [Sample.imageOf "u0"] None) Sample.still
               (Sample.frameOf None [Sample.photo 0; Sample.halfRect])
               Canvas.createContext).
  vm_compute. reflexivity.
Defined.

(** X10.  [renderPng] throws an [Error] exactly when the frame index
    (0 when none is given) is not below the number of frames; its message
    names the index and the template. *)
Theorem renderPng_frame_index (host : Canvas.Host) (rc : PngRenderer.PngRenderContext) :
  let t := PngRenderer.ctx_template rc in
  let i := default 0%nat (PngRenderer.frameIndex rc) in
  ((exists msg, PngRenderer.renderPng host rc = Throw (JsError msg))
   <-> (length (frames t) <= i)%nat)
  /\ forall msg,
       PngRenderer.renderPng host rc = Throw (JsError msg) ->
       msg = "Frame " +:+ pretty i +:+ " not found in template "
               +:+ FontManager.dquote +:+ id t +:+ FontManager.dquote.
Proof.
  cbv zeta. unfold PngRenderer.renderPng.
  destruct (frames (PngRenderer.ctx_template rc) !! default 0%nat (PngRenderer.frameIndex rc))
    as [frame|] eqn:E.
  - assert (Hnot : forall msg,
              match PngRenderer.paintFrame host (PngRenderer.ctx_template rc) frame
                      (PngRenderer.ctx_variables rc) (PngRenderer.userImages rc)
                      (PngRenderer.logoImage rc) Canvas.createContext
              with
              | (c, Ok _) =>
                  Ok {| PngRenderer.png_width := template_width (PngRenderer.ctx_template rc);
                        PngRenderer.png_height := template_height (PngRenderer.ctx_template rc);
                        PngRenderer.png_painted := Canvas.painted c |}
              | (_, Throw e) => Throw e
              end <> Throw (JsError msg)).
    { intros msg. destruct (PngRenderer.paintFrame _ _ _ _ _ _ _) as [c' r] eqn:P.
      destruct (disc_paintFrame host _ _ _ _ _ _ _ _ P) as (H1 & _).
      destruct r as [u | e]; [discriminate |]. rewrite (H1 e eq_refl). discriminate. }
    split.
    + split.
      * intros [msg H]. now apply Hnot in H.
      * intros Hle. apply lookup_lt_Some in E. lia.
    + intros msg H. now apply Hnot in H.
  - split.
    + split; [intros _; now apply lookup_ge_None | intros _; eauto].
    + intros msg [= <-]. reflexivity.
Qed.

Lemma bind_cong {A B} (m : Canvas.M A) (k k' : A -> Canvas.M B) (c : Canvas.Context) :
  (forall a c', k a c' = k' a c') -> Canvas.bind m k c = Canvas.bind m k' c.
Proof. intros H. unfold Canvas.bind. destruct (m c) as [c' [a | e]]; [apply H | reflexivity]. Qed.

Lemma forEach_app {A} (l1 l2 : list A) (body : A -> Canvas.M unit) (c : Canvas.Context) :
  Canvas.forEach (l1 ++ l2) body c
  = Canvas.bind (Canvas.forEach l1 body) (fun _ => Canvas.forEach l2 body) c.
Proof.
  revert c. induction l1 as [|a l1 IH]; intros c; [reflexivity |].
  cbn [app Canvas.forEach]. unfold Canvas.bind in *.
  destruct (body a c) as [c' [[] | e]]; [apply IH | reflexivity].
Qed.

(** X11.  A frame is painted as the frame without its hidden layers is,
    and bottom-up: painting it is painting the frame with the layers up
    to any point of the list, then the visible layers after that point
    in their order. *)
Theorem paintFrame_layer_order (host : Canvas.Host) (t : TemplateDefinition)
    (frame : FrameDefinition) (variables : RenderVariables) (userImages : list Image)
    (logoImage : option Image) (c : Canvas.Context) :
  let paint f := PngRenderer.paintFrame host t f variables userImages logoImage in
  let colorVars := LayoutEngine.buildColorVariables variables in
  paint frame c = paint (withoutHidden frame) c
  /\ forall below above,
       layers frame = below ++ above ->
       paint frame c
       = Canvas.bind (paint (withLayers frame below))
           (fun _ =>
              Canvas.forEach (filter (fun l => PngRenderer.hidden l = false) above)
                (fun layer =>
                   PngRenderer.drawLayer host layer variables colorVars userImages
                     logoImage)) c.
Proof.
  cbv zeta.
  assert (Hskip : forall ls c0,
            Canvas.forEach ls
              (fun layer =>
                 if PngRenderer.hidden layer then Canvas.ret tt
                 else PngRenderer.drawLayer host layer variables
                        (LayoutEngine.buildColorVariables variables) userImages logoImage) c0
            = Canvas.forEach (filter (fun l => PngRenderer.hidden l = false) ls)
                (fun layer =>
                   PngRenderer.drawLayer host layer variables
                     (LayoutEngine.buildColorVariables variables) userImages logoImage) c0).
  { induction ls as [|l ls IH]; intros c0; [reflexivity |].
    rewrite filter_cons. cbn [Canvas.forEach].
    destruct (PngRenderer.hidden l) eqn:Hl.
    - destruct (decide (true = false)); [discriminate |].
      unfold Canvas.bind, Canvas.ret. apply IH.
    - destruct (decide (false = false)); [| congruence].
      cbn [Canvas.forEach]. unfold Canvas.bind.
      destruct (PngRenderer.drawLayer _ _ _ _ _ _ _) as [c1 [[] | err]];
        [apply IH | reflexivity]. }
  split.
  - unfold PngRenderer.paintFrame. cbn zeta. unfold Canvas.bind.
    change (PngRenderer.drawBackground host (withoutHidden frame))
      with (PngRenderer.drawBackground host frame).
    destruct (PngRenderer.drawBackground host frame _ _ _ userImages c) as [c' [[] | e]];
      [| reflexivity].
    cbn [layers withoutHidden]. rewrite !Hskip.
    f_equal. symmetry. apply list_filter_filter_l. tauto.
  - intros below above E. unfold PngRenderer.paintFrame. cbn zeta.
    rewrite E, bind_assoc.
    change (PngRenderer.drawBackground host (withLayers frame below))
      with (PngRenderer.drawBackground host frame).
    cbn [layers withLayers]. apply bind_cong. intros _ c'.
    rewrite forEach_app. apply bind_cong. intros _ c''. apply Hskip.
Qed.

(** ** drawText *)

Section TextBox.

Local Open Scope Q_scope.



Section DrawText.

Variable host : Canvas.Host.


End DrawText.



End TextBox.

(** ** loadRemoteImage *)

Section MoreJsMapFacts.

Context {V : Type}.
Implicit Types (m : list (string * V)) (k : string) (v : V).

Lemma get_set_eq m k v : JsMap.get (JsMap.set m k v) k = Some v.
Proof.
  induction m as [|[k' v'] m IH]; simpl.
  - now rewrite String.eqb_refl.
  - destruct (String.eqb_spec k' k) as [-> | Hne]; simpl.
    + now rewrite String.eqb_refl.
    + destruct (String.eqb_spec k' k); [congruence | exact IH].
Qed.

Lemma get_set_ne m k k' v : k <> k' -> JsMap.get (JsMap.set m k v) k' = JsMap.get m k'.
Proof.
  intros Hne. induction m as [|[k0 v0] m IH]; simpl.
  - destruct (String.eqb_spec k k'); [congruence | reflexivity].
  - destruct (String.eqb_spec k0 k) as [-> | H0]; simpl.
    + destruct (String.eqb_spec k k'); [congruence | reflexivity].
    + destruct (String.eqb_spec k0 k'); [reflexivity | exact IH].
Qed.

Lemma get_Some_elem_of m k v : JsMap.get m k = Some v -> (k, v) ∈ m.
Proof.
  induction m as [|[k' v'] m IH]; simpl; [discriminate |].
  destruct (String.eqb_spec k' k) as [-> | Hne].
  - intros [= ->]. left.
  - intros H. right. now apply IH.
Qed.

Lemma get_Some_key m k v : JsMap.get m k = Some v -> k ∈ JsMap.keys m.
Proof.
  intros H. apply get_Some_elem_of in H. apply list_elem_of_fmap. now exists (k, v).
Qed.

End MoreJsMapFacts.

(** X13.  An image that [loadRemoteImage] returns is in the cache
    under its URL afterwards, and loading the URL again returns the same
    image without a request and without a change of the cache, whatever
    the network does by then.  A load that fails had no cached image,
    leaves the cache as it was and has sent one request. *)
Theorem loadRemoteImage_memoizes (host : AssetLoader.Host) (url : string)
    (st : AssetLoader.State) :
  match AssetLoader.loadRemoteImage host url st with
  | (st', Ok img) =>
      JsMap.get (AssetLoader.imageCache st') url = Some img
      /\ forall later, AssetLoader.loadRemoteImage later url st' = (st', Ok img)
  | (st', Throw e) =>
      JsMap.get (AssetLoader.imageCache st) url = None
      /\ AssetLoader.imageCache st' = AssetLoader.imageCache st
      /\ AssetLoader.fetched st' = AssetLoader.fetched st ++ [url]
  end.
Proof.
  unfold AssetLoader.loadRemoteImage.
  destruct (JsMap.get (AssetLoader.imageCache st) url) as [cached|] eqn:Hget.
  - split; [exact Hget |]. intros later. now apply loadRemoteImage_hit.
  - cbn [AssetLoader.fetched AssetLoader.imageCache].
    destruct (AssetLoader.download host _ url) as [img | e].
    + assert (E : JsMap.get (AssetLoader.store (AssetLoader.imageCache st) url img) url
                  = Some img) by (unfold AssetLoader.store; apply get_set_eq).
      split; [exact E |]. intros later. now apply loadRemoteImage_hit.
    + repeat split.
Qed.

(** ** isWebP *)

Lemma byteAt_code (buf : string) (i n : nat) :
  bool_decide (AssetLoader.byteAt buf i = Some n) = true ->
  String.get i buf = Some (ascii_of_nat n).
Proof.
  intros H. apply bool_decide_eq_true in H. unfold AssetLoader.byteAt in H.
  destruct (String.get i buf) as [c|]; [| discriminate].
  injection H as <-. now rewrite ascii_nat_embedding.
Qed.

(** X14.  [isWebP] accepts exactly the buffers that are made of
    RIFF, four bytes of any value, WEBP and at least one byte more. *)
Theorem isWebP_magic (buf : string) :
  AssetLoader.isWebP buf = true
  <-> exists size rest,
        buf = "RIFF" +:+ size +:+ "WEBP" +:+ rest
        /\ String.length size = 4%nat /\ rest <> EmptyString.
Proof.
  split.
  - unfold AssetLoader.isWebP. intros H.
    repeat (apply andb_prop in H as [H ?]).
    repeat match goal with
           | G : bool_decide (AssetLoader.byteAt _ _ = Some _) = true |- _ =>
               apply byteAt_code in G
           end.
    apply Nat.ltb_lt in H.
    do 13 (destruct buf as [|? buf]; [cbn in H; lia |]).
    cbn in *. simplify_eq.
    eexists (String _ (String _ (String _ (String _ EmptyString)))), (String _ buf).
    split; [reflexivity |]. split; [reflexivity | discriminate].
  - intros (size & rest & -> & Hlen & Hrest).
    do 4 (destruct size as [|? size]; [discriminate |]).
    destruct size; [| discriminate]. destruct rest as [|? rest]; [congruence |].
    reflexivity.
Qed.

(** ** loadAllImages *)

Section Batch.

Variable host : AssetLoader.Host.
Hypothesis fetch_empty : forall n, AssetLoader.fetch host n EmptyString = None.

Lemma storeAt_ok (calls : list (string * AssetLoader.Started))
    (order : list nat) (cache : list (string * Image)) :
  cache_ok cache -> cache_ok (fold_left (AssetLoader.storeAt host calls) order cache).
Proof.
  revert cache. induction order as [|i order IH]; intros cache Hok; [exact Hok |].
  cbn [fold_left]. apply IH. unfold AssetLoader.storeAt.
  destruct (calls !! i) as [[url [cached | requests]]|]; try exact Hok.
  destruct (AssetLoader.download host requests url) as [img | e] eqn:E; [| exact Hok].
  apply store_ok; [| exact Hok]. exact (download_url host fetch_empty _ _ _ E).
Qed.

End Batch.

Lemma startAll_urls (cache : list (string * Image)) (requests : nat) (urls : list string) :
  map fst (AssetLoader.startAll cache requests urls) = urls.
Proof.
  revert requests. induction urls as [|url urls IH]; intros requests; [reflexivity |].
  cbn [AssetLoader.startAll]. destruct (JsMap.get cache url); cbn; now rewrite IH.
Qed.

Lemma startAll_hit (cache : list (string * Image)) (requests : nat) (urls : list string)
    (url : string) (s : AssetLoader.Started) (cached : Image) :
  (url, s) ∈ AssetLoader.startAll cache requests urls ->
  JsMap.get cache url = Some cached -> s = AssetLoader.Hit cached.
Proof.
  revert requests. induction urls as [|u urls IH]; intros requests Hin Hget;
    [inversion Hin |].
  cbn [AssetLoader.startAll] in Hin. destruct (JsMap.get cache u) as [c|] eqn:E;
    apply elem_of_cons in Hin as [[= -> ->] | Hin]; eauto; congruence.
Qed.

Lemma startAll_requested (cache : list (string * Image)) (requests : nat)
    (urls : list string) :
  flat_map (fun call : string * AssetLoader.Started =>
              match call.2 with
              | AssetLoader.Requested _ => [call.1]
              | AssetLoader.Hit _ => []
              end)
    (AssetLoader.startAll cache requests urls)
  = filter (fun url => JsMap.get cache url = None) urls.
Proof.
  revert requests. induction urls as [|url urls IH]; intros requests; [reflexivity |].
  cbn [AssetLoader.startAll]. rewrite filter_cons.
  destruct (JsMap.get cache url) as [c|] eqn:E; cbn [flat_map fst snd app].
  - destruct (decide (Some c = None)); [discriminate | apply IH].
  - destruct (decide (None = None)); [| congruence]. now rewrite IH.
Qed.

Section Collect.

Variable host : AssetLoader.Host.

Lemma collect_keys (calls : list (string * AssetLoader.Started))
    (acc : list (string * Image)) :
  NoDup (JsMap.keys acc) ->
  NoDup (JsMap.keys (fold_left (AssetLoader.collect host) calls acc))
  /\ forall url,
       url ∈ JsMap.keys (fold_left (AssetLoader.collect host) calls acc) ->
       url ∈ JsMap.keys acc \/ url ∈ map fst calls.
Proof.
  revert acc. induction calls as [|call calls IH]; intros acc Hnd.
  - split; [exact Hnd | now left].
  - cbn [fold_left].
    assert (Hnd' : NoDup (JsMap.keys (AssetLoader.collect host acc call))).
    { unfold AssetLoader.collect. destruct (AssetLoader.settled host call);
        [now apply NoDup_keys_set | exact Hnd]. }
    destruct (IH _ Hnd') as [H1 H2]. split; [exact H1 |].
    intros url Hurl. destruct (H2 url Hurl) as [Hacc | Hrest].
    + unfold AssetLoader.collect in Hacc.
      destruct (AssetLoader.settled host call); [| now left].
      destruct (keys_set acc call.1 a) as [E | [_ E]]; rewrite E in Hacc.
      * now left.
      * apply elem_of_app in Hacc as [? | Hc]; [now left |].
        apply list_elem_of_singleton in Hc as ->. right. left.
    + right. cbn [map]. now right.
Qed.

Lemma collect_hit (calls : list (string * AssetLoader.Started))
    (acc : list (string * Image)) (url : string) (cached : Image) :
  (forall s, (url, s) ∈ calls -> s = AssetLoader.Hit cached) ->
  JsMap.get acc url = Some cached \/ url ∈ map fst calls ->
  JsMap.get (fold_left (AssetLoader.collect host) calls acc) url = Some cached.
Proof.
  revert acc. induction calls as [|[u s] calls IH]; intros acc Hall Hor.
  - destruct Hor as [? | Hin]; [assumption | inversion Hin].
  - cbn [fold_left]. apply IH; [intros s' Hs'; apply Hall; now right |].
    destruct (decide (u = url)) as [-> | Hne].
    + left. rewrite (Hall s) by left. unfold AssetLoader.collect, AssetLoader.settled.
      cbn [fst snd]. apply get_set_eq.
    + destruct Hor as [Hacc | Hin].
      * left. unfold AssetLoader.collect.
        destruct (AssetLoader.settled host (u, s)); [| exact Hacc].
        cbn [fst]. now rewrite get_set_ne.
      * right. cbn [map fst] in Hin. apply elem_of_cons in Hin as [? | ?];
          [congruence | assumption].
Qed.

End Collect.

(** X15.  In whatever order the downloads of [loadAllImages] end, the
    cache stays within its bounds, one request is sent for every
    occurrence of a URL that was not cached when the batch began, in the
    order of the list, the result maps each URL at most once and only
    URLs of the list, and a URL that was cached maps to its cached
    image. *)
Theorem loadAllImages_batch (host : AssetLoader.Host) (urls : list string)
    (order : list nat) (st : AssetLoader.State) :
  (forall n, AssetLoader.fetch host n EmptyString = None) ->
  cache_ok (AssetLoader.imageCache st) ->
  let '(st', results) := AssetLoader.loadAllImages host urls order st in
  cache_ok (AssetLoader.imageCache st')
  /\ AssetLoader.fetched st'
     = AssetLoader.fetched st
         ++ filter (fun url => JsMap.get (AssetLoader.imageCache st) url = None) urls
  /\ NoDup (JsMap.keys results)
  /\ (forall url, url ∈ JsMap.keys results -> url ∈ urls)
  /\ (forall url cached,
        url ∈ urls -> JsMap.get (AssetLoader.imageCache st) url = Some cached ->
        JsMap.get results url = Some cached).
Proof.
  intros Hempty Hok. unfold AssetLoader.loadAllImages. cbv zeta.
  cbn [AssetLoader.imageCache AssetLoader.fetched].
  destruct (collect_keys host
              (AssetLoader.startAll (AssetLoader.imageCache st)
                 (length (AssetLoader.fetched st)) urls) [] (NoDup_nil_2)) as [Hnd Hkeys].
  split; [now apply storeAt_ok |]. split; [now rewrite startAll_requested |].
  split; [exact Hnd |]. split.
  - intros url Hurl. destruct (Hkeys url Hurl) as [Hnil | Hin]; [inversion Hnil |].
    now rewrite startAll_urls in Hin.
  - intros url cached Hin Hget. apply collect_hit.
    + intros s Hs. now apply (startAll_hit _ _ _ _ _ _ Hs).
    + right. now rewrite startAll_urls.
Qed.

Lemma loadAllImages_batch_witness :
  let '(st', results) :=
    AssetLoader.loadAllImages Sample.network ["u1"; "u2"; "u1"; "u0"] [3; 0; 2; 1]%nat
      (AssetLoader.loadRemoteImage Sample.network "u0" AssetLoader.emptyState).1 in
  cache_ok (AssetLoader.imageCache st')
  /\ AssetLoader.fetched st'
     = AssetLoader.fetched
         (AssetLoader.loadRemoteImage Sample.network "u0" AssetLoader.emptyState).1
         ++ filter
              (fun url =>
                 JsMap.get
                   (AssetLoader.imageCache
                      (AssetLoader.loadRemoteImage Sample.network "u0"
                         AssetLoader.emptyState).1) url = None)
              ["u1"; "u2"; "u1"; "u0"]
  /\ NoDup (JsMap.keys results)
  /\ (forall url, url ∈ JsMap.keys results -> url ∈ ["u1"; "u2"; "u1"; "u0"])
  /\ (forall url cached,
        url ∈ ["u1"; "u2"; "u1"; "u0"] ->
        JsMap.get
          (AssetLoader.imageCache
             (AssetLoader.loadRemoteImage Sample.network "u0" AssetLoader.emptyState).1) url
        = Some cached ->
        JsMap.get results url = Some cached).
Proof.
  apply (loadAllImages_batch Sample.network ["u1"; "u2"; "u1"; "u0"] [3; 0; 2; 1]%nat
           (AssetLoader.loadRemoteImage Sample.network "u0" AssetLoader.emptyState).1).
  - intros n. reflexivity.
  - apply loadRemoteImage_ok; [intros n; reflexivity | apply emptyState_ok].
Defined.

(** ** The stores of the registry *)

Lemma atLeastZero_nonneg (w : Q) : (0 <= Registry.atLeastZero w)%Q.
Proof.
  unfold Registry.atLeastZero. destruct (Num.le w 0) eqn:E; [apply Qle_refl |].
  apply le_false in E. now apply Qlt_le_weak.
Qed.

Lemma noStores_ok : stores_ok Registry.noStores.
Proof.
  split; [repeat split; apply NoDup_nil_2 |].
  split; [| split]; intros k v H; inversion H.
Qed.

Lemma saveTemplate_ok (st : Registry.Stores) (t : TemplateDefinition) :
  stores_ok st -> stores_ok (Registry.saveTemplate st t).
Proof.
  intros ((Hb & Ha & Ht) & Hbk & Hak & Htk). unfold Registry.saveTemplate.
  split; [| split; [| split]]; cbn [Registry.builtinTemplates Registry.templatesByAirtableId
                                    Registry.templatesByTemplateId].
  - repeat split; auto. now apply NoDup_keys_set.
  - exact Hbk.
  - exact Hak.
  - intros k m Hin. apply elem_of_set in Hin as [[= -> ->] | Hin]; [| now apply Htk].
    split; [reflexivity | discriminate].
Qed.

Lemma fallback_fold_ok (builtins : list (string * TemplateDefinition))
    (m : list (string * TemplateWithMeta)) :
  (forall k t, (k, t) ∈ builtins -> id t = k) ->
  NoDup (JsMap.keys m) ->
  (forall k v, (k, v) ∈ m -> id (template v) = k /\ (0 <= rotationWeight v)%Q) ->
  let m' := fold_left (fun m '(id, template) => JsMap.set m id (Registry.unmanaged template))
              builtins m in
  NoDup (JsMap.keys m')
  /\ (forall k v, (k, v) ∈ m' -> id (template v) = k /\ (0 <= rotationWeight v)%Q).
Proof.
  revert m. induction builtins as [|[k0 t0] builtins IH]; intros m Hb Hnd Hm; [now split |].
  cbn [fold_left]. apply IH.
  - intros k t Hin. apply Hb. now right.
  - now apply NoDup_keys_set.
  - intros k v Hin. apply elem_of_set in Hin as [[= -> ->] | Hin]; [| now apply Hm].
    split; [apply Hb; left | discriminate].
Qed.

Lemma ensureBuiltinsFallback_ok (st : Registry.Stores) :
  stores_ok st -> stores_ok (Registry.ensureBuiltinsFallback st).
Proof.
  intros Hok. unfold Registry.ensureBuiltinsFallback.
  destruct (0 <? _)%nat; [exact Hok |].
  destruct Hok as ((Hb & Ha & Ht) & Hbk & Hak & Htk).
  destruct (fallback_fold_ok _ _ Hbk Ht Htk) as [H1 H2].
  split; [| split; [| split]]; cbn [Registry.builtinTemplates Registry.templatesByAirtableId
                                    Registry.templatesByTemplateId]; auto.
Qed.

Section RegistryHost.

Variable host : Registry.Host.

Lemma loadFiles_ok (files : list string) (builtins : list (string * TemplateDefinition)) :
  NoDup (JsMap.keys builtins) -> (forall k t, (k, t) ∈ builtins -> id t = k) ->
  let builtins' := (Registry.loadFiles host files builtins).1 in
  NoDup (JsMap.keys builtins') /\ (forall k t, (k, t) ∈ builtins' -> id t = k).
Proof.
  revert builtins. induction files as [|file files IH]; intros builtins Hnd Hk; [now split |].
  cbn [Registry.loadFiles]. destruct (Registry.readBuiltin host file) as [data|]; [| now split].
  apply IH; [now apply NoDup_keys_set |].
  intros k t Hin. apply elem_of_set in Hin as [[= -> ->] | Hin]; [reflexivity | now apply Hk].
Qed.

Lemma loadBuiltinTemplates_ok (st : Registry.Stores) :
  stores_ok st -> stores_ok (Registry.loadBuiltinTemplates host st).1.
Proof.
  intros ((Hb & Ha & Ht) & Hbk & Hak & Htk). unfold Registry.loadBuiltinTemplates.
  pose proof (loadFiles_ok Registry.builtinFiles _ Hb Hbk) as H. cbv zeta in H.
  destruct (Registry.loadFiles host Registry.builtinFiles _) as [builtins r].
  destruct H as [H1 H2]. cbn [fst] in *.
  split; [| split; [| split]]; cbn [Registry.builtinTemplates Registry.templatesByAirtableId
                                    Registry.templatesByTemplateId]; auto.
Qed.

Lemma usable_builtin (st : Registry.Stores) (rec : AirtableTemplateRecord)
    (t : TemplateDefinition) :
  Registry.usable host (Registry.builtinTemplates st) rec = Some (inl t) ->
  JsMap.get (Registry.builtinTemplates st) (builtin_id rec) = Some t.
Proof.
  unfold Registry.usable. destruct (Js.truthy (builtin_id rec)).
  - destruct (JsMap.get _ _) as [t'|]; [now intros [= ->] |].
    destruct (Js.truthy _); [| discriminate].
    destruct (Registry.parseTemplate host _); discriminate.
  - destruct (Js.truthy _); [| discriminate].
    destruct (Registry.parseTemplate host _); discriminate.
Qed.

Lemma syncStep_ok (acc : Registry.Stores * nat) (rec : AirtableTemplateRecord) :
  stores_ok acc.1 -> stores_ok (Registry.syncStep host acc rec).1.
Proof.
  destruct acc as [st n]. cbn [fst]. intros Hok. unfold Registry.syncStep.
  destruct (negb (template_active rec)); [exact Hok |].
  destruct (Registry.usable host (Registry.builtinTemplates st) rec) as [found|];
    [| exact Hok].
  destruct Hok as ((Hb & Ha & Ht) & Hbk & Hak & Htk).
  split; [| split; [| split]]; cbn [fst Registry.builtinTemplates
    Registry.templatesByAirtableId Registry.templatesByTemplateId].
  - repeat split; auto using NoDup_keys_set.
  - exact Hbk.
  - intros k m Hin. apply elem_of_set in Hin as [[= -> ->] | Hin]; [| now apply Hak].
    split; [reflexivity | apply atLeastZero_nonneg].
  - intros k m Hin. apply elem_of_set in Hin as [[= -> ->] | Hin]; [| now apply Htk].
    split; [reflexivity | apply atLeastZero_nonneg].
Qed.

Lemma syncFold_ok (records : list AirtableTemplateRecord) (acc : Registry.Stores * nat) :
  stores_ok acc.1 -> stores_ok (fold_left (Registry.syncStep host) records acc).1.
Proof.
  revert acc. induction records as [|rec records IH]; intros acc Hok; [exact Hok |].
  cbn [fold_left]. apply IH. now apply syncStep_ok.
Qed.

Lemma syncFromAirtable_ok (st : Registry.Stores) :
  stores_ok st -> stores_ok (Registry.syncFromAirtable host st).1.
Proof.
  intros Hok. unfold Registry.syncFromAirtable.
  destruct (Registry.fetchAllTemplates host) as [records|].
  - apply syncFold_ok. destruct Hok as ((Hb & _ & _) & Hbk & _ & _).
    split; [repeat split; cbn; auto using NoDup_nil_2 |].
    split; [exact Hbk |].
    split; intros k m H; inversion H.
  - cbn [fst]. now apply ensureBuiltinsFallback_ok.
Qed.

Lemma initRegistry_ok (st : Registry.Stores) :
  stores_ok st -> stores_ok (Registry.initRegistry host st).1.
Proof.
  intros Hok. unfold Registry.initRegistry.
  pose proof (loadBuiltinTemplates_ok st Hok) as H1.
  destruct (Registry.loadBuiltinTemplates host st) as [st1 [[] | e]]; cbn [fst] in *;
    [| exact H1].
  pose proof (syncFromAirtable_ok st1 H1) as H2.
  set (st2 := (Registry.syncFromAirtable host st1).1) in *.
  assert (H3 : stores_ok (if (JsMap.size (Registry.templatesByTemplateId st2) =? 0)%nat
                          then Registry.ensureBuiltinsFallback st2 else st2)).
  { destruct (_ =? _)%nat; [now apply ensureBuiltinsFallback_ok | exact H2]. }
  exact H3.
Qed.

End RegistryHost.

Lemma keyed_NoDup (m : list (string * TemplateWithMeta)) :
  NoDup (JsMap.keys m) -> (forall k v, (k, v) ∈ m -> airtableRecordId v = k) ->
  NoDup (airtableRecordId <$> JsMap.values m).
Proof.
  intros Hnd Hk.
  replace (airtableRecordId <$> JsMap.values m) with (JsMap.keys m); [exact Hnd |].
  unfold JsMap.keys, JsMap.values. rewrite <- list_fmap_compose.
  apply list_fmap_ext. intros i [k v] Hi. cbn. symmetry. apply Hk.
  now apply list_elem_of_lookup_2 in Hi.
Qed.

(** X16.  The stores of the registry keep their shape under every
    operation that writes them: built-in templates stand under their own
    id, synced entries under their record identifier and under the id of
    their template, and no rotation weight is negative.  The entries
    that [listTemplatesWithMeta] returns have pairwise different record
    identifiers. *)
Theorem registry_invariant (st : Registry.Stores) :
  stores_ok st ->
  (forall host,
     stores_ok (Registry.loadBuiltinTemplates host st).1
     /\ stores_ok (Registry.syncFromAirtable host st).1
     /\ stores_ok (Registry.initRegistry host st).1)
  /\ stores_ok (Registry.ensureBuiltinsFallback st)
  /\ (forall template, stores_ok (Registry.saveTemplate st template))
  /\ NoDup (airtableRecordId <$> Registry.listTemplatesWithMeta st).
Proof.
  intros Hok. split; [| split; [| split]].
  - intros host. split; [| split].
    + now apply loadBuiltinTemplates_ok.
    + now apply syncFromAirtable_ok.
    + now apply initRegistry_ok.
  - now apply ensureBuiltinsFallback_ok.
  - intros t. now apply saveTemplate_ok.
  - destruct Hok as ((_ & Ha & _) & _ & Hak & _).
    apply keyed_NoDup; [exact Ha |]. intros k v Hin. now apply Hak.
Qed.

Lemma registry_invariant_witness :
  NoDup (airtableRecordId
           <$> Registry.listTemplatesWithMeta
                 (Registry.initRegistry Sample.online Registry.noStores).1).
Proof.
  apply (registry_invariant (Registry.initRegistry Sample.online Registry.noStores).1).
  apply (proj1 (registry_invariant Registry.noStores noStores_ok) Sample.online).
Defined.

(** ** getTemplate, saveTemplate *)

(** X17.  A template saved with [saveTemplate] is what [getTemplate]
    returns for its id and is listed by [listTemplates]; other ids resolve
    as before, and neither the lookup by record identifier nor the
    rotation pool sees the saved template. *)
Theorem saveTemplate_getTemplate (st : Registry.Stores) (t : TemplateDefinition) :
  let st' := Registry.saveTemplate st t in
  Registry.getTemplate st' (id t) = Some t
  /\ (forall k, k <> id t -> Registry.getTemplate st' k = Registry.getTemplate st k)
  /\ t ∈ Registry.listTemplates st'
  /\ (forall k, Registry.getTemplateByAirtableId st' k = Registry.getTemplateByAirtableId st k)
  /\ (forall localeCompare format available wanted,
        Registry.getRotationPool localeCompare (Registry.templatesByAirtableId st')
          format available wanted
        = Registry.getRotationPool localeCompare (Registry.templatesByAirtableId st)
            format available wanted).
Proof.
  cbv zeta. split; [| split; [| split; [| split]]].
  - unfold Registry.getTemplate, Registry.saveTemplate.
    cbn [Registry.templatesByTemplateId]. now rewrite get_set_eq.
  - intros k Hk. unfold Registry.getTemplate, Registry.saveTemplate.
    cbn [Registry.templatesByTemplateId Registry.builtinTemplates].
    rewrite get_set_ne by congruence. reflexivity.
  - unfold Registry.listTemplates, Registry.saveTemplate.
    cbn [Registry.templatesByTemplateId].
    pose proof (get_set_eq (Registry.templatesByTemplateId st) (id t) (Registry.unmanaged t))
      as H.
    apply get_Some_elem_of in H. apply list_elem_of_In, in_map_iff.
    exists (Registry.unmanaged t). split; [reflexivity |].
    apply in_map_iff. exists (id t, Registry.unmanaged t). split; [reflexivity |].
    now apply list_elem_of_In.
  - reflexivity.
  - reflexivity.
Qed.

(** ** A sync that fails *)

Lemma fallback_fold_fresh (builtins : list (string * TemplateDefinition))
    (m : list (string * TemplateWithMeta)) :
  NoDup (JsMap.keys m ++ JsMap.keys builtins) ->
  fold_left (fun m '(id, template) => JsMap.set m id (Registry.unmanaged template))
    builtins m
  = m ++ map (fun '(id, template) => (id, Registry.unmanaged template)) builtins.
Proof.
  revert m. induction builtins as [|[k t] builtins IH]; intros m Hnd.
  - cbn. now rewrite app_nil_r.
  - cbn [fold_left map]. cbn [JsMap.keys map fst] in Hnd.
    apply NoDup_app in Hnd as (Hm & Hdisj & Hb). apply NoDup_cons in Hb as [Hk Hb].
    rewrite (set_fresh m k) by (intros Hin; apply (Hdisj k Hin); left).
    rewrite IH.
    + now rewrite <- app_assoc.
    + unfold JsMap.keys. rewrite map_app. cbn [map fst].
      apply NoDup_app. repeat split.
      * apply NoDup_app. repeat split; [exact Hm | | apply NoDup_singleton].
        intros x Hx Hx'. apply list_elem_of_singleton in Hx' as ->.
        apply (Hdisj k Hx). left.
      * intros x Hx Hx'. apply elem_of_app in Hx as [Hx | Hx].
        -- apply (Hdisj x Hx). now right.
        -- apply list_elem_of_singleton in Hx as ->. contradiction.
      * exact Hb.
Qed.

Lemma get_map_unmanaged (builtins : list (string * TemplateDefinition)) (k : string) :
  JsMap.get (map (fun '(id, template) => (id, Registry.unmanaged template)) builtins) k
  = option_map Registry.unmanaged (JsMap.get builtins k).
Proof.
  induction builtins as [|[k0 t0] builtins IH]; [reflexivity |].
  cbn. destruct (String.eqb k0 k); [reflexivity | exact IH].
Qed.

(** X18.  A sync whose fetch fails reports 0 and loses nothing: the
    synced entries and the built-in templates stay, every id resolves as
    before; stores that list any template are left as they are, and
    stores that list none list the built-in templates afterwards. *)
Theorem syncFromAirtable_offline (host : Registry.Host) (st : Registry.Stores) :
  Registry.fetchAllTemplates host = None ->
  NoDup (JsMap.keys (Registry.builtinTemplates st)) ->
  let '(st', synced) := Registry.syncFromAirtable host st in
  synced = 0%nat
  /\ Registry.templatesByAirtableId st' = Registry.templatesByAirtableId st
  /\ Registry.builtinTemplates st' = Registry.builtinTemplates st
  /\ (forall k, Registry.getTemplate st' k = Registry.getTemplate st k)
  /\ (Registry.templatesByTemplateId st <> [] -> st' = st)
  /\ (Registry.templatesByTemplateId st = [] ->
      Registry.listTemplates st' = map snd (Registry.builtinTemplates st)).
Proof.
  intros Hfetch Hnd. unfold Registry.syncFromAirtable. rewrite Hfetch.
  unfold Registry.ensureBuiltinsFallback.
  destruct (Registry.templatesByTemplateId st) as [|entry entries] eqn:E.
  - cbn [JsMap.size length Nat.ltb Nat.leb].
    rewrite fallback_fold_fresh by exact Hnd. cbn [app].
    split; [reflexivity |]. split; [reflexivity |]. split; [reflexivity |].
    split; [| split; [congruence |]].
    + intros k. unfold Registry.getTemplate.
      cbn [Registry.templatesByTemplateId Registry.builtinTemplates].
      rewrite E, get_map_unmanaged. cbn [JsMap.get].
      now destruct (JsMap.get (Registry.builtinTemplates st) k).
    + intros _. unfold Registry.listTemplates. cbn [Registry.templatesByTemplateId].
      unfold JsMap.values. rewrite !map_map. apply map_ext. now intros [k t].
  - cbn [JsMap.size length Nat.ltb Nat.leb].
    repeat split; congruence.
Qed.

Lemma syncFromAirtable_offline_witness :
  let '(st', synced) := Registry.syncFromAirtable Sample.offline Sample.loaded in
  synced = 0%nat
  /\ Registry.templatesByAirtableId st' = Registry.templatesByAirtableId Sample.loaded
  /\ Registry.builtinTemplates st' = Registry.builtinTemplates Sample.loaded
  /\ (forall k, Registry.getTemplate st' k = Registry.getTemplate Sample.loaded k)
  /\ (Registry.templatesByTemplateId Sample.loaded <> [] -> st' = Sample.loaded)
  /\ (Registry.templatesByTemplateId Sample.loaded = [] ->
      Registry.listTemplates st' = map snd (Registry.builtinTemplates Sample.loaded)).
Proof.
  apply (syncFromAirtable_offline Sample.offline Sample.loaded); [reflexivity |].
  apply (bool_decide_unpack _). vm_compute. exact I.
Defined.

(** ** A sync that succeeds *)



Section Sync.

Variable host : Registry.Host.

Lemma syncStep_builtins (acc : Registry.Stores * nat) (rec : AirtableTemplateRecord) :
  Registry.builtinTemplates (Registry.syncStep host acc rec).1
  = Registry.builtinTemplates acc.1.
Proof.
  destruct acc as [st n]. unfold Registry.syncStep.
  destruct (negb _); [reflexivity |]. destruct (Registry.usable _ _ _); reflexivity.
Qed.

Lemma syncFold_builtins (records : list AirtableTemplateRecord) (acc : Registry.Stores * nat) :
  Registry.builtinTemplates (fold_left (Registry.syncStep host) records acc).1
  = Registry.builtinTemplates acc.1.
Proof.
  revert acc. induction records as [|rec records IH]; intros acc; [reflexivity |].
  cbn [fold_left]. now rewrite IH, syncStep_builtins.
Qed.

(** One step, on the map by record identifier and on the counter. *)
Lemma syncStep_spec (acc : Registry.Stores * nat) (rec : AirtableTemplateRecord) :
  let acc' := Registry.syncStep host acc rec in
  match synced_template host (Registry.builtinTemplates acc.1) rec with
  | Some t =>
      Registry.templatesByAirtableId acc'.1
      = JsMap.set (Registry.templatesByAirtableId acc.1) (rec_id rec) (managed rec t)
      /\ Registry.templatesByTemplateId acc'.1
         = JsMap.set (Registry.templatesByTemplateId acc.1) (id t) (managed rec t)
      /\ acc'.2 = S acc.2
  | None => acc' = acc
  end.
Proof.
  destruct acc as [st n]. cbv zeta. unfold Registry.syncStep, synced_template. cbn [fst snd].
  destruct (template_active rec); cbn [negb]; [| reflexivity].
  destruct (Registry.usable host (Registry.builtinTemplates st) rec) as [[t | t]|];
    [repeat split.. | reflexivity].
Qed.

Lemma syncFold_other (records : list AirtableTemplateRecord) (acc : Registry.Stores * nat)
    (k : string) :
  (forall rec, rec ∈ records -> rec_id rec <> k) ->
  JsMap.get (Registry.templatesByAirtableId (fold_left (Registry.syncStep host) records acc).1) k
  = JsMap.get (Registry.templatesByAirtableId acc.1) k.
Proof.
  revert acc. induction records as [|rec records IH]; intros acc Hk; [reflexivity |].
  cbn [fold_left]. rewrite IH by (intros r Hr; apply Hk; now right).
  pose proof (syncStep_spec acc rec) as H. cbv zeta in H.
  destruct (synced_template _ _ _) as [t|].
  - destruct H as (-> & _). apply get_set_ne. apply Hk. left.
  - now rewrite H.
Qed.

Lemma syncFold_get (records : list AirtableTemplateRecord) (acc : Registry.Stores * nat)
    (rec : AirtableTemplateRecord) :
  NoDup (rec_id <$> records) -> rec ∈ records ->
  JsMap.get (Registry.templatesByAirtableId (fold_left (Registry.syncStep host) records acc).1)
    (rec_id rec)
  = match synced_template host (Registry.builtinTemplates acc.1) rec with
    | Some t => Some (managed rec t)
    | None => JsMap.get (Registry.templatesByAirtableId acc.1) (rec_id rec)
    end.
Proof.
  revert acc. induction records as [|r records IH]; intros acc Hnd Hin; [inversion Hin |].
  cbn [fmap list_fmap] in Hnd. apply NoDup_cons in Hnd as [Hr Hnd].
  cbn [fold_left]. pose proof (syncStep_spec acc r) as Hstep. cbv zeta in Hstep.
  apply elem_of_cons in Hin as [-> | Hin].
  - rewrite syncFold_other.
    + destruct (synced_template _ _ _) as [t|].
      * destruct Hstep as (-> & _). apply get_set_eq.
      * now rewrite Hstep.
    + intros r' Hr' E. apply Hr. rewrite <- E. apply list_elem_of_fmap. now exists r'.
  - rewrite IH by assumption. rewrite syncStep_builtins.
    destruct (synced_template host (Registry.builtinTemplates acc.1) rec); [reflexivity |].
    destruct (synced_template host (Registry.builtinTemplates acc.1) r) as [t|].
    + destruct Hstep as (-> & _). apply get_set_ne. intros E. apply Hr. rewrite E.
      apply list_elem_of_fmap. now exists rec.
    + now rewrite Hstep.
Qed.

(** Whatever the maps hold after the loop was there before or comes
    from a record. *)
Lemma syncFold_origin (records : list AirtableTemplateRecord) (acc : Registry.Stores * nat) :
  let acc' := fold_left (Registry.syncStep host) records acc in
  (forall k m, (k, m) ∈ Registry.templatesByAirtableId acc'.1 ->
     (k, m) ∈ Registry.templatesByAirtableId acc.1
     \/ exists rec t, rec ∈ records
          /\ synced_template host (Registry.builtinTemplates acc.1) rec = Some t
          /\ k = rec_id rec /\ m = managed rec t)
  /\ (forall k m, (k, m) ∈ Registry.templatesByTemplateId acc'.1 ->
        (k, m) ∈ Registry.templatesByTemplateId acc.1
        \/ exists rec t, rec ∈ records
             /\ synced_template host (Registry.builtinTemplates acc.1) rec = Some t
             /\ k = id t /\ m = managed rec t)
  /\ acc'.2
     = (acc.2 + length (filter (fun rec =>
                          is_Some (synced_template host (Registry.builtinTemplates acc.1) rec))
                        records))%nat.
Proof.
  revert acc. induction records as [|r records IH]; intros acc.
  - cbn. repeat split; auto.
  - cbn [fold_left]. specialize (IH (Registry.syncStep host acc r)). cbv zeta in IH.
    rewrite syncStep_builtins in IH. destruct IH as (IHa & IHt & IHn).
    pose proof (syncStep_spec acc r) as Hstep. cbv zeta in Hstep.
    rewrite filter_cons.
    destruct (synced_template host (Registry.builtinTemplates acc.1) r) as [t|] eqn:Er.
    + destruct Hstep as (Ea & Et & En). split; [| split].
      * intros k m Hin. destruct (IHa k m Hin) as [Hold | (rec & t' & ? & ? & ? & ?)].
        -- rewrite Ea in Hold. apply elem_of_set in Hold as [[= -> ->] | Hold]; [| now left].
           right. exists r, t. repeat split; [left | exact Er].
        -- right. exists rec, t'. repeat split; auto. now right.
      * intros k m Hin. destruct (IHt k m Hin) as [Hold | (rec & t' & ? & ? & ? & ?)].
        -- rewrite Et in Hold. apply elem_of_set in Hold as [[= -> ->] | Hold]; [| now left].
           right. exists r, t. repeat split; [left | exact Er].
        -- right. exists rec, t'. repeat split; auto. now right.
      * destruct (decide (is_Some (Some t))) as [_ | Hn]; [| exfalso; apply Hn; eauto].
        rewrite IHn, En. cbn [length]. lia.
    + rewrite Hstep in *. split; [| split].
      * intros k m Hin. destruct (IHa k m Hin) as [Hold | (rec & t' & ? & ? & ? & ?)];
          [now left |]. right. exists rec, t'. repeat split; auto. now right.
      * intros k m Hin. destruct (IHt k m Hin) as [Hold | (rec & t' & ? & ? & ? & ?)];
          [now left |]. right. exists rec, t'. repeat split; auto. now right.
      * destruct (decide (is_Some None)) as [[? Hn] | _]; [discriminate | exact IHn].
Qed.

End Sync.

(** X19.  A sync whose fetch succeeds keeps the built-in templates,
    counts the records that are active and have a usable template, and
    rebuilds the other maps from those records alone: every entry is the
    entry of such a record, with its weight raised to 0 if negative.  If
    the record identifiers differ, the lookup by record identifier returns
    for each record its template, or nothing if it has none. *)
Theorem syncFromAirtable_online (host : Registry.Host) (st : Registry.Stores)
    (records : list AirtableTemplateRecord) :
  Registry.fetchAllTemplates host = Some records ->
  let found := synced_template host (Registry.builtinTemplates st) in
  let '(st', synced) := Registry.syncFromAirtable host st in
  Registry.builtinTemplates st' = Registry.builtinTemplates st
  /\ synced = length (filter (fun rec => is_Some (found rec)) records)
  /\ (forall k m, (k, m) ∈ Registry.templatesByAirtableId st' ->
        exists rec t, rec ∈ records /\ found rec = Some t
                      /\ k = rec_id rec /\ m = managed rec t)
  /\ (forall k m, (k, m) ∈ Registry.templatesByTemplateId st' ->
        exists rec t, rec ∈ records /\ found rec = Some t
                      /\ k = id t /\ m = managed rec t)
  /\ (NoDup (rec_id <$> records) ->
      forall rec, rec ∈ records ->
        Registry.getTemplateByAirtableId st' (rec_id rec) = found rec).
Proof.
  intros Hfetch found. unfold Registry.syncFromAirtable. rewrite Hfetch.
  set (start := ({| Registry.builtinTemplates := Registry.builtinTemplates st;
                    Registry.templatesByAirtableId := [];
                    Registry.builtinIdToAirtableId := [];
                    Registry.templatesByTemplateId := [];
                    Registry.refreshTimer := Registry.refreshTimer st |}, 0%nat)).
  pose proof (syncFold_origin host records start) as (Ha & Ht & Hn).
  pose proof (syncFold_builtins host records start) as Hb.
  pose proof (syncFold_get host records start) as Hget.
  destruct (fold_left (Registry.syncStep host) records start) as [st' synced].
  cbn [fst snd] in *. split; [exact Hb |]. split; [exact Hn |].
  split; [| split].
  - intros k m Hin. destruct (Ha k m Hin) as [Hold | H]; [inversion Hold | exact H].
  - intros k m Hin. destruct (Ht k m Hin) as [Hold | H]; [inversion Hold | exact H].
  - intros Hnd rec Hin. unfold Registry.getTemplateByAirtableId.
    rewrite (Hget rec Hnd Hin). unfold found, start. cbn [fst Registry.builtinTemplates].
    destruct (synced_template host (Registry.builtinTemplates st) rec); reflexivity.
Qed.

Lemma syncFromAirtable_online_witness :
  let '(st', synced) := Registry.syncFromAirtable Sample.online Sample.loaded in
  Registry.builtinTemplates st' = Registry.builtinTemplates Sample.loaded
  /\ synced
     = length (filter
                 (fun rec =>
                    is_Some (synced_template Sample.online
                               (Registry.builtinTemplates Sample.loaded) rec))
                 Sample.table)
  /\ (forall k m, (k, m) ∈ Registry.templatesByAirtableId st' ->
        exists rec t,
          rec ∈ Sample.table
          /\ synced_template Sample.online (Registry.builtinTemplates Sample.loaded) rec
             = Some t
          /\ k = rec_id rec /\ m = managed rec t)
  /\ (forall k m, (k, m) ∈ Registry.templatesByTemplateId st' ->
        exists rec t,
          rec ∈ Sample.table
          /\ synced_template Sample.online (Registry.builtinTemplates Sample.loaded) rec
             = Some t
          /\ k = id t /\ m = managed rec t)
  /\ (NoDup (rec_id <$> Sample.table) ->
      forall rec, rec ∈ Sample.table ->
        Registry.getTemplateByAirtableId st' (rec_id rec)
        = synced_template Sample.online (Registry.builtinTemplates Sample.loaded) rec).
Proof.
  apply (syncFromAirtable_online Sample.online Sample.loaded Sample.table). reflexivity.
Defined.

(** ** initRegistry *)

Section Init.

Variable host : Registry.Host.

Lemma loadFiles_loaded (files : list string) (builtins : list (string * TemplateDefinition))
    (builtins' : list (string * TemplateDefinition)) :
  Registry.loadFiles host files builtins = (builtins', Ok tt) ->
  (forall k, is_Some (JsMap.get builtins k) -> is_Some (JsMap.get builtins' k))
  /\ forall file, file ∈ files ->
       exists data, Registry.readBuiltin host file = Some data
                    /\ is_Some (JsMap.get builtins' (id data)).
Proof.
  revert builtins. induction files as [|f files IH]; intros builtins.
  - cbn. intros [= <-]. split; [auto | intros file H; inversion H].
  - cbn [Registry.loadFiles].
    destruct (Registry.readBuiltin host f) as [data|] eqn:Ef; [| discriminate].
    intros E. destruct (IH _ E) as [Hkeep Hfiles]. split.
    + intros k Hk. apply Hkeep. destruct (decide (id data = k)) as [<- | Hne].
      * rewrite get_set_eq. eauto.
      * now rewrite get_set_ne.
    + intros file Hin. apply elem_of_cons in Hin as [-> | Hin]; [| now apply Hfiles].
      exists data. split; [exact Ef |]. apply Hkeep. rewrite get_set_eq. eauto.
Qed.

Lemma fallback_fold_get (builtins : list (string * TemplateDefinition))
    (m : list (string * TemplateWithMeta)) (k : string) :
  is_Some (JsMap.get m k) \/ is_Some (JsMap.get builtins k) ->
  is_Some (JsMap.get
             (fold_left (fun m '(id, template) => JsMap.set m id (Registry.unmanaged template))
                builtins m) k).
Proof.
  revert m. induction builtins as [|[k0 t0] builtins IH]; intros m H.
  - destruct H as [H | [? H]]; [exact H | discriminate].
  - cbn [fold_left]. apply IH. destruct (decide (k0 = k)) as [-> | Hne].
    + left. rewrite get_set_eq. eauto.
    + rewrite get_set_ne by assumption. destruct H as [H | H]; [now left |].
      right. cbn in H. destruct (String.eqb_spec k0 k); [congruence | exact H].
Qed.

Lemma getTemplate_builtin (st : Registry.Stores) (k : string) :
  is_Some (JsMap.get (Registry.builtinTemplates st) k) ->
  is_Some (Registry.getTemplate st k).
Proof.
  intros H. unfold Registry.getTemplate.
  destruct (JsMap.get (Registry.templatesByTemplateId st) k); [eauto | exact H].
Qed.

Lemma getTemplate_fallback (st : Registry.Stores) (k : string) :
  NoDup (JsMap.keys (Registry.builtinTemplates st)) ->
  Registry.getTemplate (Registry.ensureBuiltinsFallback st) k = Registry.getTemplate st k.
Proof.
  intros Hnd. unfold Registry.ensureBuiltinsFallback.
  destruct (Registry.templatesByTemplateId st) as [|entry entries] eqn:E;
    cbn [JsMap.size length Nat.ltb Nat.leb]; [| reflexivity].
  unfold Registry.getTemplate.
  cbn [Registry.templatesByTemplateId Registry.builtinTemplates].
  rewrite E, fallback_fold_fresh by exact Hnd. cbn [app].
  rewrite get_map_unmanaged. cbn [JsMap.get].
  now destruct (JsMap.get (Registry.builtinTemplates st) k).
Qed.

Lemma loadFiles_origin (files : list string) (builtins builtins' : list (string * TemplateDefinition)) :
  Registry.loadFiles host files builtins = (builtins', Ok tt) ->
  forall k t, JsMap.get builtins' k = Some t ->
    JsMap.get builtins k = Some t
    \/ exists file, file ∈ files /\ Registry.readBuiltin host file = Some t /\ id t = k.
Proof.
  revert builtins. induction files as [|f files IH]; intros builtins.
  - cbn. intros [= <-] k t H. now left.
  - cbn [Registry.loadFiles].
    destruct (Registry.readBuiltin host f) as [data|] eqn:Ef; [| discriminate].
    intros E k t H. destruct (IH _ E k t H) as [H1 | (file & Hin & Hread & Hid)].
    + destruct (decide (id data = k)) as [<- | Hne].
      * rewrite get_set_eq in H1. injection H1 as <-.
        right. exists f. split; [left | now split].
      * rewrite get_set_ne in H1 by assumption. now left.
    + right. exists file. split; [now right | now split].
Qed.

Lemma synced_template_origin (builtins : list (string * TemplateDefinition))
    (rec : AirtableTemplateRecord) (t : TemplateDefinition) :
  (forall k t, JsMap.get builtins k = Some t -> id t = k) ->
  synced_template host builtins rec = Some t ->
  template_active rec = true
  /\ (JsMap.get builtins (id t) = Some t
      \/ Registry.parseTemplate host (template_json rec) = Some t).
Proof.
  intros Hkeyed. unfold synced_template, Registry.usable.
  destruct (template_active rec); [| discriminate].
  destruct (Js.truthy (builtin_id rec)).
  - destruct (JsMap.get builtins (builtin_id rec)) as [t0|] eqn:E0.
    + intros [= <-]. split; [reflexivity |]. left.
      now rewrite (Hkeyed _ _ E0).
    + destruct (Js.truthy (template_json rec)); [| discriminate].
      destruct (Registry.parseTemplate host (template_json rec)) as [t0|]; [| discriminate].
      intros [= <-]. split; [reflexivity | now right].
  - destruct (Js.truthy (template_json rec)); [| discriminate].
    destruct (Registry.parseTemplate host (template_json rec)) as [t0|]; [| discriminate].
    intros [= <-]. split; [reflexivity | now right].
Qed.

(** What [getTemplate] finds after a sync that started with no synced
    entry. *)
Lemma getTemplate_synced (st : Registry.Stores) (k : string) (t : TemplateDefinition) :
  Registry.templatesByTemplateId st = [] ->
  NoDup (JsMap.keys (Registry.builtinTemplates st)) ->
  (forall k t, JsMap.get (Registry.builtinTemplates st) k = Some t -> id t = k) ->
  Registry.getTemplate (Registry.syncFromAirtable host st).1 k = Some t ->
  id t = k
  /\ (JsMap.get (Registry.builtinTemplates st) k = Some t
      \/ exists records rec,
           Registry.fetchAllTemplates host = Some records /\ rec ∈ records
           /\ template_active rec = true
           /\ Registry.parseTemplate host (template_json rec) = Some t).
Proof.
  intros Hempty Hnd Hkeyed. unfold Registry.syncFromAirtable.
  destruct (Registry.fetchAllTemplates host) as [records|] eqn:Ef.
  - set (start := ({| Registry.builtinTemplates := Registry.builtinTemplates st;
                      Registry.templatesByAirtableId := [];
                      Registry.builtinIdToAirtableId := [];
                      Registry.templatesByTemplateId := [];
                      Registry.refreshTimer := Registry.refreshTimer st |}, 0%nat)).
    destruct (syncFold_origin host records start) as (_ & Horigin & _).
    pose proof (syncFold_builtins host records start) as Hb.
    unfold Registry.getTemplate. rewrite Hb. cbn [fst start Registry.builtinTemplates].
    destruct (JsMap.get _ k) as [m|] eqn:Em.
    + intros [= <-]. apply get_Some_elem_of in Em.
      destruct (Horigin k m Em) as [Hold | (rec & t0 & Hin & Hfound & -> & ->)];
        [inversion Hold |].
      cbn [fst start Registry.builtinTemplates] in Hfound.
      destruct (synced_template_origin _ rec t0 Hkeyed Hfound) as [Hactive Hfrom].
      cbn [template managed]. split; [reflexivity |].
      destruct Hfrom as [Hfrom | Hfrom]; [now left |].
      right. exists records, rec. auto.
    + intros H. split; [now apply Hkeyed | now left].
  - cbn [fst]. rewrite getTemplate_fallback by exact Hnd.
    unfold Registry.getTemplate. rewrite Hempty. cbn [JsMap.get].
    intros H. split; [now apply Hkeyed | now left].
Qed.

End Init.

(** X20.  Once [initRegistry], started on the empty stores, has returned,
    [getTemplate] resolves the id of each of the nine built-in files to a
    template of that id: the one the built-in store holds under the id,
    unless an active record of the table carries a [template_json] that
    parses to a template of the same id, which may then be served in its
    place.  The built-in store holds the template of the file itself when
    no other file has the same id.  The list of templates is not empty and
    the periodic refresh is armed, whether the table could be fetched or
    not. *)
Theorem initRegistry_serves (host : Registry.Host) (st' : Registry.Stores) :
  Registry.initRegistry host Registry.noStores = (st', Ok tt) ->
  (forall file, file ∈ Registry.builtinFiles ->
     exists data t,
       Registry.readBuiltin host file = Some data
       /\ Registry.getTemplate st' (id data) = Some t
       /\ id t = id data
       /\ (JsMap.get (Registry.builtinTemplates st') (id data) = Some t
           \/ exists records rec,
                Registry.fetchAllTemplates host = Some records /\ rec ∈ records
                /\ template_active rec = true
                /\ Registry.parseTemplate host (template_json rec) = Some t)
       /\ ((forall file' data',
              file' ∈ Registry.builtinFiles ->
              Registry.readBuiltin host file' = Some data' ->
              id data' = id data -> data' = data) ->
           JsMap.get (Registry.builtinTemplates st') (id data) = Some data))
  /\ Registry.listTemplates st' <> []
  /\ Registry.refreshTimer st' = true.
Proof.
  unfold Registry.initRegistry, Registry.loadBuiltinTemplates.
  cbn [Registry.noStores Registry.builtinTemplates Registry.templatesByAirtableId
       Registry.builtinIdToAirtableId Registry.templatesByTemplateId Registry.refreshTimer].
  pose proof (loadFiles_ok host Registry.builtinFiles [] (NoDup_nil_2)
                ltac:(intros k t H; inversion H)) as Hok. cbv zeta in Hok.
  destruct (Registry.loadFiles host Registry.builtinFiles [])
    as [builtins [[] | e]] eqn:Eload; [| discriminate].
  cbn [fst] in Hok. destruct Hok as [Hnd _].
  destruct (loadFiles_loaded host _ _ _ Eload) as [_ Hfiles].
  pose proof (loadFiles_origin host _ _ _ Eload) as Horigin.
  assert (Hkeyed : forall k t, JsMap.get builtins k = Some t -> id t = k).
  { intros k t H. destruct (Horigin k t H) as [H0 | (file & _ & _ & Hid)];
      [discriminate | exact Hid]. }
  set (st1 := {| Registry.builtinTemplates := builtins;
                 Registry.templatesByAirtableId := [];
                 Registry.builtinIdToAirtableId := [];
                 Registry.templatesByTemplateId := [];
                 Registry.refreshTimer := false |}).
  set (st2 := (Registry.syncFromAirtable host st1).1).
  assert (Hb2 : Registry.builtinTemplates st2 = builtins).
  { unfold st2, Registry.syncFromAirtable.
    destruct (Registry.fetchAllTemplates host) as [records|].
    - now rewrite syncFold_builtins.
    - cbn [fst]. unfold Registry.ensureBuiltinsFallback. now destruct (0 <? _)%nat. }
  set (st3 := if (JsMap.size (Registry.templatesByTemplateId st2) =? 0)%nat
              then Registry.ensureBuiltinsFallback st2 else st2).
  assert (Hb3 : Registry.builtinTemplates st3 = builtins).
  { unfold st3. destruct (_ =? _)%nat; [| exact Hb2].
    unfold Registry.ensureBuiltinsFallback. now destruct (0 <? _)%nat. }
  assert (Hget3 : forall k, Registry.getTemplate st3 k = Registry.getTemplate st2 k).
  { intros k. unfold st3. destruct (_ =? _)%nat; [| reflexivity].
    apply getTemplate_fallback. now rewrite Hb2. }
  assert (Hnonempty : Registry.templatesByTemplateId st3 <> []).
  { destruct (Hfiles "main-2-image.json" ltac:(left)) as (data & _ & Hdata).
    unfold st3. destruct (JsMap.size (Registry.templatesByTemplateId st2) =? 0)%nat eqn:Ez.
    - apply Nat.eqb_eq in Ez. unfold Registry.ensureBuiltinsFallback. rewrite Ez.
      cbn [Nat.ltb Nat.leb Registry.templatesByTemplateId]. rewrite Hb2.
      intros Enil.
      pose proof (fallback_fold_get builtins (Registry.templatesByTemplateId st2) (id data)
                    (or_intror Hdata)) as [m Hm].
      rewrite Enil in Hm. discriminate.
    - apply Nat.eqb_neq in Ez. intros Enil. rewrite Enil in Ez. now apply Ez. }
  intros [= <-]. split; [| split; [| reflexivity]].
  - intros file Hin. destruct (Hfiles file Hin) as (data & Hread & [d0 Hd0]).
    assert (Hserved : is_Some (Registry.getTemplate st2 (id data))).
    { apply getTemplate_builtin. rewrite Hb2. eauto. }
    destruct Hserved as [t Ht].
    destruct (getTemplate_synced host st1 (id data) t eq_refl Hnd Hkeyed Ht) as [Hid Hfrom].
    exists data, t. split; [exact Hread |].
    change (Registry.getTemplate st3 (id data) = Some t
            /\ id t = id data
            /\ (JsMap.get (Registry.builtinTemplates st3) (id data) = Some t
                \/ exists records rec,
                     Registry.fetchAllTemplates host = Some records /\ rec ∈ records
                     /\ template_active rec = true
                     /\ Registry.parseTemplate host (template_json rec) = Some t)
            /\ ((forall file' data',
                   file' ∈ Registry.builtinFiles ->
                   Registry.readBuiltin host file' = Some data' ->
                   id data' = id data -> data' = data) ->
                JsMap.get (Registry.builtinTemplates st3) (id data) = Some data)).
    rewrite Hget3, Hb3. split; [exact Ht |]. split; [exact Hid |]. split; [exact Hfrom |].
    intros Hdistinct. rewrite Hd0. f_equal.
    destruct (Horigin _ _ Hd0) as [H0 | (file0 & Hin0 & Hread0 & Hid0)]; [discriminate |].
    now apply (Hdistinct file0).
  - unfold Registry.listTemplates. cbn [Registry.templatesByTemplateId]. fold st1 st2 st3.
    destruct (Registry.templatesByTemplateId st3); [congruence | discriminate].
Qed.

Lemma initRegistry_serves_witness :
  (forall file, file ∈ Registry.builtinFiles ->
     exists data t,
       Registry.readBuiltin Sample.online file = Some data
       /\ Registry.getTemplate (Registry.initRegistry Sample.online Registry.noStores).1
            (id data) = Some t
       /\ id t = id data
       /\ (JsMap.get
             (Registry.builtinTemplates
                (Registry.initRegistry Sample.online Registry.noStores).1) (id data)
           = Some t
           \/ exists records rec,
                Registry.fetchAllTemplates Sample.online = Some records /\ rec ∈ records
                /\ template_active rec = true
                /\ Registry.parseTemplate Sample.online (template_json rec) = Some t)
       /\ ((forall file' data',
              file' ∈ Registry.builtinFiles ->
              Registry.readBuiltin Sample.online file' = Some data' ->
              id data' = id data -> data' = data) ->
           JsMap.get
             (Registry.builtinTemplates
                (Registry.initRegistry Sample.online Registry.noStores).1) (id data)
           = Some data))
  /\ Registry.listTemplates (Registry.initRegistry Sample.online Registry.noStores).1 <> []
  /\ Registry.refreshTimer (Registry.initRegistry Sample.online Registry.noStores).1 = true.
Proof.
  apply (initRegistry_serves Sample.online). vm_compute. reflexivity.
Defined.

(** ** simpleHash, hashBasedSelect *)

Local Open Scope Z_scope.

Lemma toInt32_range (z : Z) : -2147483648 <= Js.toInt32 z < 2147483648.
Proof.
  unfold Js.toInt32.
  pose proof (Z.mod_pos_bound (z + 2147483648) 4294967296 ltac:(lia)). lia.
Qed.

Lemma toInt32_eq (z : Z) : exists k, Js.toInt32 z = z + 4294967296 * k.
Proof.
  unfold Js.toInt32. exists (- ((z + 2147483648) / 4294967296)).
  pose proof (Z.div_mod (z + 2147483648) 4294967296 ltac:(lia)). lia.
Qed.

Lemma toInt32_shift (z k : Z) : Js.toInt32 (z + 4294967296 * k) = Js.toInt32 z.
Proof.
  unfold Js.toInt32.
  replace (z + 4294967296 * k + 2147483648) with (z + 2147483648 + k * 4294967296) by lia.
  now rewrite Z_mod_plus_full.
Qed.

Lemma toInt32_idem (z : Z) : Js.toInt32 (Js.toInt32 z) = Js.toInt32 z.
Proof.
  destruct (toInt32_eq z) as [k E]. pose proof (toInt32_shift z k) as H.
  now rewrite <- E in H.
Qed.

Lemma hashStep_closed (hash char : Z) :
  Registry.hashStep hash char = Js.toInt32 (31 * hash + char).
Proof.
  unfold Registry.hashStep, Js.band, Js.shl. cbv zeta.
  rewrite Z.land_diag, toInt32_idem.
  change (5 mod 32) with 5. rewrite Z.shiftl_mul_pow2 by lia. change (2 ^ 5) with 32.
  destruct (toInt32_eq hash) as [k1 ->].
  destruct (toInt32_eq ((hash + 4294967296 * k1) * 32)) as [k2 ->].
  replace ((hash + 4294967296 * k1) * 32 + 4294967296 * k2 - hash + char)
    with (31 * hash + char + 4294967296 * (32 * k1 + k2)) by lia.
  apply toInt32_shift.
Qed.

Lemma hashFold_closed (codes : list Z) (h : Z) :
  fold_left Registry.hashStep codes (Js.toInt32 h)
  = Js.toInt32 (fold_left (fun h c => 31 * h + c) codes h).
Proof.
  revert h. induction codes as [|c codes IH]; intros h; [reflexivity |].
  cbn [fold_left]. rewrite hashStep_closed.
  destruct (toInt32_eq h) as [k ->].
  replace (31 * (h + 4294967296 * k) + c) with (31 * h + c + 4294967296 * (31 * k)) by lia.
  rewrite toInt32_shift. apply IH.
Qed.

Lemma simpleHash_horner (str : string) :
  Registry.simpleHash str = Z.abs (Js.toInt32 (horner31 (Js.charCodes str))).
Proof.
  unfold Registry.simpleHash, horner31. f_equal.
  change 0 with (Js.toInt32 0) at 1. apply hashFold_closed.
Qed.

Lemma simpleHash_range (str : string) : 0 <= Registry.simpleHash str <= 2147483648.
Proof.
  rewrite simpleHash_horner.
  pose proof (toInt32_range (horner31 (Js.charCodes str))). lia.
Qed.

(** X21.  [simpleHash] is the absolute value of the polynomial hash
    to the base 31 of the code units, reduced to a signed 32-bit integer;
    it lies between 0 and 2^31, both included. *)
Theorem simpleHash_closed (str : string) :
  Registry.simpleHash str = Z.abs (Js.toInt32 (horner31 (Js.charCodes str)))
  /\ 0 <= Registry.simpleHash str <= 2147483648.
Proof. split; [apply simpleHash_horner | apply simpleHash_range]. Qed.

Lemma pick_in_range (st : Registry.Stores) (options : list string) (hash : Z) :
  options <> [] -> 0 <= hash ->
  exists id, id ∈ options /\ Registry.pick st options hash = Registry.getTemplate st id.
Proof.
  intros Hne Hhash. unfold Registry.pick. cbv zeta.
  assert (Hlen : 0 < Z.of_nat (length options)) by (destruct options; [congruence | cbn; lia]).
  rewrite Z.rem_mod_nonneg by lia.
  pose proof (Z.mod_pos_bound hash (Z.of_nat (length options)) Hlen) as Hb.
  destruct (Z.ltb_spec (hash mod Z.of_nat (length options)) 0) as [? | _]; [lia |].
  destruct (lookup_lt_is_Some_2 options (Z.to_nat (hash mod Z.of_nat (length options))))
    as [id Hid]; [lia |].
  rewrite Hid. exists id. split; [| reflexivity].
  now apply list_elem_of_lookup_2 in Hid.
Qed.

Lemma hashBasedSelect_id (st : Registry.Stores) (imageCount : nat) (recordId : string) :
  exists id,
    Registry.hashBasedSelect st imageCount recordId = Registry.getTemplate st id
    /\ id ∈ (if (imageCount <=? 1)%nat then ["main-1-image"]
             else if (imageCount =? 2)%nat then ["main-2-image"; "before-after"]
             else ["main-1-image"; "main-2-image"; "before-after"]).
Proof.
  unfold Registry.hashBasedSelect. cbv zeta.
  pose proof (simpleHash_range recordId) as [Hh _].
  destruct (imageCount <=? 1)%nat.
  - exists "main-1-image". split; [reflexivity | left].
  - destruct (imageCount =? 2)%nat.
    + destruct (pick_in_range st ["main-2-image"; "before-after"] _ ltac:(discriminate) Hh)
        as (id & Hin & E). exists id. now split.
    + destruct (pick_in_range st ["main-1-image"; "main-2-image"; "before-after"] _
                  ltac:(discriminate) Hh) as (id & Hin & E). exists id. now split.
Qed.

(** X22.  [hashBasedSelect] returns what [getTemplate] returns for
    one of its options: main-1-image for at most one image, main-2-image
    or before-after for two, one of the three otherwise.  The index is
    never out of range: with the three built-in templates loaded the
    result is a template. *)
Theorem hashBasedSelect_options (st : Registry.Stores) (imageCount : nat)
    (recordId : string) :
  (exists id,
     Registry.hashBasedSelect st imageCount recordId = Registry.getTemplate st id
     /\ id ∈ (if (imageCount <=? 1)%nat then ["main-1-image"]
              else if (imageCount =? 2)%nat then ["main-2-image"; "before-after"]
              else ["main-1-image"; "main-2-image"; "before-after"]))
  /\ ((forall id, id ∈ ["main-1-image"; "main-2-image"; "before-after"] ->
         is_Some (JsMap.get (Registry.builtinTemplates st) id)) ->
      is_Some (Registry.hashBasedSelect st imageCount recordId)).
Proof.
  destruct (hashBasedSelect_id st imageCount recordId) as (id & E & Hin).
  split; [now exists id |].
  intros Hloaded. rewrite E. unfold Registry.getTemplate.
  destruct (JsMap.get (Registry.templatesByTemplateId st) id); [eauto |].
  apply Hloaded.
  apply list_elem_of_In in Hin. apply list_elem_of_In.
  destruct (imageCount <=? 1)%nat; [| destruct (imageCount =? 2)%nat];
    cbn in *; tauto.
Qed.

Local Close Scope Z_scope.

(** ** autoSelectTemplate *)

Lemma pool_member (localeCompare : string -> string -> Z)
    (catalog : list (string * TemplateWithMeta)) (format : OutputFormat)
    (available : nat) (wanted : option (list string)) (m : TemplateWithMeta) :
  m ∈ Registry.getRotationPool localeCompare catalog format available wanted ->
  m ∈ JsMap.values catalog /\ eligible format available wanted m.
Proof.
  unfold Registry.getRotationPool. cbv zeta. intros Hm.
  apply elem_of_flat_map in Hm as (c & Hc & Hm).
  apply elem_of_replicate_inv in Hm as ->.
  rewrite merge_sort_Permutation in Hc. apply list_elem_of_filter in Hc as [Hc Hin].
  split; [exact Hin | now apply isCandidate_eligible].
Qed.

(** X23.  [autoSelectTemplate] serves a before-and-after job with
    the before-after template and, that failing, a slideshow job with
    slideshow-base.  Every verdict is either the lookup of one of four
    fixed ids, with no rotation state written, or the next entry of the
    png pool of a company whose identifier is given and not empty; then
    the png cursor written back is the index of that entry and the mp4
    cursor is the one that was read. *)
Theorem autoSelectTemplate_outcome (localeCompare : string -> string -> Z)
    (host : Registry.Host) (st : Registry.Stores) (imageCount : nat) (recordId : string)
    (categoryKeys : option (list string)) (preferMp4 : option bool)
    (postType : option PostType) (companyId : option string) :
  let result :=
    Registry.autoSelectTemplate localeCompare host st imageCount recordId categoryKeys
      preferMp4 postType companyId in
  let beforeAfter :=
    postType = Some before_after
    \/ exists ks, categoryKeys = Some ks /\ "before_after" ∈ ks in
  let slides :=
    postType = Some slideshow \/ (preferMp4 = Some true /\ (3 <= imageCount)%nat) in
  (beforeAfter -> result = ([], Registry.getTemplate st "before-after"))
  /\ (~ beforeAfter -> slides -> result = ([], Registry.getTemplate st "slideshow-base"))
  /\ ((result.1 = []
       /\ exists id,
            id ∈ ["before-after"; "slideshow-base"; "main-1-image"; "main-2-image"]
            /\ result.2 = Registry.getTemplate st id)
      \/ exists company meta,
           let pool :=
             Registry.getRotationPool localeCompare (Registry.templatesByAirtableId st)
               png imageCount categoryKeys in
           let state := Registry.getCompanyRotationState host company in
           let next := ((lastIndex (state_png state) + 1) mod length pool)%nat in
           companyId = Some company /\ company <> EmptyString
           /\ pool !! next = Some meta
           /\ outputFormat (template meta) = png
           /\ result
              = ([(company, {| state_png := {| lastIndex := next |};
                               state_mp4 := state_mp4 state |})],
                 Some (template meta))).
Proof.
  cbv zeta. unfold Registry.autoSelectTemplate. cbv zeta.
  assert (Hba : Registry.is_before_after postType
                || match categoryKeys with
                   | Some ks => Registry.includes ks "before_after"
                   | None => false
                   end = true
                <-> (postType = Some before_after
                     \/ exists ks, categoryKeys = Some ks /\ "before_after" ∈ ks)).
  { rewrite orb_true_iff. split; intros [H | H].
    - left. destruct postType as [[]|]; try discriminate. reflexivity.
    - right. destruct categoryKeys as [ks|]; [| discriminate].
      exists ks. split; [reflexivity | now apply includes_elem_of].
    - left. now rewrite H.
    - right. destruct H as (ks & -> & Hin). now apply includes_elem_of. }
  assert (Hsl : Registry.is_slideshow postType
                || (default false preferMp4 && (3 <=? imageCount)%nat) = true
                <-> (postType = Some slideshow
                     \/ (preferMp4 = Some true /\ (3 <= imageCount)%nat))).
  { rewrite orb_true_iff, andb_true_iff, Nat.leb_le. split; intros [H | H].
    - left. destruct postType as [[]|]; try discriminate. reflexivity.
    - right. destruct preferMp4 as [[]|]; cbn in H; try (destruct H; discriminate).
      now split.
    - left. now rewrite H.
    - right. destruct H as [-> ?]. now split. }
  destruct (Registry.is_before_after postType || _) eqn:Eba.
  { split; [reflexivity |]. split; [intros Hn; exfalso; apply Hn; now apply Hba |].
    left. split; [reflexivity |]. exists "before-after". split; [left | reflexivity]. }
  assert (Hnba : ~ (postType = Some before_after
                    \/ exists ks, categoryKeys = Some ks /\ "before_after" ∈ ks)).
  { intros H. apply Hba in H. discriminate. }
  split; [intros H; contradiction |].
  destruct (Registry.is_slideshow postType || _) eqn:Esl.
  { split; [reflexivity |]. left. split; [reflexivity |].
    exists "slideshow-base". split; [right; left | reflexivity]. }
  assert (Hnsl : ~ (postType = Some slideshow
                    \/ (preferMp4 = Some true /\ (3 <= imageCount)%nat))).
  { intros H. apply Hsl in H. discriminate. }
  split; [intros _ H; contradiction |].
  apply orb_false_elim in Esl as [_ Emp4]. rewrite Emp4.
  assert (Hhash : exists id,
            id ∈ ["before-after"; "slideshow-base"; "main-1-image"; "main-2-image"]
            /\ Registry.hashBasedSelect st imageCount recordId = Registry.getTemplate st id).
  { destruct (hashBasedSelect_id st imageCount recordId) as (id & E & Hin).
    exists id. split; [| exact E].
    apply list_elem_of_In in Hin. apply list_elem_of_In.
    destruct (imageCount <=? 1)%nat; [| destruct (imageCount =? 2)%nat];
      cbn in *; tauto. }
  destruct companyId as [company|]; [| left; now split].
  destruct (Js.truthy company) eqn:Ec; [| left; now split].
  set (pool := Registry.getRotationPool localeCompare (Registry.templatesByAirtableId st)
                 png imageCount categoryKeys).
  destruct (0 <? length pool)%nat eqn:Elen; [| left; now split].
  apply Nat.ltb_lt in Elen.
  assert (Hne : pool <> []) by (intros E; rewrite E in Elen; cbn in Elen; lia).
  rewrite (selectFromPool_nonempty pool _ png Hne). cbv zeta.
  cbn [Registry.selected Registry.updatedState Registry.cursor Registry.withCursor].
  set (next := ((lastIndex (state_png (Registry.getCompanyRotationState host company)) + 1)
                mod length pool)%nat).
  destruct (lookup_lt_is_Some_2 pool next) as [meta Hmeta];
    [apply Nat.mod_upper_bound; lia |].
  rewrite Hmeta. right. exists company, meta.
  split; [reflexivity |]. split; [intros ->; discriminate |].
  split; [exact Hmeta |]. split; [| reflexivity].
  apply list_elem_of_lookup_2 in Hmeta. apply pool_member in Hmeta as [_ (Hf & _)].
  exact Hf.
Qed.

(** ** The run of renderMp4 *)

Section Mp4More.

Variable canvas : Canvas.Host.
Variable host : Mp4Renderer.Host.

Lemma renderFrames_inside (rc : Mp4Renderer.Mp4RenderContext) (tmpDir : string)
    (indices : list nat) (framePaths : list string) (trace : list Mp4Renderer.Event) :
  exists more,
    (Mp4Renderer.renderFrames canvas host rc tmpDir indices framePaths trace).1
    = trace ++ more
    /\ Forall inside more.
Proof.
  revert framePaths trace. induction indices as [|i rest IH]; intros framePaths trace.
  - exists []. cbn. split; [now rewrite app_nil_r | constructor].
  - cbn [Mp4Renderer.renderFrames].
    destruct (PngRenderer.renderPng canvas _) as [png | e].
    + destruct (Mp4Renderer.writeFileSync host _ png).
      * destruct (IH (framePaths ++ [framePath tmpDir i])
                    ((trace ++ [Mp4Renderer.RenderFrame i])
                       ++ [Mp4Renderer.WriteFile (framePath tmpDir i)]))
          as (more & E & Hin).
        unfold framePath in E. rewrite E.
        exists (Mp4Renderer.RenderFrame i :: Mp4Renderer.WriteFile (framePath tmpDir i) :: more).
        split; [now rewrite <- !app_assoc |]. repeat constructor. exact Hin.
      * eexists. cbn [fst]. split; [rewrite <- app_assoc; reflexivity |].
        repeat constructor.
    + eexists. cbn [fst]. split; [reflexivity |]. repeat constructor.
Qed.

Lemma renderMp4_try_inside (rc : Mp4Renderer.Mp4RenderContext) (tmpDir outputPath : string)
    (trace : list Mp4Renderer.Event) :
  exists more,
    (Mp4Renderer.renderMp4_try canvas host rc tmpDir outputPath trace).1 = trace ++ more
    /\ Forall inside more.
Proof.
  unfold Mp4Renderer.renderMp4_try. cbn zeta.
  destruct (renderFrames_inside rc tmpDir
              (seq 0 (length (frames (Mp4Renderer.ctx_template rc)))) [] trace)
    as (more & Htrace & Hin).
  destruct (Mp4Renderer.renderFrames _ _ _ _ _ _ _) as [trace1 [framePaths | e]];
    cbn [fst snd] in *; subst trace1.
  - unfold Mp4Renderer.buildMp4WithXfade. cbn zeta.
    destruct (Mp4Renderer.run host _) as [message|].
    + eexists. cbn [fst]. split; [rewrite <- app_assoc; reflexivity |].
      apply Forall_app. split; [exact Hin | repeat constructor].
    + destruct (Mp4Renderer.readFileSync host outputPath);
        (eexists; cbn [fst]; split; [rewrite <- !app_assoc; reflexivity |]);
        (apply Forall_app; split; [exact Hin | repeat constructor]).
  - exists more. split; [reflexivity | exact Hin].
Qed.

End Mp4More.

(** X24.  Once the temporary directory is made, [renderMp4] removes
    it as the last thing it does, and removes nothing else, whether the
    frames, the encoder or the read of the output fail or not. *)
Theorem renderMp4_cleans_up (canvas : Canvas.Host) (host : Mp4Renderer.Host)
    (rc : Mp4Renderer.Mp4RenderContext) (trace : list Mp4Renderer.Event) (tmpDir : string) :
  let pathPrefix := Mp4Renderer.path_join (Mp4Renderer.tmpdir host) "render-mp4-" in
  (2 <= length (frames (Mp4Renderer.ctx_template rc)))%nat ->
  Mp4Renderer.mkdtempSync host pathPrefix = Some tmpDir ->
  exists between,
    (Mp4Renderer.renderMp4 canvas host rc trace).1
    = trace ++ [Mp4Renderer.Mkdtemp pathPrefix] ++ between ++ [Mp4Renderer.RmSync tmpDir]
    /\ Forall inside between.
Proof.
  intros pathPrefix HN Hdir. unfold Mp4Renderer.renderMp4.
  replace (length (frames (Mp4Renderer.ctx_template rc)) <? 2)%nat with false
    by (symmetry; now apply Nat.ltb_ge).
  cbn zeta. fold pathPrefix. rewrite Hdir.
  destruct (renderMp4_try_inside canvas host rc tmpDir
              (Mp4Renderer.path_join tmpDir "output.mp4")
              (trace ++ [Mp4Renderer.Mkdtemp pathPrefix])) as (more & E & Hin).
  destruct (Mp4Renderer.renderMp4_try _ _ _ _ _ _) as [trace1 result].
  cbn [fst] in *. subst trace1. exists more. split; [| exact Hin].
  now rewrite <- !app_assoc.
Qed.

Lemma renderMp4_cleans_up_witness :
  exists between,
    (Mp4Renderer.renderMp4 Sample.failingFillRect Sample.encoder
       (Sample.mp4Context Sample.slideshow) []).1
    = [] ++ [Mp4Renderer.Mkdtemp "/tmp/render-mp4-"] ++ between
         ++ [Mp4Renderer.RmSync "/tmp/render-mp4-a1b2c3"]
    /\ Forall inside between.
Proof.
  apply (renderMp4_cleans_up Sample.failingFillRect Sample.encoder
           (Sample.mp4Context Sample.slideshow) [] "/tmp/render-mp4-a1b2c3").
  - cbn. lia.
  - reflexivity.
Defined.

Section Mp4Success.

Variable canvas : Canvas.Host.
Variable host : Mp4Renderer.Host.
Hypothesis canvas_quiet : quiet canvas.
Hypothesis writes : forall p png, Mp4Renderer.writeFileSync host p png = true.



End Mp4Success.



(** ** Frame files *)

Lemma pretty_go_length (x : N) (s : string) :
  (String.length s <= String.length (pretty_N_go x s))%nat.
Proof.
  revert s. induction (N.lt_wf_0 x) as [x _ IH]; intros s.
  destruct (decide (x = 0)%N) as [-> | Hx]; [now rewrite pretty_N_go_0 |].
  rewrite pretty_N_go_step by lia.
  etransitivity; [| apply IH; apply N.div_lt; lia]. cbn. lia.
Qed.

Lemma pretty_small (n : nat) :
  (n < 1000)%nat ->
  Mp4Renderer.padStart3 (pretty n)
  = String (pretty_N_char (N.of_nat (n / 100)))
      (String (pretty_N_char (N.of_nat (n / 10 mod 10)))
         (String (pretty_N_char (N.of_nat (n mod 10))) EmptyString)).
Proof.
  intros Hn.
  assert (G : forallb (fun n =>
                bool_decide
                  (Mp4Renderer.padStart3 (pretty n)
                   = String (pretty_N_char (N.of_nat (n / 100)))
                       (String (pretty_N_char (N.of_nat (n / 10 mod 10)))
                          (String (pretty_N_char (N.of_nat (n mod 10))) EmptyString))))
                (seq 0 1000) = true) by (vm_compute; reflexivity).
  rewrite forallb_forall in G.
  assert (Hin : In n (seq 0 1000)) by (apply in_seq; lia).
  apply G in Hin. now apply bool_decide_eq_true in Hin.
Qed.

Lemma pretty_large (n : nat) :
  (1000 <= n)%nat ->
  Mp4Renderer.padStart3 (pretty n) = pretty n /\ (4 <= String.length (pretty n))%nat.
Proof.
  intros Hn.
  assert (Hlen : (4 <= String.length (pretty n))%nat).
  { unfold pretty, pretty_nat, pretty, pretty_N.
    destruct (decide (N.of_nat n = 0%N)); [lia |].
    rewrite pretty_N_go_step by lia.
    rewrite pretty_N_go_step by (apply N.div_str_pos; lia).
    rewrite pretty_N_go_step
      by (apply N.div_str_pos; split; [lia |]; apply N.div_le_lower_bound; lia).
    rewrite pretty_N_go_step.
    - etransitivity; [| apply pretty_go_length]. cbn. lia.
    - apply N.div_str_pos. split; [lia |].
      apply N.div_le_lower_bound; [lia |]. apply N.div_le_lower_bound; lia. }
  split; [| exact Hlen]. unfold Mp4Renderer.padStart3.
  destruct (String.length (pretty n)) as [|[|[|k]]]; try lia. reflexivity.
Qed.

Lemma padStart3_inj (i j : nat) :
  Mp4Renderer.padStart3 (pretty i) = Mp4Renderer.padStart3 (pretty j) -> i = j.
Proof.
  destruct (Nat.lt_ge_cases i 1000) as [Hi | Hi], (Nat.lt_ge_cases j 1000) as [Hj | Hj].
  - rewrite !pretty_small by assumption. intros E.
    assert (Hchars : forall a b c a' b' c' : ascii,
              String a (String b (String c EmptyString))
              = String a' (String b' (String c' EmptyString)) ->
              a = a' /\ b = b' /\ c = c') by (intros; simplify_eq; auto).
    apply Hchars in E as (H1 & H2 & H3). clear Hchars.
    assert (i / 100 < 10 /\ j / 100 < 10)%nat as [? ?]
      by (split; apply Nat.Div0.div_lt_upper_bound; lia).
    assert (i / 10 mod 10 < 10 /\ j / 10 mod 10 < 10)%nat as [? ?]
      by (split; apply Nat.mod_upper_bound; lia).
    assert (i mod 10 < 10 /\ j mod 10 < 10)%nat as [? ?]
      by (split; apply Nat.mod_upper_bound; lia).
    apply pretty_N_char_inj in H1; [| lia | lia].
    apply pretty_N_char_inj in H2; [| lia | lia].
    apply pretty_N_char_inj in H3; [| lia | lia].
    apply Nat2N.inj in H1, H2, H3.
    pose proof (Nat.div_mod_eq i 10). pose proof (Nat.div_mod_eq j 10).
    pose proof (Nat.div_mod_eq (i / 10) 10). pose proof (Nat.div_mod_eq (j / 10) 10).
    rewrite Nat.Div0.div_div in *. change (10 * 10)%nat with 100%nat in *. lia.
  - destruct (pretty_large j Hj) as [Ej Hlen]. rewrite Ej, pretty_small by assumption.
    intros E. rewrite <- E in Hlen. cbn in Hlen. lia.
  - destruct (pretty_large i Hi) as [Ei Hlen]. rewrite Ei, pretty_small by assumption.
    intros E. rewrite E in Hlen. cbn in Hlen. lia.
  - destruct (pretty_large i Hi) as [-> _], (pretty_large j Hj) as [-> _].
    apply pretty_nat_inj.
Qed.

Lemma append_inj_l (a b c : string) : a +:+ b = a +:+ c -> b = c.
Proof. induction a as [|x a IH]; string_simpl; [auto | intros [= H]; auto]. Qed.

Lemma append_inj_r (a b c : string) : a +:+ c = b +:+ c -> a = b.
Proof.
  intros E.
  assert (Hlen : String.length a = String.length b).
  { apply (f_equal String.length) in E. rewrite !length_app_string in E. lia. }
  revert b E Hlen. induction a as [|x a IH]; intros [|y b] E Hlen; try discriminate.
  - reflexivity.
  - string_simpl. injection E as -> E. f_equal. apply IH; [exact E |]. cbn in Hlen. lia.
Qed.

(** X26.  Different frame indices give different frame files, also
    beyond the three digits of the padding, and no frame file is the
    output file. *)
Theorem framePath_distinct (tmpDir : string) (i j : nat) :
  (framePath tmpDir i = framePath tmpDir j -> i = j)
  /\ framePath tmpDir i <> Mp4Renderer.path_join tmpDir "output.mp4".
Proof.
  unfold framePath, Mp4Renderer.path_join. split.
  - intros E. apply append_inj_l, append_inj_l, append_inj_l in E.
    apply append_inj_r in E. now apply padStart3_inj.
  - intros E. apply append_inj_l, append_inj_l in E. discriminate.
Qed.
